(** * Server-State: the two-player room relay (src/server.py)

    A shallow embedding of the matchmaking queue, the room registry, the
    input processor and the snapshot broadcaster of [src/server.py],
    followed by the properties of the specification that were settled on it.

    Modelling choices, all read off the source:
    - Python [float] is IEEE-754 binary64.  It is embedded as the standard
      library's [spec_float] at precision 53 and maximal exponent 1024, so
      that addition rounds, and infinities and NaN exist, exactly as in the
      interpreter.
    - Python [dict] is a [gmap], the [set] used for the queue is a [gset];
      [set.pop()] removes an arbitrary element, which is given to the model
      as an oracle argument.  [secrets.token_hex] is an oracle as well.
    - [await ws.send(...)] appends to a trace of attempted sends; a failing
      send is swallowed by the source and leaves no other mark.
    - Each coroutine body runs to completion (no interleaving inside one
      handler step); wall-clock readings ([serverTime], [joined_at]) are not
      represented. *)

From Stdlib Require Import ZArith Lia Bool List.
From Stdlib Require Import Floats.SpecFloat.
From stdpp Require Import base option gmap strings list fin_maps fin_sets.

Local Open Scope Z_scope.
#[local] Set Warnings "-clear-no-such-hyp".

(* ===================================================================== *)
(** * Part I: definitions                                                 *)
(* ===================================================================== *)

(** ** Binary64 *)

Abbreviation float := spec_float.

Definition prec : Z := 53.
Definition emax : Z := 1024.

Definition fadd : float → float → float := SFadd prec emax.
Definition fdiv : float → float → float := SFdiv prec emax.
Definition fneg : float → float := SFopp.
Definition flt : float → float → bool := SFltb.
Definition fle : float → float → bool := SFleb.
Definition feq : float → float → bool := SFeqb.

(** Conversion of an integer, rounding to nearest even. *)
Definition float_of_Z (z : Z) : float := binary_normalize prec emax z 0 false.

(** The floats Python can hold: canonical mantissa and exponent. *)
Definition is_binary64 (f : float) : bool := valid_binary prec emax f.

Definition is_finite (f : float) : bool :=
  match f with
  | S754_zero _ | S754_finite _ _ _ => true
  | _ => false
  end.

(** The exact value of a finite float, counted in units of 2^-1074 (the
    smallest positive binary64 number), hence an integer. *)
Definition units (f : float) : Z :=
  match f with
  | S754_finite s m e => cond_Zopp s (Zpos m * 2 ^ (e + 1074))
  | _ => 0
  end.

(** One unit of the world's coordinate system, in the same scale. *)
Definition unit_scale : Z := 2 ^ 1074.

Definition f0 : float := S754_zero false.
Definition f1 : float := Eval vm_compute in float_of_Z 1.
Definition f8 : float := Eval vm_compute in float_of_Z 8.
Definition f20 : float := Eval vm_compute in float_of_Z 20.
Definition f5000 : float := Eval vm_compute in float_of_Z 5000.

(** ** Python values *)

Inductive exn := TypeError | ValueError | OverflowError | AttributeError.

Inductive pyres (A : Type) :=
  | Ok (a : A)
  | Raise (e : exn).
Arguments Ok {A} a.
Arguments Raise {A} e.

(** A Python number as stored in a player record or decoded from JSON. *)
Inductive pynum :=
  | PyInt (z : Z)
  | PyFloat (f : float).

(** What [json.loads] returns; an object is the list of its items. *)
#[local] Unset Elimination Schemes.
Inductive jvalue :=
  | JNull
  | JBool (b : bool)
  | JNum (n : pynum)
  | JStr (s : string)
  | JList (l : list jvalue)
  | JDict (d : list (string * jvalue)).
#[local] Set Elimination Schemes.

(** [d.get(k)] on a decoded JSON object. *)
Fixpoint dict_get (d : list (string * jvalue)) (k : string) : option jvalue :=
  match d with
  | [] => None
  | (k', v) :: d' => if String.eqb k' k then Some v else dict_get d' k
  end.

(** [float(n)] for a number: an [int] too large for a double raises
    [OverflowError]. *)
Definition float_of_num (n : pynum) : pyres float :=
  match n with
  | PyFloat f => Ok f
  | PyInt z =>
      match float_of_Z z with
      | S754_infinity _ => Raise OverflowError
      | f => Ok f
      end
  end.

(** What the process is started with: the interpreter's conversion of a
    string to a float (CPython's, not part of the repository), and the two
    environment settings read at import time. *)
Record Env := {
  str_to_float : string → option float;
  SNAPSHOT_RATE : float;
  MAX_MOVE_PER_INPUT : float;
}.

(** [float(v)] for a decoded JSON value. *)
Definition py_float (env : Env) (v : jvalue) : pyres float :=
  match v with
  | JNull => Raise TypeError
  | JBool b => Ok (if b then f1 else f0)
  | JNum n => float_of_num n
  | JStr s =>
      match str_to_float env s with
      | Some f => Ok f
      | None => Raise ValueError
      end
  | JList _ | JDict _ => Raise TypeError
  end.

(** [max(a, b)] and [min(a, b)] on two floats: the first argument is kept
    unless the second compares strictly greater (smaller). *)
Definition py_max (a b : float) : float := if flt a b then b else a.
Definition py_min (a b : float) : float := if flt b a then b else a.

(** ** Data model *)

(** A connection object ([WebSocketServerProtocol]), known by its identity. *)
Definition conn := positive.

(** The dictionary [PlayerState(...).__dict__.copy()]: it always has the
    four keys x, y, hp and mana, so the defaults of [p.get('x', 0.0)] and
    [p.get('y', 0.0)] are never used.  The spawn coordinates are stored as
    the [int] literals of the source; [apply_input] stores floats. *)
Module PlayerState.
Record t := mk { x : pynum; y : pynum; hp : Z; mana : Z }.
Definition set_x (v : pynum) (p : t) : t :=
  {| x := v; y := y p; hp := hp p; mana := mana p |}.
Definition set_y (v : pynum) (p : t) : t :=
  {| x := x p; y := v; hp := hp p; mana := mana p |}.
End PlayerState.

(** [PlayerConn], without its wall-clock [joined_at]. *)
Module PlayerConn.
Record t := mk { ws : conn; player_id : string; room_id : string }.
End PlayerConn.

(** The dictionary [Room.state], which always has the keys tick and
    players. *)
Module RoomState.
Record t := mk { tick : Z; players : gmap string PlayerState.t }.
End RoomState.

Module Room.
Record t := mk {
  room_id : string;
  players : gmap string PlayerConn.t;
  state : RoomState.t;
}.
Definition set_players (f : gmap string PlayerConn.t → gmap string PlayerConn.t)
    (r : t) : t :=
  {| room_id := room_id r; players := f (players r); state := state r |}.
Definition set_state_players
    (f : gmap string PlayerState.t → gmap string PlayerState.t) (r : t) : t :=
  {| room_id := room_id r; players := players r;
     state := {| RoomState.tick := RoomState.tick (state r);
                 RoomState.players := f (RoomState.players (state r)) |} |}.
Definition set_tick (n : Z) (r : t) : t :=
  {| room_id := room_id r; players := players r;
     state := {| RoomState.tick := n;
                 RoomState.players := RoomState.players (state r) |} |}.
End Room.

(** ** Input processor *)

(** The clamp of a requested delta to the per-input cap. *)
Definition clamp_delta (cap d : float) : float := py_max (fneg cap) (py_min cap d).

(** The clamp of a coordinate to the world. *)
Definition clamp_world (v : float) : float := py_max f0 (py_min f5000 v).

(** The [try ... except Exception] around the two coercions. *)
Definition read_delta (env : Env) (msg : list (string * jvalue)) : float * float :=
  match py_float env (default (JNum (PyFloat f0)) (dict_get msg "dx")) with
  | Raise _ => (f0, f0)
  | Ok dx =>
      match py_float env (default (JNum (PyFloat f0)) (dict_get msg "dy")) with
      | Raise _ => (f0, f0)
      | Ok dy => (dx, dy)
      end
  end.

(** [apply_input] mutates the player's record inside the room and returns
    nothing; the embedding returns the room after the call together with
    the exception that escaped, if any.  A record mutated before the
    exception stays mutated. *)
Definition apply_input (env : Env) (room : Room.t) (player_id : string)
    (msg : list (string * jvalue)) : Room.t * option exn :=
  match RoomState.players (Room.state room) !! player_id with
  | None => (room, None)
  | Some p =>
      let '(dx, dy) := read_delta env msg in
      let dx := clamp_delta (MAX_MOVE_PER_INPUT env) dx in
      let dy := clamp_delta (MAX_MOVE_PER_INPUT env) dy in
      match float_of_num (PlayerState.x p) with
      | Raise e => (room, Some e)
      | Ok px =>
          let p := PlayerState.set_x (PyFloat (clamp_world (fadd px dx))) p in
          let room := Room.set_state_players (insert player_id p) room in
          match float_of_num (PlayerState.y p) with
          | Raise e => (room, Some e)
          | Ok py =>
              let p := PlayerState.set_y (PyFloat (clamp_world (fadd py dy))) p in
              (Room.set_state_players (insert player_id p) room, None)
          end
      end
  end.

(** ** Process-wide state and outgoing messages *)

Record Server := {
  rooms : gmap string Room.t;
  queue : gset conn;
  player_index : gmap conn PlayerConn.t;
}.

Definition initial : Server :=
  {| rooms := ∅; queue := ∅; player_index := ∅ |}.

Definition set_rooms (f : gmap string Room.t → gmap string Room.t) (st : Server) : Server :=
  {| rooms := f (rooms st); queue := queue st; player_index := player_index st |}.
Definition set_queue (f : gset conn → gset conn) (st : Server) : Server :=
  {| rooms := rooms st; queue := f (queue st); player_index := player_index st |}.
Definition set_player_index
    (f : gmap conn PlayerConn.t → gmap conn PlayerConn.t) (st : Server) : Server :=
  {| rooms := rooms st; queue := queue st; player_index := f (player_index st) |}.

(** The JSON payloads of the protocol, without their [serverTime]. *)
Inductive payload :=
  | QueueJoined (queue_name : string)
  | Welcome (playerId roomId : string)
  | MatchFound (roomId : string) (ids : list string)
  | Pong (ts : jvalue)
  | Snapshot (roomId : string) (st : RoomState.t)
  | PlayerLeft (playerId roomId : string).

(** One attempted [ws.send]. *)
Record send := Send { send_to : conn; send_payload : payload }.

(** ** The monad of handler code

    State of the process, trace of sends, and [None] when the oracle names
    an element the set cannot pop. *)
Definition M (A : Type) : Type := Server → option (A * Server * list send).

#[global] Instance M_ret : MRet M := λ A a st, Some (a, st, []).
#[global] Instance M_bind : MBind M := λ A B f m st,
  match m st with
  | None => None
  | Some (a, st1, out1) =>
      match f a st1 with
      | None => None
      | Some (b, st2, out2) => Some (b, st2, out1 ++ out2)
      end
  end.

Definition get_state : M Server := λ st, Some (st, st, []).
Definition modify_state (f : Server → Server) : M unit := λ st, Some (tt, f st, []).
Definition emit (out : list send) : M unit := λ st, Some (tt, st, out).
Definition infeasible {A} : M A := λ _, None.

Definition PUBLIC_QUEUE : string := "public".

(** [safe_send]: the send is attempted, an exception is swallowed. *)
Definition safe_send (ws : conn) (p : payload) : M unit := emit [Send ws p].

(** The sends [broadcast] gathers for a room: none for an empty room, else
    one per member. *)
Definition broadcast_sends (room : Room.t) (p : payload) : list send :=
  (λ kv, Send (PlayerConn.ws kv.2) p) <$> map_to_list (Room.players room).

Definition broadcast (room : Room.t) (p : payload) : M unit :=
  emit (broadcast_sends room p).

(** [queue.pop()]: the element removed is the one the oracle names. *)
Definition queue_pop (choice : conn) : M conn := λ st,
  if decide (choice ∈ queue st)
  then Some (choice, set_queue (λ q, q ∖ {[choice]}) st, [])
  else infeasible st.

(** ** Matchmaking *)

Definition spawn (px : Z) : PlayerState.t :=
  {| PlayerState.x := PyInt px; PlayerState.y := PyInt 300;
     PlayerState.hp := 100; PlayerState.mana := 100 |}.

(** [create_room_with_pair]; [room_id] is what [make_room_id()] returned.
    The room object is registered first and filled afterwards in the
    source; the registry holds the same object, so it is inserted here in
    its final shape. *)
Definition create_room_with_pair (room_id : string) (a b : conn) : M Room.t :=
  let p1 := PlayerConn.mk a "p1" room_id in
  let p2 := PlayerConn.mk b "p2" room_id in
  let room :=
    {| Room.room_id := room_id;
       Room.players := <["p2" := p2]> (<["p1" := p1]> ∅);
       Room.state :=
         {| RoomState.tick := 0;
            RoomState.players := <["p2" := spawn 620]> (<["p1" := spawn 180]> ∅) |} |} in
  modify_state (set_rooms (insert room_id room));;
  modify_state (set_player_index (insert a p1));;
  modify_state (set_player_index (insert b p2));;
  mret room.

(** The three oracle values a matchmaking attempt may consume: the fresh
    room id and the two elements popped from the set. *)
Record match_oracle := { new_room_id : string; pop1 : conn; pop2 : conn }.

Definition try_matchmaking (o : match_oracle) : M unit :=
  st ← get_state;
  if (size (queue st) <? 2)%nat then mret tt
  else
    a ← queue_pop (pop1 o);
    b ← queue_pop (pop2 o);
    room ← create_room_with_pair (new_room_id o) a b;
    safe_send a (Welcome "p1" (Room.room_id room));;
    safe_send b (Welcome "p2" (Room.room_id room));;
    broadcast room (MatchFound (Room.room_id room) ["p1"; "p2"]).

(** ** Departure *)

Definition remove_client (ws : conn) : M unit :=
  modify_state (set_queue (λ q, q ∖ {[ws]}));;
  st ← get_state;
  modify_state (set_player_index (delete ws));;
  match player_index st !! ws with
  | None => mret tt
  | Some c =>
      match rooms st !! PlayerConn.room_id c with
      | None => mret tt
      | Some room =>
          let room :=
            Room.set_state_players (delete (PlayerConn.player_id c))
              (Room.set_players (delete (PlayerConn.player_id c)) room) in
          modify_state (set_rooms (insert (PlayerConn.room_id c) room));;
          broadcast room (PlayerLeft (PlayerConn.player_id c) (Room.room_id room));;
          if decide (Room.players room = ∅)
          then modify_state (set_rooms (delete (Room.room_id room)))
          else mret tt
      end
  end.

(** ** Session handler *)

(** [ws_handler] up to its receive loop. *)
Definition ws_handler_open (ws : conn) (o : match_oracle) : M unit :=
  safe_send ws (QueueJoined PUBLIC_QUEUE);;
  modify_state (set_queue (λ q, {[ws]} ∪ q));;
  try_matchmaking o.

(** [t == name] for the value of [msg.get('type')]. *)
Definition is_type (t : option jvalue) (name : string) : bool :=
  match t with
  | Some (JStr s) => String.eqb s name
  | _ => false
  end.

(** One turn of the receive loop on a frame; [None] is a frame that
    [json.loads] rejects.  The result tells whether an exception left the
    loop. *)
Definition ws_handler_recv (env : Env) (ws : conn) (raw : option jvalue)
    : M (option exn) :=
  match raw with
  | None => mret None
  | Some (JDict msg) =>
      let t := dict_get msg "type" in
      if is_type t "ping" then
        safe_send ws (Pong (default JNull (dict_get msg "ts")));;
        mret None
      else
        st ← get_state;
        match player_index st !! ws with
        | None => mret None
        | Some c =>
            match rooms st !! PlayerConn.room_id c with
            | None => mret None
            | Some room =>
                if is_type t "input" then
                  let '(room, e) := apply_input env room (PlayerConn.player_id c) msg in
                  modify_state (set_rooms (insert (PlayerConn.room_id c) room));;
                  mret e
                else mret None
            end
        end
  | Some _ => mret (Some AttributeError)
  end.

(** The [finally] clause. *)
Definition ws_handler_close (ws : conn) : M unit := remove_client ws.

(** ** Snapshot broadcaster *)

(** The sleep between two iterations, in seconds. *)
Definition tick_dt (env : Env) : float := fdiv f1 (py_max f1 (SNAPSHOT_RATE env)).

(** The loop body for one room. *)
Definition snapshot_room (room : Room.t) : Room.t * list send :=
  let room := Room.set_tick (RoomState.tick (Room.state room) + 1) room in
  (room, broadcast_sends room (Snapshot (Room.room_id room) (Room.state room))).

(** One iteration of [snapshot_loop] over [list(rooms.values())].  The
    order in which the rooms are visited, and the members of a room are
    sent to, is that of the keys here and of insertion in the source. *)
Definition snapshot_loop_iteration : M unit :=
  st ← get_state;
  modify_state (set_rooms (fmap (λ r, (snapshot_room r).1)));;
  emit (concat ((λ kv, (snapshot_room kv.2).2) <$> map_to_list (rooms st))).

(** ** Runs of the server *)

Inductive event :=
  | EvConnect (ws : conn) (o : match_oracle)
  | EvFrame (ws : conn) (raw : option jvalue)
  | EvClose (ws : conn)
  | EvTick.

(** What a handler does on one event, run in one piece: the code from the
    event to the point where the handler waits for the next one.  The
    [await]s inside that code, where the event loop may run another
    handler first, are the subject of the section on suspension points
    below. *)
Definition step (env : Env) (ev : event) : M unit :=
  match ev with
  | EvConnect ws o => ws_handler_open ws o
  | EvFrame ws raw =>
      e ← ws_handler_recv env ws raw;
      match e with
      | None => mret tt
      | Some _ => ws_handler_close ws
      end
  | EvClose ws => ws_handler_close ws
  | EvTick => snapshot_loop_iteration
  end.

Fixpoint run (env : Env) (evs : list event) : M unit :=
  match evs with
  | [] => mret tt
  | ev :: evs => step env ev;; run env evs
  end.

Definition reachable (env : Env) (st : Server) : Prop :=
  ∃ evs out, run env evs initial = Some (tt, st, out).

(** ** Vocabulary of the statements *)

(** A float lies in the world, by the interpreter's own comparisons. *)
Definition in_world (v : float) : Prop := fle f0 v = true ∧ fle v f5000 = true.

(** A stored coordinate lies in the world. *)
Definition coord_in_world (n : pynum) : Prop :=
  match n with
  | PyInt z => 0 ≤ z ≤ 5000
  | PyFloat f => in_world f
  end.

(** The same, decided, and with the float being one Python can hold. *)
Definition coord_ok (n : pynum) : bool :=
  match n with
  | PyInt z => (0 <=? z) && (z <=? 5000)
  | PyFloat f => is_binary64 f && fle f0 f && fle f f5000
  end.

(** The exact value of a stored coordinate, in units of 2^-1074. *)
Definition num_units (n : pynum) : Z :=
  match n with
  | PyInt z => z * unit_scale
  | PyFloat f => units f
  end.

(** A cap that is a non-negative finite number. *)
Definition cap_ok (c : float) : bool := is_binary64 c && is_finite c && fle f0 c.

(** The [dx] and [dy] fields as [apply_input] reads them. *)
Definition field (msg : list (string * jvalue)) (k : string) : jvalue :=
  default (JNum (PyFloat f0)) (dict_get msg k).

(** A decoded number is a double Python can hold. *)
Definition num_ok (v : jvalue) : bool :=
  match v with
  | JNum (PyFloat f) => is_binary64 f
  | _ => true
  end.

(** The interpreter's string conversion returns doubles Python can hold. *)
Definition parser_ok (env : Env) : Prop :=
  ∀ s f, str_to_float env s = Some f → is_binary64 f = true.

(** The record [apply_input] leaves for a player whose coordinates read
    as [px] and [py]. *)
Definition moved (env : Env) (msg : list (string * jvalue)) (p : PlayerState.t)
    (px py : float) : PlayerState.t :=
  {| PlayerState.x :=
       PyFloat (clamp_world (fadd px (clamp_delta (MAX_MOVE_PER_INPUT env) (read_delta env msg).1)));
     PlayerState.y :=
       PyFloat (clamp_world (fadd py (clamp_delta (MAX_MOVE_PER_INPUT env) (read_delta env msg).2)));
     PlayerState.hp := PlayerState.hp p;
     PlayerState.mana := PlayerState.mana p |}.

(** What holds of every room the server ever builds. *)
Record room_inv (room : Room.t) : Prop := {
  inv_dom : dom (Room.players room) = dom (RoomState.players (Room.state room));
  inv_players : ∀ pid p, RoomState.players (Room.state room) !! pid = Some p →
    coord_in_world (PlayerState.x p) ∧ coord_in_world (PlayerState.y p) ∧
    PlayerState.hp p = 100 ∧ PlayerState.mana p = 100;
}.

Definition server_inv (st : Server) : Prop :=
  ∀ rid room, rooms st !! rid = Some room → room_inv room.

(** ** Concrete configurations used in examples *)

(** The defaults of the two environment settings; no string parses. *)
Definition default_env : Env :=
  {| str_to_float := λ _, None; SNAPSHOT_RATE := f20; MAX_MOVE_PER_INPUT := f8 |}.

(** The room [create_room_with_pair] builds for connections [a] and [b]. *)
Definition paired_room (room_id : string) (a b : conn) : Room.t :=
  {| Room.room_id := room_id;
     Room.players := <["p2" := PlayerConn.mk b "p2" room_id]>
                       (<["p1" := PlayerConn.mk a "p1" room_id]> ∅);
     Room.state :=
       {| RoomState.tick := 0;
          RoomState.players := <["p2" := spawn 620]> (<["p1" := spawn 180]> ∅) |} |}.

(** A room whose player "p1" stands at the given coordinates. *)
Definition room_with_p1 (px py : pynum) : Room.t :=
  Room.set_state_players
    (insert "p1" {| PlayerState.x := px; PlayerState.y := py;
                    PlayerState.hp := 100; PlayerState.mana := 100 |})
    (paired_room "room-000000" 1%positive 2%positive).

(** The coordinates of a player of a room, if present. *)
Definition position (room : Room.t) (pid : string) : option (pynum * pynum) :=
  (λ p, (PlayerState.x p, PlayerState.y p)) <$>
    RoomState.players (Room.state room) !! pid.

(** The player records that sequences of [apply_input] calls produce from
    a spawn record, in whatever rooms the record is placed. *)
Inductive player_reachable (env : Env) : PlayerState.t → Prop :=
  | reach_spawn (px : Z) :
      px = 180 ∨ px = 620 → player_reachable env (spawn px)
  | reach_input (p p' : PlayerState.t) (room : Room.t) (pid : string)
      (msg : list (string * jvalue)) :
      player_reachable env p →
      RoomState.players (Room.state room) !! pid = Some p →
      RoomState.players (Room.state (apply_input env room pid msg).1) !! pid = Some p' →
      player_reachable env p'.




(** No connection of the run is handed [rid] as its fresh room id. *)
Definition never_minted (rid : string) (evs : list event) : Prop :=
  Forall (λ ev, match ev with
                | EvConnect _ o => new_room_id o ≠ rid
                | _ => True
                end) evs.

(** The state a successful pairing leaves: both connections leave the
    queue, the room is registered and both are indexed. *)
Definition matched (o : match_oracle) (st : Server) : Server :=
  {| rooms := <[new_room_id o := paired_room (new_room_id o) (pop1 o) (pop2 o)]> (rooms st);
     queue := queue st ∖ {[pop1 o]} ∖ {[pop2 o]};
     player_index :=
       <[pop2 o := PlayerConn.mk (pop2 o) "p2" (new_room_id o)]>
         (<[pop1 o := PlayerConn.mk (pop1 o) "p1" (new_room_id o)]> (player_index st)) |}.

(** The sends of a successful pairing, in order. *)
Definition matched_sends (o : match_oracle) : list send :=
  [Send (pop1 o) (Welcome "p1" (new_room_id o));
   Send (pop2 o) (Welcome "p2" (new_room_id o));
   Send (pop1 o) (MatchFound (new_room_id o) ["p1"; "p2"]);
   Send (pop2 o) (MatchFound (new_room_id o) ["p1"; "p2"])].

(** A queue of four waiting connections, as a batch arrival would leave. *)
Definition queue_of_four : Server :=
  set_queue (λ _, {[1%positive; 2%positive; 3%positive; 4%positive]}) initial.

(** The two mappings of a room have the same keys. *)
Definition keys_match (room : Room.t) : Prop :=
  dom (Room.players room) = dom (RoomState.players (Room.state room)).

(** The double nearest to 0.05: the period at the default rate. *)
Definition f0_05 : float := S754_finite false 7205759403792794 (-57).

(** One half and two, as doubles. *)
Definition f0_5 : float := S754_finite false 4503599627370496 (-53).
Definition f2 : float := Eval vm_compute in float_of_Z 2.

(** A send that is a snapshot carries player records, and for every player
    in it the hp and mana the player was created with. *)
Definition snapshot_ok (s : send) : Prop :=
  match send_payload s with
  | Snapshot _ rs =>
      (∃ pid p, RoomState.players rs !! pid = Some p) ∧
      ∀ pid p, RoomState.players rs !! pid = Some p →
               PlayerState.hp p = 100 ∧ PlayerState.mana p = 100
  | _ => True
  end.

(** The registries move in lockstep: a room is registered under its own
    id, each of its members is indexed under its connection with that room
    id and its player id, and no queued connection is indexed. *)
Definition registry_consistent (st : Server) : Prop :=
  (∀ rid room, rooms st !! rid = Some room →
     Room.room_id room = rid ∧
     ∀ pid pc, Room.players room !! pid = Some pc →
       player_index st !! PlayerConn.ws pc = Some pc ∧
       PlayerConn.room_id pc = rid ∧ PlayerConn.player_id pc = pid) ∧
  (∀ ws, ws ∈ queue st → player_index st !! ws = None).

(** A connection object arrives once: when it connects it is neither
    queued nor indexed. *)
Definition arrival_fresh (st : Server) (ev : event) : Prop :=
  match ev with
  | EvConnect ws _ => (ws ∉ queue st) ∧ player_index st !! ws = None
  | _ => True
  end.

Fixpoint arrivals_fresh (env : Env) (evs : list event) (st : Server) : Prop :=
  match evs with
  | [] => True
  | ev :: evs =>
      arrival_fresh st ev ∧
      match step env ev st with
      | Some (_, st', _) => arrivals_fresh env evs st'
      | None => True
      end
  end.

(** A run that brings player "p1" to x = 4090 + 3 * 2^-41: two arrivals,
    488 inputs of dx = 8 from the spawn at 180, and one input of
    dx = 6.000000000001364 (the double 6 + 3 * 2^-41). *)
Definition input_dx (n : pynum) : event :=
  EvFrame 1%positive (Some (JDict [("type", JStr "input"); ("dx", JNum n)])).

Definition rounding_run : list event :=
  [EvConnect 1%positive
     {| new_room_id := "room-000000"; pop1 := 1%positive; pop2 := 2%positive |};
   EvConnect 2%positive
     {| new_room_id := "room-000000"; pop1 := 1%positive; pop2 := 2%positive |}]
  ++ replicate 488 (input_dx (PyInt 8))
  ++ [input_dx (PyFloat (S754_finite false 6755399441057280 (-50)))].

(** A run that walks player "p1" into the left wall: two arrivals and 23
    inputs that ask for dx = -1000 and dy = 1000, each cut to the default
    cap of 8; the last one would leave x at -4. *)
Definition input_to_wall : event :=
  EvFrame 1%positive
    (Some (JDict [("type", JStr "input"); ("dx", JNum (PyInt (-1000)));
                  ("dy", JNum (PyInt 1000))])).

Definition wall_run : list event :=
  [EvConnect 1%positive
     {| new_room_id := "room-000000"; pop1 := 1%positive; pop2 := 2%positive |};
   EvConnect 2%positive
     {| new_room_id := "room-000000"; pop1 := 1%positive; pop2 := 2%positive |}]
  ++ replicate 23 input_to_wall.

(** What the server sends along that run: the inputs are not answered. *)
Definition wall_run_sends : list send :=
  [Send 1%positive (QueueJoined PUBLIC_QUEUE);
   Send 2%positive (QueueJoined PUBLIC_QUEUE);
   Send 1%positive (Welcome "p1" "room-000000");
   Send 2%positive (Welcome "p2" "room-000000");
   Send 1%positive (MatchFound "room-000000" ["p1"; "p2"]);
   Send 2%positive (MatchFound "room-000000" ["p1"; "p2"])].

(** The server while connections 1 and 2 play in the given room. *)
Definition playing (room : Room.t) : Server :=
  {| rooms := {["room-000000" := room]};
     queue := ∅;
     player_index :=
       <[2%positive := PlayerConn.mk 2%positive "p2" "room-000000"]>
         (<[1%positive := PlayerConn.mk 1%positive "p1" "room-000000"]> ∅) |}.

(** The state that run ends in: "p1" stands at x = 0.0, y = 484.0. *)
Definition f484 : float := Eval vm_compute in float_of_Z 484.

Definition wall_state : Server := playing (room_with_p1 (PyFloat f0) (PyFloat f484)).

(** A run with an input and then a snapshot: two arrivals, an input of
    dx = 5 by "p1", one iteration of the broadcaster.  "p1" is then at
    x = 185.0, y = 300.0 and the tick is 1. *)
Definition f185 : float := Eval vm_compute in float_of_Z 185.
Definition f300 : float := Eval vm_compute in float_of_Z 300.

Definition played_run : list event :=
  [EvConnect 1%positive
     {| new_room_id := "room-000000"; pop1 := 1%positive; pop2 := 2%positive |};
   EvConnect 2%positive
     {| new_room_id := "room-000000"; pop1 := 1%positive; pop2 := 2%positive |};
   input_dx (PyInt 5)].

Definition played_room : Room.t := room_with_p1 (PyFloat f185) (PyFloat f300).

(** ** Vocabulary of the further properties *)

(** The clamp of an integer to an interval. *)
Definition clamp_Z (lo hi v : Z) : Z := Z.max lo (Z.min hi v).

(** A stored coordinate of the world whose value is the integer [z]. *)
Definition holds_integer (n : pynum) (z : Z) : Prop :=
  coord_ok n = true ∧ num_units n = z * unit_scale.

(** [float(v)] succeeds for the field [v] and gives the integer [z]. *)
Definition reads_integer (env : Env) (v : jvalue) (z : Z) : Prop :=
  ∃ d, py_float env v = Ok d ∧ is_binary64 d = true ∧ is_finite d = true ∧
       units d = z * unit_scale.

(** The room a member leaves behind: its id is gone from both mappings. *)
Definition leave (pid : string) (room : Room.t) : Room.t :=
  Room.set_state_players (delete pid) (Room.set_players (delete pid) room).

(** A room as the registry holds it: under its own id, with one or two
    members, whose ids are among "p1" and "p2". *)
Definition room_shape (rid : string) (room : Room.t) : Prop :=
  Room.room_id room = rid ∧
  (1 ≤ size (Room.players room) ≤ 2)%nat ∧
  dom (Room.players room) ⊆ {["p1"; "p2"]}.

(** Every entry of the index is filed under its own connection and names a
    slot of a registered room that holds that very entry. *)
Definition index_sound (st : Server) : Prop :=
  ∀ ws pc, player_index st !! ws = Some pc →
    PlayerConn.ws pc = ws ∧
    ∃ room, rooms st !! PlayerConn.room_id pc = Some room ∧
            Room.players room !! PlayerConn.player_id pc = Some pc.



(** A connection the server holds nowhere that it sends from: it is not
    queued and is no member of a registered room. *)
Definition absent (ws : conn) (st : Server) : Prop :=
  (ws ∉ queue st) ∧
  ∀ rid room pid pc, rooms st !! rid = Some room →
    Room.players room !! pid = Some pc → PlayerConn.ws pc ≠ ws.

(** A JSON value that is an object. *)
Definition is_object (v : jvalue) : bool :=
  match v with
  | JDict _ => true
  | _ => false
  end.

Definition rooms_shaped (st : Server) : Prop :=
  ∀ rid room, rooms st !! rid = Some room → room_shape rid room.

(** No send of a trace is addressed to [ws]. *)
Definition not_sent_to (ws : conn) (out : list send) : Prop :=
  Forall (λ s, send_to s ≠ ws) out.

(** ** The suspension points of [try_matchmaking]

    [try_matchmaking] awaits three times, at its two [safe_send]s and at
    its [broadcast], and holds the two popped connections and the room in
    local variables meanwhile.  At each of these points the event loop may
    run other handlers before the function goes on.  Its three pieces: *)

(** The local variables [a] and [b], and the id of the local [room]. *)
Record handshake := { hs_a : conn; hs_b : conn; hs_room_id : string }.

(** From the call to the first await: the guard, the two pops, the room
    and the welcome to the first popped; [None] when the guard returns. *)
Definition try_matchmaking_begin (o : match_oracle) : M (option handshake) :=
  st ← get_state;
  if (size (queue st) <? 2)%nat then mret None
  else
    a ← queue_pop (pop1 o);
    b ← queue_pop (pop2 o);
    room ← create_room_with_pair (new_room_id o) a b;
    safe_send a (Welcome "p1" (Room.room_id room));;
    mret (Some {| hs_a := a; hs_b := b; hs_room_id := Room.room_id room |}).

(** From the first await to the second: the welcome to the local [b],
    whatever the registries say of it by now. *)
Definition try_matchmaking_second (h : handshake) : M unit :=
  safe_send (hs_b h) (Welcome "p2" (hs_room_id h)).

(** From the second await to the end: the broadcast to the members the
    room object has by now. *)
Definition try_matchmaking_third (room : Room.t) : M unit :=
  broadcast room (MatchFound (Room.room_id room) ["p1"; "p2"]).

(** What may run while [try_matchmaking] is suspended, taken among the
    handlers of connections that are already open and the broadcaster,
    each run in one piece: a frame received, a connection closed, an
    iteration of the snapshot loop.  None of them creates a room, so the
    room object that [try_matchmaking] holds stays the one registered
    under its id until it is unregistered, and it is unregistered only
    once it has no member. *)
Inductive meanwhile :=
  | MwFrame (ws : conn) (raw : option jvalue)
  | MwClose (ws : conn)
  | MwTick.

Definition event_of (m : meanwhile) : event :=
  match m with
  | MwFrame ws raw => EvFrame ws raw
  | MwClose ws => EvClose ws
  | MwTick => EvTick
  end.

(** [ws_handler] of an arriving connection [ws] up to the second await of
    its [try_matchmaking], with the handlers [evs1] of other connections
    run at the first await. *)
Definition ws_handler_open_to_second (env : Env) (ws : conn) (o : match_oracle)
    (evs1 : list meanwhile) : M (option handshake) :=
  safe_send ws (QueueJoined PUBLIC_QUEUE);;
  modify_state (set_queue (λ q, {[ws]} ∪ q));;
  h ← try_matchmaking_begin o;
  match h with
  | None => mret None
  | Some h => run env (event_of <$> evs1);; mret (Some h)
  end.

(** [ws_handler] of an arriving connection up to its receive loop, with
    the handlers [evs1] run at the first await of [try_matchmaking] and
    [evs2] at the second. *)
Definition ws_handler_open_interleaved (env : Env) (ws : conn) (o : match_oracle)
    (evs1 evs2 : list meanwhile) : M unit :=
  h ← ws_handler_open_to_second env ws o evs1;
  match h with
  | None => mret tt
  | Some h =>
      try_matchmaking_second h;;
      run env (event_of <$> evs2);;
      st ← get_state;
      match rooms st !! hs_room_id h with
      | Some room => try_matchmaking_third room
      | None => mret tt
      end
  end.

(** The frames of a list of (sender, JSON object) pairs, and a whole
    session of two connections: both arrive, frames are received from
    them, both leave. *)
Definition frames_of (fs : list (conn * list (string * jvalue))) : list event :=
  (λ f, EvFrame f.1 (Some (JDict f.2))) <$> fs.

Definition session (a b : conn) (oa ob : match_oracle)
    (fs : list (conn * list (string * jvalue))) (x y : conn) : list event :=
  [EvConnect a oa; EvConnect b ob] ++ frames_of fs ++ [EvClose x; EvClose y].

(** The state of the server while the two connections of a session play:
    the queue and the other rooms are those of [st], the index is [idx],
    and the session's room is registered under [rid] with members [P]. *)
Definition in_session (st : Server) (rid : string) (P : gmap string PlayerConn.t)
    (idx : gmap conn PlayerConn.t) (s : Server) : Prop :=
  queue s = queue st ∧ player_index s = idx ∧
  ∃ R, rooms s = <[rid := R]> (rooms st) ∧ Room.room_id R = rid ∧
       Room.players R = P ∧ room_inv R.

(** ** Vocabulary of the rounding proofs *)

(** The remainder a right shift by [k] drops, as the round and sticky
    bits record it. *)
Definition shr_inv (M : Z) (k : nat) (R : shr_record) : Prop :=
  let rem := M mod 2 ^ Z.of_nat k in
  shr_m R = M / 2 ^ Z.of_nat k ∧
  match shr_r R, shr_s R with
  | false, false => rem = 0
  | false, true => 0 < 2 * rem < 2 ^ Z.of_nat k
  | true, false => 2 * rem = 2 ^ Z.of_nat k
  | true, true => 2 ^ Z.of_nat k < 2 * rem
  end.

(* ===================================================================== *)
(** * Part II: binary64 arithmetic and the handlers, lemma by lemma      *)
(* ===================================================================== *)

(** ** Comparisons of floats *)

Lemma SFcompare_refl (a : float) : a ≠ S754_nan → SFcompare a a = Some Eq.
Proof.
  destruct a as [s|s| |s m e]; try done; simpl; intros _.
  - by destruct s.
  - destruct s; rewrite Z.compare_refl; change (Pos.compare_cont Eq m m) with (m ?= m)%positive;
      by rewrite Pos.compare_refl.
Qed.

Lemma flt_fle (a b : float) : flt a b = true → fle a b = true.
Proof. unfold flt, fle, SFltb, SFleb. by destruct (SFcompare a b) as [[]|]. Qed.

Lemma fle_not_nan_l (a b : float) : fle a b = true → a ≠ S754_nan.
Proof. intros H ->. done. Qed.

Lemma fle_not_nan_r (a b : float) : fle a b = true → b ≠ S754_nan.
Proof. intros H ->. by destruct a. Qed.

Lemma fle_refl (a : float) : a ≠ S754_nan → fle a a = true.
Proof. intros H. unfold fle, SFleb. by rewrite SFcompare_refl. Qed.

Lemma feq_refl (a : float) : a ≠ S754_nan → feq a a = true.
Proof. intros H. unfold feq, SFeqb. by rewrite SFcompare_refl. Qed.

(** A float that compares equal to a finite nonzero float is that float. *)
Lemma SFcompare_Eq_finite (a : float) s m e :
  SFcompare a (S754_finite s m e) = Some Eq → a = S754_finite s m e.
Proof.
  destruct a as [s'|s'| |s' m' e']; simpl; try done.
  - by destruct s.
  - by destruct s'.
  - change (Pos.compare_cont Eq m' m) with (m' ?= m)%positive.
    destruct s', s; try done; destruct (Z.compare_spec e' e); try done; subst;
      destruct (Pos.compare_spec m' m); try done; by subst.
Qed.

Lemma SFcompare_Eq_finite_l (b : float) s m e :
  SFcompare (S754_finite s m e) b = Some Eq → b = S754_finite s m e.
Proof.
  destruct b as [s'|s'| |s' m' e']; simpl; try done.
  - by destruct s.
  - by destruct s'.
  - change (Pos.compare_cont Eq m m') with (m ?= m')%positive.
    destruct s, s'; try done; destruct (Z.compare_spec e e'); try done; subst;
      destruct (Pos.compare_spec m m'); try done; by subst.
Qed.

(** A float that compares equal to zero is a zero. *)
Lemma SFcompare_Eq_zero (a : float) s :
  SFcompare (S754_zero s) a = Some Eq → ∃ s', a = S754_zero s'.
Proof.
  destruct a as [s'|s'| |s' m' e']; simpl; try done; eauto.
  - by destruct s'.
  - by destruct s'.
Qed.

(** ** The two clamps, by comparisons alone *)

Lemma clamp_world_cases (v : float) :
  (clamp_world v = v ∧ flt f0 v = true ∧ flt v f5000 = true) ∨
  (clamp_world v = f5000 ∧ flt v f5000 = false) ∨
  (clamp_world v = f0 ∧ flt v f5000 = true ∧ flt f0 v = false).
Proof.
  unfold clamp_world, py_min, py_max.
  destruct (flt v f5000) eqn:H1.
  - destruct (flt f0 v) eqn:H2; auto.
  - right; left. done.
Qed.

Lemma clamp_world_range (v : float) :
  fle f0 (clamp_world v) = true ∧ fle (clamp_world v) f5000 = true.
Proof.
  destruct (clamp_world_cases v) as [(-> & H0 & H1)|[(-> & _)|(-> & _)]].
  - split; by apply flt_fle.
  - done.
  - done.
Qed.

Lemma clamp_world_in_world (v : float) : in_world v → feq (clamp_world v) v = true.
Proof.
  intros [H0 H1].
  destruct (clamp_world_cases v) as [(-> & _)|[(-> & H)|(-> & _ & H)]].
  - apply feq_refl. by eapply fle_not_nan_l.
  - unfold fle, SFleb, flt, SFltb in *.
    destruct (SFcompare v f5000) as [[]|] eqn:E; try done.
    apply SFcompare_Eq_finite in E. subst. done.
  - unfold fle, SFleb, flt, SFltb in *.
    destruct (SFcompare f0 v) as [[]|] eqn:E; try done.
    apply SFcompare_Eq_zero in E as [s' ->]. by destruct s'.
Qed.

Lemma clamp_world_fixed (v : float) :
  in_world v → v ≠ S754_zero true → clamp_world v = v.
Proof.
  intros [H0 H1] Hz.
  destruct (clamp_world_cases v) as [(-> & _)|[(-> & H)|(-> & _ & H)]]; try done.
  - unfold fle, SFleb, flt, SFltb in *.
    destruct (SFcompare v f5000) as [[]|] eqn:E; try done.
    apply SFcompare_Eq_finite in E. by subst.
  - unfold fle, SFleb, flt, SFltb in *.
    destruct (SFcompare f0 v) as [[]|] eqn:E; try done.
    apply SFcompare_Eq_zero in E as [s' ->]. by destruct s'.
Qed.

Lemma clamp_world_idem (v : float) : clamp_world (clamp_world v) = clamp_world v.
Proof.
  apply clamp_world_fixed; [apply clamp_world_range|].
  destruct (clamp_world_cases v) as [(-> & H & _)|[(-> & _)|(-> & _)]]; try done.
  intros ->. done.
Qed.

(** The per-input clamp: whatever is requested, the delta lies within the
    cap. *)
Lemma clamp_delta_cases (cap d : float) :
  (clamp_delta cap d = d ∧ flt (fneg cap) d = true ∧ flt d cap = true) ∨
  (clamp_delta cap d = cap ∧ flt d cap = false ∧ flt (fneg cap) cap = true) ∨
  (clamp_delta cap d = fneg cap ∧ flt (fneg cap) (py_min cap d) = false).
Proof.
  unfold clamp_delta, py_min, py_max.
  destruct (flt d cap) eqn:H1.
  - destruct (flt (fneg cap) d) eqn:H2; auto.
  - destruct (flt (fneg cap) cap) eqn:H2; auto.
Qed.

Lemma fneg_fle_self (cap : float) : fle f0 cap = true → fle (fneg cap) cap = true.
Proof. destruct cap as [[]|[]| |[] m e]; done. Qed.

Lemma fneg_not_nan (a : float) : a ≠ S754_nan → fneg a ≠ S754_nan.
Proof. by destruct a. Qed.

Lemma clamp_delta_range (cap d : float) :
  fle f0 cap = true →
  fle (fneg cap) (clamp_delta cap d) = true ∧ fle (clamp_delta cap d) cap = true.
Proof.
  intros Hcap.
  assert (cap ≠ S754_nan) as Hn by by eapply fle_not_nan_r.
  destruct (clamp_delta_cases cap d) as [(-> & H0 & H1)|[(-> & _ & H)|(-> & _)]].
  - split; by apply flt_fle.
  - split; [by apply flt_fle | by apply fle_refl].
  - split; [apply fle_refl; by apply fneg_not_nan | by apply fneg_fle_self].
Qed.

(** ** Canonical mantissas *)

Lemma digits2_log2 (m : positive) : Zpos (digits2_pos m) = Z.log2 (Zpos m) + 1.
Proof.
  induction m as [m IH|m IH|]; simpl digits2_pos; try done.
  - rewrite Pos2Z.inj_succ, IH.
    change (Zpos m~1) with (2 * Zpos m + 1). rewrite Z.log2_succ_double by lia. lia.
  - rewrite Pos2Z.inj_succ, IH.
    change (Zpos m~0) with (2 * Zpos m). rewrite Z.log2_double by lia. lia.
Qed.

Lemma digits2_bounds (m : positive) :
  2 ^ (Zpos (digits2_pos m) - 1) ≤ Zpos m < 2 ^ Zpos (digits2_pos m).
Proof.
  rewrite digits2_log2.
  pose proof (Z.log2_spec (Zpos m) ltac:(lia)) as H.
  replace (Z.log2 (Z.pos m) + 1 - 1) with (Z.log2 (Zpos m)) by lia.
  replace (Z.log2 (Z.pos m) + 1) with (Z.succ (Z.log2 (Zpos m))) by lia. done.
Qed.

Lemma emin_eq : emin prec emax = -1074.
Proof. done. Qed.

Lemma fexp_eq (k : Z) : fexp prec emax k = Z.max (k - 53) (-1074).
Proof. done. Qed.

Lemma bounded_inv (m : positive) (e : Z) :
  bounded prec emax m e = true →
  -1074 ≤ e ≤ 971 ∧ Zpos m < 2 ^ 53 ∧ (-1074 < e → 2 ^ 52 ≤ Zpos m).
Proof.
  unfold bounded, canonical_mantissa. rewrite fexp_eq.
  intros [H1 H2]%andb_prop. apply Z.eqb_eq in H1. apply Z.leb_le in H2.
  change (emax - prec) with 971 in H2.
  pose proof (digits2_bounds m) as [Hlo Hhi].
  assert (Zpos (digits2_pos m) ≤ 53) as Hd by lia.
  split; [lia|]. split.
  - eapply Z.lt_le_trans; [exact Hhi|]. apply Z.pow_le_mono_r; lia.
  - intros He. assert (Zpos (digits2_pos m) = 53) as Hd' by lia.
    rewrite Hd' in Hlo. exact Hlo.
Qed.

Lemma pow2_pos (k : Z) : 0 ≤ k → 0 < 2 ^ k.
Proof. intros. apply Z.pow_pos_nonneg; lia. Qed.

(** On canonical finite floats the comparison is that of the values. *)
Lemma mag_lt (m1 m2 : positive) (e1 e2 : Z) :
  bounded prec emax m1 e1 = true → bounded prec emax m2 e2 = true →
  e1 < e2 → Zpos m1 * 2 ^ (e1 + 1074) < Zpos m2 * 2 ^ (e2 + 1074).
Proof.
  intros (He1 & Hm1 & _)%bounded_inv (He2 & _ & Hm2)%bounded_inv Hlt.
  specialize (Hm2 ltac:(lia)).
  replace (e2 + 1074) with ((e2 - e1 - 1) + 1 + (e1 + 1074)) by lia.
  rewrite (Z.pow_add_r 2 (e2 - e1 - 1 + 1) (e1 + 1074)), (Z.pow_add_r 2 (e2 - e1 - 1) 1) by lia.
  pose proof (pow2_pos (e1 + 1074) ltac:(lia)).
  pose proof (pow2_pos (e2 - e1 - 1) ltac:(lia)).
  change (2 ^ 1) with 2.
  assert (Zpos m1 < 2 * 2 ^ 52) as Hm1' by exact Hm1.
  revert H H0 Hm1' Hm2.
  generalize (2 ^ (e1 + 1074)) (2 ^ (e2 - e1 - 1)) (2 ^ 52). intros A B C HA HB H1 H2.
  assert (Zpos m1 * A < 2 * C * A) by (apply Z.mul_lt_mono_pos_r; lia).
  assert (C * A ≤ Zpos m2 * A) by (apply Z.mul_le_mono_nonneg_r; lia).
  assert (Zpos m2 * A * 1 ≤ Zpos m2 * A * B) by (apply Z.mul_le_mono_nonneg_l; nia).
  lia.
Qed.

Lemma Zcompare_mul_r (n m p : Z) : 0 < p → (n * p ?= m * p) = (n ?= m).
Proof.
  intros Hp. destruct (Z.compare_spec n m) as [->|H|H].
  - apply Z.compare_refl.
  - apply Z.compare_lt_iff. by apply Z.mul_lt_mono_pos_r.
  - apply Z.compare_gt_iff. by apply Z.mul_lt_mono_pos_r.
Qed.

Lemma units_compare (a b : float) :
  is_binary64 a = true → is_binary64 b = true →
  is_finite a = true → is_finite b = true →
  SFcompare a b = Some (units a ?= units b).
Proof.
  destruct a as [sa|sa| |sa ma ea], b as [sb|sb| |sb mb eb]; try done;
    unfold is_binary64, valid_binary; intros Va Vb _ _;
    unfold SFcompare, units, cond_Zopp.
  - pose proof (bounded_inv _ _ Vb) as (He & _ & _).
    pose proof (pow2_pos (eb + 1074) ltac:(lia)).
    destruct sb; f_equal; symmetry; [apply Z.compare_gt_iff|apply Z.compare_lt_iff]; nia.
  - pose proof (bounded_inv _ _ Va) as (He & _ & _).
    pose proof (pow2_pos (ea + 1074) ltac:(lia)).
    destruct sa; f_equal; symmetry; [apply Z.compare_lt_iff|apply Z.compare_gt_iff]; nia.
  - pose proof (bounded_inv _ _ Va) as (Hea & _ & _).
    pose proof (bounded_inv _ _ Vb) as (Heb & _ & _).
    pose proof (pow2_pos (ea + 1074) ltac:(lia)) as Pa.
    pose proof (pow2_pos (eb + 1074) ltac:(lia)) as Pb.
    change (Pos.compare_cont Eq ma mb) with (ma ?= mb)%positive.
    destruct sa, sb; f_equal; symmetry.
    + destruct (Z.compare_spec ea eb) as [->|Hlt|Hgt].
      * rewrite Z.compare_opp, Pos2Z.inj_compare.
        rewrite <- Z.compare_antisym. apply Zcompare_mul_r. lia.
      * apply Z.compare_gt_iff. pose proof (mag_lt _ _ _ _ Va Vb Hlt). lia.
      * apply Z.compare_lt_iff. pose proof (mag_lt _ _ _ _ Vb Va ltac:(lia)). lia.
    + apply Z.compare_lt_iff. nia.
    + apply Z.compare_gt_iff. nia.
    + destruct (Z.compare_spec ea eb) as [->|Hlt|Hgt].
      * rewrite Pos2Z.inj_compare. apply Zcompare_mul_r. lia.
      * apply Z.compare_lt_iff. by apply mag_lt.
      * apply Z.compare_gt_iff. apply mag_lt; try done.
Qed.

Lemma flt_units (a b : float) :
  is_binary64 a = true → is_binary64 b = true →
  is_finite a = true → is_finite b = true →
  flt a b = (units a <? units b).
Proof.
  intros. unfold flt, SFltb. rewrite units_compare by done.
  unfold Z.ltb. by destruct (units a ?= units b).
Qed.

Lemma fle_units (a b : float) :
  is_binary64 a = true → is_binary64 b = true →
  is_finite a = true → is_finite b = true →
  fle a b = (units a <=? units b).
Proof.
  intros. unfold fle, SFleb. rewrite units_compare by done.
  unfold Z.leb. by destruct (units a ?= units b).
Qed.

(** ** Shifting a mantissa *)

Lemma iter_pos_nat {A} (f : A → A) (p : positive) (a : A) :
  SpecFloat.iter_pos f p a = Nat.iter (Pos.to_nat p) f a.
Proof.
  revert a. induction p as [p IH|p IH|]; intros a; simpl SpecFloat.iter_pos.
  - rewrite !IH, Pos2Nat.inj_xI.
    replace (S (2 * Pos.to_nat p)) with (Pos.to_nat p + (Pos.to_nat p + 1))%nat by lia.
    rewrite !Nat.iter_add. done.
  - rewrite !IH, Pos2Nat.inj_xO.
    replace (2 * Pos.to_nat p)%nat with (Pos.to_nat p + Pos.to_nat p)%nat by lia.
    rewrite Nat.iter_add. done.
  - done.
Qed.

Lemma shl_pos (m d : positive) : Zpos (Pos.iter xO m d) = Zpos m * 2 ^ Zpos d.
Proof.
  induction d as [|d IH] using Pos.peano_ind.
  - simpl. lia.
  - rewrite Pos.iter_succ, Pos2Z.inj_xO, IH, Pos2Z.inj_succ, Z.pow_succ_r by lia. lia.
Qed.

Lemma shr_1_spec (R : shr_record) :
  0 ≤ shr_m R →
  shr_m (shr_1 R) = shr_m R / 2 ∧
  shr_r (shr_1 R) = Z.odd (shr_m R) ∧
  shr_s (shr_1 R) = shr_r R || shr_s R.
Proof.
  destruct R as [m r s]. simpl. intros Hm.
  destruct m as [|[p|p|]|p]; try lia; simpl; repeat split.
  - change (Zpos p~1) with (2 * Zpos p + 1).
    apply Z.div_unique with 1; lia.
  - change (Zpos p~0) with (2 * Zpos p).
    apply Z.div_unique with 0; lia.
Qed.

Lemma shr_inv_step (M : Z) (k : nat) (R : shr_record) :
  0 ≤ M → shr_inv M k R → shr_inv M (S k) (shr_1 R).
Proof.
  intros HM [Hm Hrs]. unfold shr_inv in *.
  assert (0 < 2 ^ Z.of_nat k) as Hp by (apply pow2_pos; lia).
  assert (0 ≤ shr_m R) as Hm0 by (rewrite Hm; apply Z.div_pos; lia).
  destruct (shr_1_spec R Hm0) as (E1 & E2 & E3).
  rewrite Nat2Z.inj_succ, Z.pow_succ_r by lia.
  set (P := 2 ^ Z.of_nat k) in *.
  pose proof (Z.div_mod M P ltac:(lia)) as HD.
  pose proof (Z.mod_pos_bound M P Hp) as HB.
  pose proof (Z.div_mod (M / P) 2 ltac:(lia)) as HD2.
  pose proof (Z.mod_pos_bound (M / P) 2 ltac:(lia)) as HB2.
  rewrite Zodd_mod, Hm in E2.
  assert (M / (2 * P) = M / P / 2) as Eq1.
  { rewrite (Z.mul_comm 2 P). symmetry. apply Z.div_div; lia. }
  assert (M mod (2 * P) = M mod P + P * ((M / P) mod 2)) as Eq2.
  { rewrite (Z.mul_comm 2 P). rewrite Z.rem_mul_r by lia. done. }
  split.
  - rewrite E1, Hm, Eq1. done.
  - rewrite E2, E3, Eq2. revert Hrs.
    destruct (Z.eq_dec ((M / P) mod 2) 0) as [Ez|Ez].
    + rewrite Ez. change (0 =? 1) with false.
      destruct (shr_r R), (shr_s R); simpl; lia.
    + assert ((M / P) mod 2 = 1) as -> by lia. change (1 =? 1) with true.
      destruct (shr_r R), (shr_s R); simpl; lia.
Qed.

Lemma shr_inv_iter (M : Z) (k : nat) :
  0 ≤ M → shr_inv M k (Nat.iter k shr_1 (Build_shr_record M false false)).
Proof.
  intros HM. induction k as [|k IH].
  - unfold shr_inv. simpl. split; [by rewrite Z.div_1_r | by rewrite Z.mod_1_r].
  - simpl Nat.iter. by apply shr_inv_step.
Qed.

(** Rounding to nearest even moves the shifted mantissa by at most half a
    unit of the new last place. *)
Lemma round_nearest_even_spec (M : Z) (k : nat) (R : shr_record) :
  0 ≤ M → shr_inv M k R →
  let q := round_nearest_even (shr_m R) (loc_of_shr_record R) in
  (q = M / 2 ^ Z.of_nat k ∨ q = M / 2 ^ Z.of_nat k + 1) ∧
  2 * Z.abs (q * 2 ^ Z.of_nat k - M) ≤ 2 ^ Z.of_nat k ∧
  (M mod 2 ^ Z.of_nat k = 0 → q * 2 ^ Z.of_nat k = M).
Proof.
  intros HM [Hm Hrs]. 
  assert (0 < 2 ^ Z.of_nat k) as Hp by (apply pow2_pos; lia).
  set (P := 2 ^ Z.of_nat k) in *.
  pose proof (Z.div_mod M P ltac:(lia)) as HD.
  pose proof (Z.mod_pos_bound M P Hp) as HB.
  destruct R as [m r s]. simpl in *. subst m.
  destruct r, s; simpl.
  - split; [auto|]. split; lia.
  - destruct (Z.even (M / P)); (split; [auto|]); split; lia.
  - split; [auto|]. split; lia.
  - split; [auto|]. split; lia.
Qed.

(** ** Rounding a mantissa and an exponent to binary64 *)

Lemma bounded_intro (m : positive) (e : Z) :
  fexp prec emax (Zpos (digits2_pos m) + e) = e → e ≤ 971 →
  bounded prec emax m e = true.
Proof.
  intros H1 H2. unfold bounded, canonical_mantissa.
  rewrite H1, Z.eqb_refl. simpl. apply Z.leb_le. exact H2.
Qed.

(** A canonical mantissa goes through unchanged. *)
Lemma binary_round_aux_canonical (s : bool) (m : positive) (e : Z) :
  fexp prec emax (Zpos (digits2_pos m) + e) = e →
  binary_round_aux prec emax s (Zpos m) e loc_Exact =
  if e <=? 971 then S754_finite s m e else S754_infinity s.
Proof.
  intros H1. unfold binary_round_aux, shr_fexp.
  cbn [Zdigits2 shr_record_of_loc]. rewrite H1, Z.sub_diag.
  cbn [shr shr_m loc_of_shr_record round_nearest_even Zdigits2 shr_record_of_loc].
  rewrite H1, Z.sub_diag. cbn [shr shr_m]. done.
Qed.

Lemma log2_digits_unique (m : positive) (k : Z) :
  0 ≤ k → 2 ^ k ≤ Zpos m < 2 ^ (k + 1) → Zpos (digits2_pos m) = k + 1.
Proof.
  intros Hk H. rewrite digits2_log2. f_equal.
  apply Z.log2_unique; [done|]. by rewrite <- Z.add_1_r.
Qed.

(** A mantissa of more than 53 bits is shifted and rounded. *)
Lemma binary_round_aux_shift (s : bool) (M : positive) (e : Z) :
  let d := Zpos (digits2_pos M) in
  53 < d → -1074 ≤ e →
  ∃ m' e',
    binary_round_aux prec emax s (Zpos M) e loc_Exact =
      (if e' <=? 971 then S754_finite s m' e' else S754_infinity s) ∧
    fexp prec emax (Zpos (digits2_pos m') + e') = e' ∧
    e + (d - 53) ≤ e' ≤ e + (d - 53) + 1 ∧
    2 * Z.abs (Zpos m' * 2 ^ (e' - e) - Zpos M) ≤ 2 ^ (d - 53) ∧
    (Zpos M mod 2 ^ (d - 53) = 0 → Zpos m' * 2 ^ (e' - e) = Zpos M).
Proof.
  intros d Hd He.
  pose proof (digits2_bounds M) as [Hlo Hhi]. fold d in Hlo, Hhi.
  unfold binary_round_aux, shr_fexp. cbn [Zdigits2 shr_record_of_loc]. fold d.
  rewrite fexp_eq.
  assert (Z.max (d + e - 53) (-1074) - e = Zpos (Z.to_pos (d - 53))) as ->.
  { rewrite Z2Pos.id by lia. lia. }
  cbn [shr]. rewrite iter_pos_nat.
  set (k := Pos.to_nat (Z.to_pos (d - 53))).
  assert (Z.of_nat k = d - 53) as Hk.
  { unfold k. rewrite positive_nat_Z, Z2Pos.id by lia. done. }
  pose proof (shr_inv_iter (Zpos M) k ltac:(lia)) as Hinv.
  set (R := Nat.iter k shr_1 _) in *.
  pose proof (round_nearest_even_spec (Zpos M) k R ltac:(lia) Hinv) as (Hq & Herr & Hex).
  rewrite Hk in Hq, Herr, Hex.
  set (q := round_nearest_even (shr_m R) (loc_of_shr_record R)) in *.
  rewrite Z2Pos.id by lia.
  (* the quotient has exactly 53 bits *)
  assert (0 < 2 ^ (d - 53)) as Hp by (apply pow2_pos; lia).
  assert (2 ^ 52 ≤ Zpos M / 2 ^ (d - 53) < 2 ^ 53) as Hquot.
  { split.
    - apply Z.div_le_lower_bound; [done|].
      rewrite <- Z.pow_add_r by lia. replace (d - 53 + 52) with (d - 1) by lia. done.
    - apply Z.div_lt_upper_bound; [done|].
      rewrite <- Z.pow_add_r by lia. replace (d - 53 + 53) with d by lia. done. }
  assert (2 ^ 52 ≤ q ≤ 2 ^ 53) as Hqr by lia.
  clearbody q. destruct q as [|q|q]; try lia.
  destruct (Z.eq_dec (Zpos q) (2 ^ 53)) as [Etop|Ntop].
  - (* the rounding carried into a 54th bit: one more exact shift *)
    assert (q = (2 ^ 53)%positive) as -> by (apply Pos2Z.inj; exact Etop).
    exists (2 ^ 52)%positive, (e + (d - 53) + 1).
    split; [|split; [|split; [lia|split]]].
    + cbn [Zdigits2]. rewrite fexp_eq.
      change (Zpos (digits2_pos (2 ^ 53))) with 54.
      assert (Z.max (54 + (e + (d - 53)) - 53) (-1074) - (e + (d - 53)) = 1) as -> by lia.
      cbn -[Z.add Z.leb Z.sub]. done.
    + rewrite fexp_eq. change (Zpos (digits2_pos (2 ^ 52))) with 53. lia.
    + replace (e + (d - 53) + 1 - e) with (d - 53 + 1) by lia.
      rewrite Z.pow_add_r by lia. change (2 ^ 1) with 2.
      change (Zpos (2 ^ 53)) with (Zpos (2 ^ 52) * 2) in Herr. lia.
    + intros H0. specialize (Hex H0).
      replace (e + (d - 53) + 1 - e) with (d - 53 + 1) by lia.
      rewrite Z.pow_add_r by lia. change (2 ^ 1) with 2.
      change (Zpos (2 ^ 53)) with (Zpos (2 ^ 52) * 2) in Hex. lia.
  - assert (Zpos (digits2_pos q) = 53) as Hdq.
    { apply (log2_digits_unique q 52); [lia|]. change (52 + 1) with 53. lia. }
    exists q, (e + (d - 53)).
    assert (fexp prec emax (Zpos (digits2_pos q) + (e + (d - 53))) = e + (d - 53)) as Hcan.
    { rewrite fexp_eq, Hdq. lia. }
    split; [|split; [exact Hcan|split; [lia|split]]].
    + cbn [Zdigits2 shr_record_of_loc]. rewrite Hcan, Z.sub_diag. cbn [shr shr_m]. done.
    + replace (e + (d - 53) - e) with (d - 53) by lia. exact Herr.
    + replace (e + (d - 53) - e) with (d - 53) by lia. exact Hex.
Qed.

Lemma digits2_shl (m p : positive) :
  Zpos (digits2_pos (Pos.iter xO m p)) = Zpos (digits2_pos m) + Zpos p.
Proof.
  rewrite !digits2_log2, shl_pos, Z.log2_mul_pow2 by lia. lia.
Qed.

(** What [binary_round] returns, in units of 2^-1074: a canonical float
    within half a unit in the last place of the exact value, the exact
    value when no bit has to be dropped, and an infinity only when the
    exponent leaves the format. *)
Lemma binary_round_spec (s : bool) (M : positive) (e : Z) :
  let d := Zpos (digits2_pos M) in
  -1074 ≤ e →
  ∃ m' e',
    binary_round prec emax s M e =
      (if e' <=? 971 then S754_finite s m' e' else S754_infinity s) ∧
    fexp prec emax (Zpos (digits2_pos m') + e') = e' ∧
    e' ≤ Z.max (d + e - 53) (-1074) + 1 ∧
    2 * Z.abs (Zpos m' * 2 ^ (e' + 1074) - Zpos M * 2 ^ (e + 1074))
      ≤ 2 ^ (d + e + 1021) ∧
    (d ≤ 53 ∨ Zpos M mod 2 ^ (d - 53) = 0 →
     Zpos m' * 2 ^ (e' + 1074) = Zpos M * 2 ^ (e + 1074)).
Proof.
  intros d He.
  pose proof (digits2_bounds M) as [Hlo Hhi]. fold d in Hlo, Hhi.
  assert (1 ≤ d) as Hd1 by (unfold d; lia).
  assert (0 < 2 ^ (e + 1074)) as Hpe by (apply pow2_pos; lia).
  assert (0 ≤ 2 ^ (d + e + 1021)) as Hpd by (apply Z.pow_nonneg; lia).
  unfold binary_round, shl_align. fold d. rewrite fexp_eq.
  destruct (Z.max (d + e - 53) (-1074) - e) as [|p|p] eqn:Et.
  - (* already canonical *)
    exists M, e.
    assert (fexp prec emax (d + e) = e) as Hcan by (rewrite fexp_eq; lia).
    split; [by apply binary_round_aux_canonical|].
    split; [exact Hcan|]. split; [lia|].
    rewrite Z.sub_diag. simpl Z.abs. split; [lia|done].
  - (* more than 53 bits *)
    assert (53 < d) as Hd by lia.
    destruct (binary_round_aux_shift s M e Hd He)
      as (m' & e' & -> & Hcan & He' & Herr & Hex).
    fold d in He', Herr, Hex.
    exists m', e'. split; [done|]. split; [exact Hcan|]. split; [lia|].
    replace (e' + 1074) with ((e' - e) + (e + 1074)) by lia.
    rewrite Z.pow_add_r by lia.
    split.
    + rewrite Z.mul_assoc, <- Z.mul_sub_distr_r, Z.abs_mul, (Z.abs_eq (2 ^ _)) by lia.
      replace (d + e + 1021) with ((d - 53) + (e + 1074)) by lia.
      rewrite (Z.pow_add_r 2 (d - 53) (e + 1074)), Z.mul_assoc by lia.
      apply Z.mul_le_mono_nonneg_r; [lia|exact Herr].
    + intros [?|H0]; [lia|]. rewrite Z.mul_assoc, (Hex H0). done.
  - (* fewer than 53 bits, above the smallest exponent: shift left *)
    assert (Zpos p = e - Z.max (d + e - 53) (-1074)) as Hp by lia.
    set (t := Z.max (d + e - 53) (-1074)) in *.
    exists (Pos.iter xO M p), t.
    assert (fexp prec emax (Zpos (digits2_pos (Pos.iter xO M p)) + t) = t) as Hcan.
    { rewrite digits2_shl, fexp_eq. fold d. lia. }
    split; [by apply binary_round_aux_canonical|].
    split; [exact Hcan|]. split; [lia|].
    assert (Zpos (Pos.iter xO M p) * 2 ^ (t + 1074) = Zpos M * 2 ^ (e + 1074)) as ->.
    { rewrite shl_pos, Hp, <- Z.mul_assoc, <- Z.pow_add_r by lia. f_equal. f_equal. lia. }
    rewrite Z.sub_diag. simpl Z.abs. split; [lia|done].
Qed.

(** The bit length of a positive number bounded by a power of two. *)
Lemma digits_le_of_lt (M : positive) (e k : Z) :
  -1074 ≤ e → Zpos M * 2 ^ (e + 1074) < 2 ^ k →
  Zpos (digits2_pos M) + e + 1074 ≤ k.
Proof.
  intros He H.
  pose proof (digits2_bounds M) as [Hlo _].
  set (d := Zpos (digits2_pos M)) in *.
  assert (1 ≤ d) by (unfold d; lia).
  assert (0 < 2 ^ (e + 1074)) by (apply pow2_pos; lia).
  assert (2 ^ (d - 1 + (e + 1074)) < 2 ^ k) as Hlt.
  { rewrite Z.pow_add_r by lia. eapply Z.le_lt_trans; [|exact H].
    apply Z.mul_le_mono_nonneg_r; lia. }
  apply Z.pow_lt_mono_r_iff in Hlt; try lia.
  destruct (Z.le_gt_cases 0 k); [done|].
  rewrite (Z.pow_neg_r 2 k) in Hlt by lia.
  assert (0 < 2 ^ (d - 1 + (e + 1074))) by (apply pow2_pos; lia). lia.
Qed.

(** The result of rounding is a valid float, finite below 2^1023. *)
Lemma binary_round_valid (s : bool) (M : positive) (e : Z) :
  -1074 ≤ e → is_binary64 (binary_round prec emax s M e) = true.
Proof.
  intros He. destruct (binary_round_spec s M e He) as (m' & e' & -> & Hcan & _).
  destruct (Z.leb_spec e' 971); [|done].
  by apply bounded_intro.
Qed.

Lemma binary_round_units (s : bool) (M : positive) (e k : Z) :
  -1074 ≤ e → k ≤ 2097 → Zpos M * 2 ^ (e + 1074) < 2 ^ k →
  let r := binary_round prec emax s M e in
  let N := cond_Zopp s (Zpos M * 2 ^ (e + 1074)) in
  is_finite r = true ∧
  2 ^ 54 * Z.abs (units r - N) ≤ 2 ^ k ∧
  (Zpos M < 2 ^ 53 → units r = N).
Proof.
  intros He Hk HN r N.
  pose proof (digits_le_of_lt M e k He HN) as Hd.
  destruct (binary_round_spec s M e He) as (m' & e' & Er & Hcan & He' & Herr & Hex).
  set (d := Zpos (digits2_pos M)) in *.
  assert ((e' <=? 971) = true) as Hle by (apply Z.leb_le; lia).
  rewrite Hle in Er. subst r N. rewrite Er. split; [done|].
  cbn [units].
  assert (Z.abs (cond_Zopp s (Zpos m' * 2 ^ (e' + 1074)) -
                 cond_Zopp s (Zpos M * 2 ^ (e + 1074))) =
          Z.abs (Zpos m' * 2 ^ (e' + 1074) - Zpos M * 2 ^ (e + 1074))) as ->.
  { destruct s; simpl; lia. }
  split.
  - assert (0 ≤ 2 ^ k) as Hk0 by (apply Z.pow_nonneg; lia).
    assert (2 ^ (d + e + 1021) * 2 ^ 53 ≤ 2 ^ k).
    { destruct (Z.le_gt_cases 0 (d + e + 1021)).
      - rewrite <- Z.pow_add_r by lia. apply Z.pow_le_mono_r; lia.
      - rewrite (Z.pow_neg_r 2 (d + e + 1021)) by lia. lia. }
    change (2 ^ 54) with (2 ^ 53 * 2).
    assert (0 < 2 ^ 53) by done.
    generalize dependent (2 ^ 53). generalize dependent (2 ^ (d + e + 1021)).
    generalize dependent (2 ^ k). intros. nia.
  - intros HM. f_equal. apply Hex. left.
    pose proof (digits2_bounds M) as [Hlo _]. fold d in Hlo.
    destruct (Z.le_gt_cases d 53); [done|].
    assert (2 ^ 53 ≤ 2 ^ (d - 1)) by (apply Z.pow_le_mono_r; lia). lia.
Qed.

(** ** Conversion of integers *)

Lemma float_of_Z_valid (z : Z) : is_binary64 (float_of_Z z) = true.
Proof.
  destruct z as [|p|p]; [done|apply binary_round_valid; lia..].
Qed.

Lemma float_of_Z_exact (z : Z) :
  Z.abs z < 2 ^ 53 →
  is_finite (float_of_Z z) = true ∧ units (float_of_Z z) = z * 2 ^ 1074.
Proof.
  intros Hz. destruct z as [|p|p]; [done|..].
  - assert (Zpos p * 2 ^ (0 + 1074) < 2 ^ 1127) as HN.
    { change (2 ^ 1127) with (2 ^ 53 * 2 ^ (0 + 1074)).
      apply Z.mul_lt_mono_pos_r; [done|lia]. }
    destruct (binary_round_units false p 0 1127 ltac:(lia) ltac:(lia) HN) as (Hf & _ & Hu).
    split; [exact Hf|]. apply Hu. lia.
  - assert (Zpos p * 2 ^ (0 + 1074) < 2 ^ 1127) as HN.
    { change (2 ^ 1127) with (2 ^ 53 * 2 ^ (0 + 1074)).
      apply Z.mul_lt_mono_pos_r; [done|lia]. }
    destruct (binary_round_units true p 0 1127 ltac:(lia) ltac:(lia) HN) as (Hf & _ & Hu).
    split; [exact Hf|]. unfold float_of_Z, binary_normalize. rewrite Hu by lia.
    simpl cond_Zopp. change (0 + 1074) with 1074. lia.
Qed.

(** ** Addition *)

Lemma shl_align_units (m : positive) (e ez : Z) :
  -1074 ≤ ez ≤ e →
  Zpos (shl_align m e ez).1 * 2 ^ (ez + 1074) = Zpos m * 2 ^ (e + 1074).
Proof.
  intros He. unfold shl_align.
  destruct (ez - e) as [|p|p] eqn:E; simpl fst.
  - by replace ez with e by lia.
  - lia.
  - rewrite shl_pos, <- Z.mul_assoc, <- Z.pow_add_r by lia. do 2 f_equal. lia.
Qed.

Lemma fadd_finite_eq sa ma ea sb mb eb :
  fadd (S754_finite sa ma ea) (S754_finite sb mb eb) =
  binary_normalize prec emax
    (cond_Zopp sa (Zpos (shl_align ma ea (Z.min ea eb)).1) +
     cond_Zopp sb (Zpos (shl_align mb eb (Z.min ea eb)).1)) (Z.min ea eb) false.
Proof. done. Qed.

Lemma fadd_valid (a b : float) :
  is_binary64 a = true → is_binary64 b = true → is_binary64 (fadd a b) = true.
Proof.
  intros Va Vb.
  destruct a as [sa|sa| |sa ma ea], b as [sb|sb| |sb mb eb];
    try done; try (by destruct sa, sb).
  rewrite fadd_finite_eq.
  apply bounded_inv in Va as (Ha & _), Vb as (Hb & _).
  destruct (_ + _) as [|p|p]; [done|apply binary_round_valid; lia..].
Qed.

Lemma fadd_units (a b : float) (k : Z) :
  is_binary64 a = true → is_binary64 b = true →
  is_finite a = true → is_finite b = true →
  k ≤ 2097 → Z.abs (units a + units b) < 2 ^ k →
  is_finite (fadd a b) = true ∧
  2 ^ 54 * Z.abs (units (fadd a b) - (units a + units b)) ≤ 2 ^ k.
Proof.
  intros Va Vb Fa Fb Hk HN.
  assert (0 ≤ 2 ^ k) as Hk0 by (apply Z.pow_nonneg; lia).
  destruct a as [sa|sa| |sa ma ea], b as [sb|sb| |sb mb eb]; try done.
  - destruct sa, sb; (split; [done|]); simpl; lia.
  - split; [done|]. simpl fadd. rewrite Z.add_0_l, Z.sub_diag. simpl. lia.
  - split; [done|]. simpl fadd. rewrite Z.add_0_r, Z.sub_diag. simpl. lia.
  - rewrite fadd_finite_eq.
    apply bounded_inv in Va as (Ha & _), Vb as (Hb & _).
    set (ez := Z.min ea eb) in *.
    assert ((cond_Zopp sa (Zpos (shl_align ma ea ez).1) +
             cond_Zopp sb (Zpos (shl_align mb eb ez).1)) * 2 ^ (ez + 1074)
            = units (S754_finite sa ma ea) + units (S754_finite sb mb eb)) as HS.
    { cbn [units]. rewrite <- (shl_align_units ma ea ez), <- (shl_align_units mb eb ez) by lia.
      destruct sa, sb; simpl; lia. }
    rewrite <- HS in *. clear HS.
    destruct (_ + _) as [|p|p].
    + split; [done|]. simpl. lia.
    + destruct (binary_round_units false p ez k ltac:(lia) Hk ltac:(lia)) as (Hf & Hu & _).
      split; [exact Hf|exact Hu].
    + destruct (binary_round_units true p ez k ltac:(lia) Hk ltac:(lia)) as (Hf & Hu & _).
      split; [exact Hf|].
      replace (Zneg p * 2 ^ (ez + 1074)) with (cond_Zopp true (Zpos p * 2 ^ (ez + 1074)))
        by (simpl; lia).
      exact Hu.
Qed.

(** Adding a zero to a float within the world leaves it alone. *)
Lemma fadd_zero_r (a : float) : is_finite a = true → feq (fadd a f0) a = true.
Proof. destruct a as [[]|[]| |s m e]; try done. intros _. apply feq_refl. done. Qed.

(** ** One axis of a move *)

Lemma units_fneg (a : float) : units (fneg a) = - units a.
Proof. destruct a as [s|s| |[] m e]; simpl; lia. Qed.

Lemma fneg_valid (a : float) : is_binary64 (fneg a) = is_binary64 a.
Proof. by destruct a. Qed.

Lemma fneg_finite (a : float) : is_finite (fneg a) = is_finite a.
Proof. by destruct a. Qed.

Lemma units_f5000 : units f5000 = 5000 * unit_scale.
Proof. by vm_compute. Qed.

(** Strictly between two finite floats there are only finite floats. *)
Lemma flt_between_finite (lo a hi : float) :
  is_finite lo = true → is_finite hi = true →
  flt lo a = true → flt a hi = true → is_finite a = true.
Proof.
  destruct a as [s|[]| |s m e]; try done;
    destruct lo as [|[]| |[]], hi as [|[]| |[]]; done.
Qed.

Lemma cap_ok_inv (cap : float) :
  cap_ok cap = true →
  is_binary64 cap = true ∧ is_finite cap = true ∧ 0 ≤ units cap.
Proof.
  unfold cap_ok. intros [[V F]%andb_prop L]%andb_prop.
  split; [done|]. split; [done|].
  rewrite fle_units in L by done. by apply Z.leb_le in L.
Qed.

Lemma units_zero_inv (d : float) :
  is_binary64 d = true → is_finite d = true → units d = 0 → ∃ s, d = S754_zero s.
Proof.
  destruct d as [s|s| |s m e]; try done; [by exists s|].
  intros (He & _)%bounded_inv _. cbn.
  pose proof (pow2_pos (e + 1074) ltac:(lia)). destruct s; cbn; nia.
Qed.

Lemma fadd_zero_units (a : float) (s : bool) :
  is_binary64 a = true → is_finite a = true →
  is_binary64 (fadd a (S754_zero s)) = true ∧
  is_finite (fadd a (S754_zero s)) = true ∧
  units (fadd a (S754_zero s)) = units a.
Proof. destruct a as [[]|[]| |sa m e], s; done. Qed.

Section Axis.

(** The cap the server was configured with, taken to be a non-negative
    finite number. *)
Variable cap : float.
Hypothesis Hcap : cap_ok cap = true.

(** The clamped delta is a finite double of magnitude at most the cap. *)
Lemma clamp_delta_units (d : float) :
  is_binary64 d = true →
  is_binary64 (clamp_delta cap d) = true ∧
  is_finite (clamp_delta cap d) = true ∧
  Z.abs (units (clamp_delta cap d)) ≤ units cap.
Proof.
  pose proof (cap_ok_inv cap Hcap) as (V & F & Hc). intros Vd.
  destruct (clamp_delta_cases cap d) as [(-> & H0 & H1)|[(-> & _ & H)|(-> & _)]].
  - assert (is_finite d = true) as Fd.
    { eapply flt_between_finite; [| |exact H0|exact H1]; by rewrite ?fneg_finite. }
    rewrite flt_units in H0, H1 by (by rewrite ?fneg_valid, ?fneg_finite).
    rewrite units_fneg in H0. apply Z.ltb_lt in H0, H1.
    split; [done|]. split; [done|]. lia.
  - split; [done|]. split; [done|]. lia.
  - rewrite fneg_valid, fneg_finite, units_fneg. rewrite Z.abs_opp.
    split; [done|]. split; [done|]. lia.
Qed.

Lemma in_world_units (x : float) :
  is_binary64 x = true → in_world x →
  is_finite x = true ∧ 0 ≤ units x ≤ 5000 * unit_scale.
Proof.
  intros V [H0 H1].
  assert (is_finite x = true) as F by by destruct x as [|[]| |].
  rewrite fle_units in H0, H1 by done.
  apply Z.leb_le in H0, H1. rewrite units_f5000 in H1. done.
Qed.

(** The world clamp of a double, in units. *)
Lemma clamp_world_units (s : float) :
  is_binary64 s = true →
  is_finite (clamp_world s) = true ∧
  0 ≤ units (clamp_world s) ≤ 5000 * unit_scale ∧
  (is_finite s = true →
   units (clamp_world s) = Z.max 0 (Z.min (5000 * unit_scale) (units s))).
Proof.
  intros V. rewrite <- units_f5000.
  assert (0 < units f5000) as HW by done.
  destruct (clamp_world_cases s) as [(-> & H0 & H1)|[(-> & H)|(-> & H1 & H0)]].
  - assert (is_finite s = true) as F.
    { eapply flt_between_finite; [| |exact H0|exact H1]; done. }
    rewrite flt_units in H0, H1 by done. apply Z.ltb_lt in H0, H1.
    change (units f0) with 0 in H0.
    split; [done|]. split; [lia|]. lia.
  - split; [done|]. split; [lia|]. intros F.
    rewrite flt_units in H by done. apply Z.ltb_ge in H. lia.
  - split; [done|]. change (units f0) with 0. split; [lia|]. intros F.
    rewrite flt_units in H0, H1 by done. apply Z.ltb_ge in H0. apply Z.ltb_lt in H1.
    change (units f0) with 0 in H0. lia.
Qed.

(** The bound on one axis: the coordinate moves by at most the cap, up to
    the rounding of the single addition. *)
Lemma move_axis_bound (x dx : float) :
  is_binary64 x = true → in_world x → is_binary64 dx = true →
  let x' := clamp_world (fadd x (clamp_delta cap dx)) in
  is_binary64 x' = true ∧ in_world x' ∧
  Z.abs (units x' - units x) ≤ units cap + 2 ^ 1034 ∧
  (units cap ≤ 3000 * unit_scale → Z.abs (units x' - units x) ≤ units cap + 2 ^ 1033) ∧
  (units (fadd x (clamp_delta cap dx)) = units x + units (clamp_delta cap dx) →
   Z.abs (units x' - units x) ≤ units cap).
Proof.
  intros Vx Wx Vdx x'.
  destruct (clamp_delta_units dx Vdx) as (Vd & Fd & Hd).
  destruct (in_world_units x Vx Wx) as (Fx & Hx).
  set (d := clamp_delta cap dx) in *.
  pose proof (fadd_valid x d Vx Vd) as Vs.
  destruct (clamp_world_units (fadd x d) Vs) as (Fn & Hn & Hu).
  fold x' in Fn, Hn, Hu.
  assert (is_binary64 x' = true) as Vx'.
  { unfold x'. destruct (clamp_world_cases (fadd x d)) as [(-> & _)|[(-> & _)|(-> & _)]]; done. }
  split; [exact Vx'|]. split; [apply clamp_world_range|].
  assert (unit_scale = 2 ^ 1074) as HU by done.
  assert (0 < unit_scale) as HUp by done.
  destruct (Z.le_gt_cases (5000 * unit_scale) (units cap)) as [Hbig|Hsmall].
  - repeat split; lia.
  - assert (Z.abs (units x + units d) < 2 ^ 1088) as HN.
    { change (2 ^ 1088) with (16384 * unit_scale). lia. }
    destruct (fadd_units x d 1088 Vx Vd Fx Fd ltac:(lia) HN) as (Fs & Herr).
    specialize (Hu Fs).
    change (2 ^ 1088) with (2 ^ 54 * 2 ^ 1034) in Herr.
    assert (Z.abs (units (fadd x d) - (units x + units d)) ≤ 2 ^ 1034) as Herr'.
    { apply Z.mul_le_mono_pos_l in Herr; done. }
    split; [lia|]. split; [|intros Hexact; lia]. intros Hc.
    assert (Z.abs (units x + units d) < 2 ^ 1087) as HN'.
    { change (2 ^ 1087) with (8192 * unit_scale). lia. }
    destruct (fadd_units x d 1087 Vx Vd Fx Fd ltac:(lia) HN') as (_ & Herr2).
    change (2 ^ 1087) with (2 ^ 54 * 2 ^ 1033) in Herr2.
    apply Z.mul_le_mono_pos_l in Herr2; [|done]. lia.
Qed.

(** The clamp of a zero delta is a zero. *)
Lemma clamp_delta_zero : ∃ s, clamp_delta cap f0 = S754_zero s.
Proof.
  pose proof (cap_ok_inv cap Hcap) as (V & F & Hc).
  destruct (clamp_delta_units f0 eq_refl) as (Vd & Fd & Hd).
  apply units_zero_inv; [done..|].
  destruct (clamp_delta_cases cap f0) as [(-> & _)|[(-> & H & _)|(E & H)]]; [done|..].
  - rewrite flt_units in H by done. apply Z.ltb_ge in H. change (units f0) with 0 in H. lia.
  - rewrite E, units_fneg. unfold py_min in H.
    destruct (flt f0 cap) eqn:H0; rewrite flt_units in H0 by done;
      change (units f0) with 0 in H0.
    + rewrite flt_units in H by (by rewrite ?fneg_valid, ?fneg_finite).
      apply Z.ltb_ge in H. apply Z.ltb_lt in H0. rewrite units_fneg in H.
      change (units f0) with 0 in H. lia.
    + apply Z.ltb_ge in H0. lia.
Qed.

(** A zero delta leaves a coordinate of the world where it is. *)
Lemma move_axis_zero (x : float) :
  is_binary64 x = true → in_world x →
  units (clamp_world (fadd x (clamp_delta cap f0))) = units x.
Proof.
  intros Vx Wx. destruct clamp_delta_zero as [s ->].
  destruct (in_world_units x Vx Wx) as (Fx & Hx).
  destruct (fadd_zero_units x s Vx Fx) as (Vs & Fs & Us).
  destruct (clamp_world_units _ Vs) as (_ & _ & Hu).
  rewrite (Hu Fs), Us. lia.
Qed.

End Axis.

(** ** [apply_input] on one room *)

Lemma apply_input_absent env room pid msg :
  RoomState.players (Room.state room) !! pid = None →
  apply_input env room pid msg = (room, None).
Proof. intros H. unfold apply_input. by rewrite H. Qed.

Lemma apply_input_moved env room pid msg p px py :
  RoomState.players (Room.state room) !! pid = Some p →
  float_of_num (PlayerState.x p) = Ok px →
  float_of_num (PlayerState.y p) = Ok py →
  apply_input env room pid msg =
  (Room.set_state_players (insert pid (moved env msg p px py)) room, None).
Proof.
  intros Hp Hx Hy. unfold apply_input. rewrite Hp.
  destruct (read_delta env msg) as [dx dy] eqn:Hd.
  rewrite Hx. cbn [PlayerState.set_x PlayerState.y]. rewrite Hy.
  unfold moved. rewrite Hd. cbn -[clamp_world clamp_delta fadd insert].
  unfold Room.set_state_players. cbn -[clamp_world clamp_delta fadd insert].
  by rewrite insert_insert_eq.
Qed.

(** A coordinate within the world converts without an exception. *)
Lemma float_of_Z_world (z : Z) :
  0 ≤ z ≤ 5000 →
  float_of_num (PyInt z) = Ok (float_of_Z z) ∧
  is_binary64 (float_of_Z z) = true ∧ in_world (float_of_Z z) ∧
  units (float_of_Z z) = z * unit_scale.
Proof.
  intros Hz.
  destruct (float_of_Z_exact z) as [F U]; [change (2 ^ 53) with 9007199254740992; lia|].
  pose proof (float_of_Z_valid z) as V.
  split; [|split; [done|split; [|done]]].
  - unfold float_of_num. by destruct (float_of_Z z).
  - unfold in_world. rewrite !fle_units by done. rewrite U.
    change (units f0) with 0. rewrite units_f5000. unfold unit_scale.
    split; apply Z.leb_le; nia.
Qed.

Lemma float_of_num_in_world (n : pynum) :
  coord_in_world n → ∃ f, float_of_num n = Ok f ∧ in_world f.
Proof.
  destruct n as [z|f]; simpl.
  - intros Hz. exists (float_of_Z z). by destruct (float_of_Z_world z Hz) as (? & _ & ? & _).
  - intros H. by exists f.
Qed.

Lemma float_of_num_ok (n : pynum) :
  coord_ok n = true →
  ∃ f, float_of_num n = Ok f ∧ is_binary64 f = true ∧ in_world f ∧
       units f = num_units n.
Proof.
  destruct n as [z|f]; simpl.
  - intros [H0 H1]%andb_prop. apply Z.leb_le in H0, H1.
    exists (float_of_Z z). by apply float_of_Z_world.
  - intros [[V H0]%andb_prop H1]%andb_prop. by exists f.
Qed.

(** The deltas read from a message are doubles Python can hold. *)
Lemma py_float_valid env v f :
  parser_ok env → num_ok v = true → py_float env v = Ok f → is_binary64 f = true.
Proof.
  intros Hp Hv. destruct v as [|[]|[z|g]|s|l|d]; simpl; try done.
  - by intros [= <-].
  - by intros [= <-].
  - pose proof (float_of_Z_valid z). destruct (float_of_Z z); by intros [= <-].
  - by intros [= <-].
  - destruct (str_to_float env s) eqn:E; [|done]. intros [= <-]. by eapply Hp.
Qed.

Lemma read_delta_valid env msg :
  parser_ok env → num_ok (field msg "dx") = true → num_ok (field msg "dy") = true →
  is_binary64 (read_delta env msg).1 = true ∧ is_binary64 (read_delta env msg).2 = true.
Proof.
  intros Hp Hx Hy. unfold read_delta. fold (field msg "dx") (field msg "dy").
  destruct (py_float env (field msg "dx")) as [dx|] eqn:Ex; [|done].
  destruct (py_float env (field msg "dy")) as [dy|] eqn:Ey; [|done].
  simpl. split; [by apply (py_float_valid env (field msg "dx"))|
                 by apply (py_float_valid env (field msg "dy"))].
Qed.

(** [apply_input] keeps the invariant of a room. *)
Lemma moved_in_world env msg p px py :
  coord_in_world (PlayerState.x (moved env msg p px py)) ∧
  coord_in_world (PlayerState.y (moved env msg p px py)).
Proof. split; apply clamp_world_range. Qed.

Lemma apply_input_inv env room pid msg :
  room_inv room → room_inv (apply_input env room pid msg).1 ∧
                  (apply_input env room pid msg).2 = None.
Proof.
  intros [Hdom Hpl].
  destruct (RoomState.players (Room.state room) !! pid) as [p|] eqn:Hp.
  - destruct (Hpl pid p Hp) as (Wx & Wy & Hhp & Hmana).
    destruct (float_of_num_in_world _ Wx) as (px & Ex & _).
    destruct (float_of_num_in_world _ Wy) as (py & Ey & _).
    rewrite (apply_input_moved env room pid msg p px py Hp Ex Ey).
    split; [|done]. split; simpl.
    + rewrite dom_insert_L, subseteq_union_1_L; [done|].
      apply singleton_subseteq_l. by eapply elem_of_dom_2.
    + intros pid' p'. rewrite lookup_insert. case_decide.
      * intros [= <-]. pose proof (moved_in_world env msg p px py) as [? ?]. done.
      * apply Hpl.
  - rewrite apply_input_absent by done. done.
Qed.

(** ** The invariant of the registry along a run *)

Ltac run_M :=
  unfold mbind, M_bind, mret, M_ret, get_state, modify_state, emit, safe_send,
    broadcast, infeasible, queue_pop in *.

Lemma server_inv_initial : server_inv initial.
Proof. intros rid room. unfold initial. cbn. by rewrite lookup_empty. Qed.

Lemma server_inv_insert st rid room :
  server_inv st → room_inv room → server_inv (set_rooms (insert rid room) st).
Proof.
  intros Hst Hr rid' room'. cbn. rewrite lookup_insert. case_decide.
  - by intros [= <-].
  - apply Hst.
Qed.

Lemma server_inv_delete st rid :
  server_inv st → server_inv (set_rooms (delete rid) st).
Proof.
  intros Hst rid' room'. cbn. intros [_ H]%lookup_delete_Some. by eapply Hst.
Qed.

Lemma server_inv_rooms st st' :
  rooms st' = rooms st → server_inv st → server_inv st'.
Proof. unfold server_inv. by intros ->. Qed.

Lemma room_inv_leave room pid :
  room_inv room →
  room_inv (Room.set_state_players (delete pid) (Room.set_players (delete pid) room)).
Proof.
  intros [Hdom Hpl]. split; cbn.
  - by rewrite !dom_delete_L, Hdom.
  - intros pid' p [_ H]%lookup_delete_Some. by eapply Hpl.
Qed.

Lemma room_inv_tick room n : room_inv room → room_inv (Room.set_tick n room).
Proof. intros [Hdom Hpl]. by split. Qed.

Lemma room_inv_new rid a b :
  room_inv
    {| Room.room_id := rid;
       Room.players := <["p2" := PlayerConn.mk b "p2" rid]>
                         (<["p1" := PlayerConn.mk a "p1" rid]> ∅);
       Room.state :=
         {| RoomState.tick := 0;
            RoomState.players := <["p2" := spawn 620]> (<["p1" := spawn 180]> ∅) |} |}.
Proof.
  split; cbn.
  - by rewrite !dom_insert_L, !dom_empty_L.
  - intros pid p. rewrite !lookup_insert. repeat case_decide.
    + intros [= <-]. cbn. lia.
    + intros [= <-]. cbn. lia.
    + by rewrite lookup_empty.
Qed.

Lemma remove_client_inv ws st st' out :
  remove_client ws st = Some (tt, st', out) → server_inv st → server_inv st'.
Proof.
  unfold remove_client. run_M. cbn.
  destruct (player_index st !! ws) as [c|]; cbn.
  - destruct (rooms st !! PlayerConn.room_id c) as [room|] eqn:Hr; cbn.
    + case_decide; cbn; intros [= <- <-] Hst.
      * apply server_inv_delete.
        apply (server_inv_insert (set_player_index _ (set_queue _ st)));
          [done|]. apply room_inv_leave. by eapply Hst.
      * apply (server_inv_insert (set_player_index _ (set_queue _ st)));
          [done|]. apply room_inv_leave. by eapply Hst.
    + by intros [= <- <-].
  - by intros [= <- <-].
Qed.

Lemma try_matchmaking_inv o st st' out :
  try_matchmaking o st = Some (tt, st', out) → server_inv st → server_inv st'.
Proof.
  unfold try_matchmaking, create_room_with_pair. run_M. cbn -[Nat.ltb].
  destruct (size (queue st) <? 2)%nat; cbn.
  - by intros [= <- <-].
  - case_decide; [|done]. cbn. case_decide; [|done]. cbn.
    intros [= <- <-] Hst.
    intros rid room. cbn. rewrite lookup_insert. case_decide.
    + intros [= <-]. apply room_inv_new.
    + apply Hst.
Qed.

Lemma ws_handler_open_inv ws o st st' out :
  ws_handler_open ws o st = Some (tt, st', out) → server_inv st → server_inv st'.
Proof.
  unfold ws_handler_open. run_M. cbn.
  destruct (try_matchmaking o _) as [[[[] st1] out1]|] eqn:E; [|done].
  intros [= <- <-] Hst. eapply try_matchmaking_inv; [exact E|]. done.
Qed.

Lemma ws_handler_recv_inv env ws raw st e st' out :
  ws_handler_recv env ws raw st = Some (e, st', out) → server_inv st →
  server_inv st' ∧ (e = None ∨ e = Some AttributeError).
Proof.
  intros H Hst. revert H. unfold ws_handler_recv.
  destruct raw as [[| | | | |msg]|]; run_M; cbn;
    try (intros [= <- <- <-]; by auto).
  destruct (is_type (dict_get msg "type") "ping"); cbn.
  { intros [= <- <- <-]. by auto. }
  destruct (player_index st !! ws) as [c|]; cbn; [|intros [= <- <- <-]; by auto].
  destruct (rooms st !! PlayerConn.room_id c) as [room|] eqn:Hr; cbn;
    [|intros [= <- <- <-]; by auto].
  destruct (is_type (dict_get msg "type") "input"); cbn;
    [|intros [= <- <- <-]; by auto].
  destruct (apply_input_inv env room (PlayerConn.player_id c) msg) as [Hinv He];
    [by eapply Hst|].
  destruct (apply_input env room (PlayerConn.player_id c) msg) as [room' e'].
  cbn in *. intros [= <- <- <-]. split; [|by auto].
  by apply server_inv_insert.
Qed.

Lemma snapshot_loop_iteration_inv st st' out :
  snapshot_loop_iteration st = Some (tt, st', out) → server_inv st → server_inv st'.
Proof.
  unfold snapshot_loop_iteration. run_M. cbn. intros [= <- <-] Hst rid room. cbn.
  rewrite lookup_fmap. destruct (rooms st !! rid) as [r|] eqn:Hr; [|done].
  intros [= <-]. apply room_inv_tick. by eapply Hst.
Qed.

Lemma step_inv env ev st st' out :
  step env ev st = Some (tt, st', out) → server_inv st → server_inv st'.
Proof.
  destruct ev as [ws o|ws raw|ws|]; cbn [step].
  - apply ws_handler_open_inv.
  - unfold mbind, M_bind.
    destruct (ws_handler_recv env ws raw st) as [[[e st1] out1]|] eqn:E; [|done].
    intros H Hst. destruct (ws_handler_recv_inv _ _ _ _ _ _ _ E Hst) as [Hst1 _].
    destruct e as [e|].
    + unfold ws_handler_close in H.
      destruct (remove_client ws st1) as [[[[] st2] out2]|] eqn:E2; [|done].
      injection H as <- <-. by eapply remove_client_inv.
    + unfold mret, M_ret in H. by injection H as <- <-.
  - apply remove_client_inv.
  - apply snapshot_loop_iteration_inv.
Qed.

Lemma run_inv env evs st st' out :
  run env evs st = Some (tt, st', out) → server_inv st → server_inv st'.
Proof.
  revert st out. induction evs as [|ev evs IH]; intros st out; cbn [run].
  - unfold mret, M_ret. by intros [= <- <-].
  - unfold mbind, M_bind.
    destruct (step env ev st) as [[[[] st1] out1]|] eqn:E; [|done].
    destruct (run env evs st1) as [[[[] st2] out2]|] eqn:E2; [|done].
    intros [= <- <-] Hst. eapply IH; [exact E2|]. by eapply step_inv.
Qed.

Lemma reachable_inv env st : reachable env st → server_inv st.
Proof.
  intros (evs & out & H). eapply run_inv; [exact H|]. apply server_inv_initial.
Qed.

(* ===================================================================== *)
(** * Part III: the properties of the specification                       *)
(* ===================================================================== *)

(** ** C1: the per-input cap *)

(** C1, as the specification states it, fails, and on a state the server
    reaches: a position inside the world can move by more than the cap.
    After [rounding_run] player "p1" stands at x = 4090 + 3 * 2^-41; a
    request of dx = 8 under the default cap 8 lands on 4098 + 2^-39,
    because the binary64 sum is a tie that rounds to even: the coordinate
    has moved by 8 + 2^-41. *)
Lemma C1_counterexample :
  ¬ (∀ st rid room pid msg p p',
       reachable default_env st → rooms st !! rid = Some room →
       RoomState.players (Room.state room) !! pid = Some p →
       coord_ok (PlayerState.x p) = true → coord_ok (PlayerState.y p) = true →
       RoomState.players (Room.state (apply_input default_env room pid msg).1) !! pid
         = Some p' →
       Z.abs (num_units (PlayerState.x p') - num_units (PlayerState.x p))
         ≤ units (MAX_MOVE_PER_INPUT default_env)).
Proof.
  intros H.
  set (p := {| PlayerState.x := PyFloat (S754_finite false 8994005115207683 (-41));
               PlayerState.y := PyFloat (float_of_Z 300);
               PlayerState.hp := 100; PlayerState.mana := 100 |}).
  set (p' := {| PlayerState.x := PyFloat (S754_finite false 4505798650626050 (-40));
                PlayerState.y := PyFloat (float_of_Z 300);
                PlayerState.hp := 100; PlayerState.mana := 100 |}).
  assert (∃ st room,
            reachable default_env st ∧ rooms st !! "room-000000" = Some room ∧
            RoomState.players (Room.state room) !! "p1" = Some p ∧
            RoomState.players
              (Room.state (apply_input default_env room "p1"
                             [("type", JStr "input"); ("dx", JNum (PyInt 8))]).1) !! "p1"
            = Some p') as (st & room & Hst & Hroom & Hp & Hp').
  { eexists _, _. split; [exists rounding_run; eexists; vm_compute; reflexivity|].
    split; [vm_compute; reflexivity|]. split; by vm_compute. }
  specialize (H st "room-000000" room "p1" _ p p' Hst Hroom Hp eq_refl eq_refl Hp').
  assert (Z.abs (num_units (PlayerState.x p') - num_units (PlayerState.x p))
          = units f8 + unit_scale / 2 ^ 41) as E by (by vm_compute).
  rewrite E in H.
  assert (0 < unit_scale / 2 ^ 41) as Hpos by (by vm_compute).
  change (units (MAX_MOVE_PER_INPUT default_env)) with (units f8) in H. lia.
Qed.

(** C1, amended: for a player inside the world and any request, whatever
    its sign or magnitude, [apply_input] raises nothing and moves each
    coordinate by at most the cap plus the rounding error of the one
    binary64 addition: by at most the cap itself whenever the sum of the
    coordinate and the clamped delta is a double, and otherwise by at most
    2^-40 more for any finite non-negative cap, 2^-41 more when the cap is
    at most 3000 (the default is 8).  A player at (180,300) asking for
    dx = 100 under the cap 8 ends at x = 188 exactly. *)
Theorem apply_input_move_bound (env : Env) (room : Room.t) (pid : string)
    (msg : list (string * jvalue)) (p : PlayerState.t) :
  parser_ok env →
  cap_ok (MAX_MOVE_PER_INPUT env) = true →
  RoomState.players (Room.state room) !! pid = Some p →
  coord_ok (PlayerState.x p) = true → coord_ok (PlayerState.y p) = true →
  num_ok (field msg "dx") = true → num_ok (field msg "dy") = true →
  (∃ p',
    apply_input env room pid msg = (Room.set_state_players (insert pid p') room, None) ∧
    let cap := units (MAX_MOVE_PER_INPUT env) in
    let mx := Z.abs (num_units (PlayerState.x p') - num_units (PlayerState.x p)) in
    let my := Z.abs (num_units (PlayerState.y p') - num_units (PlayerState.y p)) in
    mx ≤ cap + unit_scale / 2 ^ 40 ∧ my ≤ cap + unit_scale / 2 ^ 40 ∧
    (cap ≤ 3000 * unit_scale →
     mx ≤ cap + unit_scale / 2 ^ 41 ∧ my ≤ cap + unit_scale / 2 ^ 41) ∧
    (∀ px dx, float_of_num (PlayerState.x p) = Ok px →
       dx = clamp_delta (MAX_MOVE_PER_INPUT env) (read_delta env msg).1 →
       units (fadd px dx) = units px + units dx → mx ≤ cap) ∧
    (∀ py dy, float_of_num (PlayerState.y p) = Ok py →
       dy = clamp_delta (MAX_MOVE_PER_INPUT env) (read_delta env msg).2 →
       units (fadd py dy) = units py + units dy → my ≤ cap)) ∧
  position
    (apply_input default_env (room_with_p1 (PyInt 180) (PyInt 300)) "p1"
       [("type", JStr "input"); ("dx", JNum (PyInt 100)); ("dy", JNum (PyInt 0))]).1 "p1"
  = Some (PyFloat (float_of_Z 188), PyFloat (float_of_Z 300)).
Proof.
  intros Hparse Hcap Hp Hx Hy Hdx Hdy. split; [|by vm_compute].
  destruct (float_of_num_ok _ Hx) as (px & Ex & Vx & Wx & Ux).
  destruct (float_of_num_ok _ Hy) as (py & Ey & Vy & Wy & Uy).
  destruct (read_delta_valid env msg Hparse Hdx Hdy) as [Vdx Vdy].
  exists (moved env msg p px py).
  split; [by apply apply_input_moved|].
  cbn zeta. cbn [moved PlayerState.x PlayerState.y num_units].
  rewrite <- Ux, <- Uy.
  destruct (move_axis_bound _ Hcap px _ Vx Wx Vdx) as (_ & _ & Bx & Bx' & Bx'').
  destruct (move_axis_bound _ Hcap py _ Vy Wy Vdy) as (_ & _ & By & By' & By'').
  change (unit_scale / 2 ^ 40) with (2 ^ 1034).
  change (unit_scale / 2 ^ 41) with (2 ^ 1033).
  split; [exact Bx|]. split; [exact By|].
  split; [intros Hc; split; [by apply Bx'|by apply By']|].
  split.
  - intros qx dx Eq -> Hexact. rewrite Ex in Eq. injection Eq as <-. by apply Bx''.
  - intros qy dy Eq -> Hexact. rewrite Ey in Eq. injection Eq as <-. by apply By''.
Qed.

Lemma apply_input_move_bound_witness :
  ∃ p',
    apply_input default_env (room_with_p1 (PyInt 180) (PyInt 300)) "p1"
      [("type", JStr "input"); ("dx", JNum (PyInt 100))]
    = (Room.set_state_players (insert "p1" p') (room_with_p1 (PyInt 180) (PyInt 300)), None) ∧
    Z.abs (num_units (PlayerState.x p') - 180 * unit_scale)
      ≤ units f8 + unit_scale / 2 ^ 41.
Proof.
  destruct (apply_input_move_bound default_env (room_with_p1 (PyInt 180) (PyInt 300)) "p1"
              [("type", JStr "input"); ("dx", JNum (PyInt 100))]
              {| PlayerState.x := PyInt 180; PlayerState.y := PyInt 300;
                 PlayerState.hp := 100; PlayerState.mana := 100 |})
    as [(p' & E & _ & _ & H & _) _].
  - intros s f. discriminate.
  - reflexivity.
  - reflexivity.
  - reflexivity.
  - reflexivity.
  - reflexivity.
  - reflexivity.
  - exists p'. split; [exact E|]. apply H. vm_compute. discriminate.
Defined.

(** ** C2: the world bounds *)

(** What [apply_input] leaves at the player it addresses: the record it
    found, or the moved record when both coordinates convert. *)
Lemma apply_input_lookup env room pid msg p :
  RoomState.players (Room.state room) !! pid = Some p →
  coord_in_world (PlayerState.x p) → coord_in_world (PlayerState.y p) →
  ∃ px py,
    RoomState.players (Room.state (apply_input env room pid msg).1) !! pid
    = Some (moved env msg p px py).
Proof.
  intros Hp Wx Wy.
  destruct (float_of_num_in_world _ Wx) as (px & Ex & _).
  destruct (float_of_num_in_world _ Wy) as (py & Ey & _).
  exists px, py. rewrite (apply_input_moved env room pid msg p px py Hp Ex Ey).
  cbn. by rewrite lookup_insert_eq.
Qed.

Lemma player_reachable_in_world env p :
  player_reachable env p →
  coord_in_world (PlayerState.x p) ∧ coord_in_world (PlayerState.y p).
Proof.
  induction 1 as [px [-> | ->]|p p' room pid msg _ [Wx Wy] Hp Hp'].
  - cbn. lia.
  - cbn. lia.
  - destruct (apply_input_lookup env room pid msg p Hp Wx Wy) as (px & py & E).
    rewrite E in Hp'. injection Hp' as <-. apply moved_in_world.
Qed.

(** C2: every player record reached from a spawn position through calls
    of [apply_input], and every player record of every room of every state
    the server reaches, has both coordinates within [0, 5000]; the world
    clamp leaves a value of that range as it is (equal as Python compares
    floats, and the very same double unless the value is the negative
    zero), and clamping twice is clamping once. *)
Theorem world_bounds_invariant (env : Env) :
  (∀ p, player_reachable env p →
        coord_in_world (PlayerState.x p) ∧ coord_in_world (PlayerState.y p)) ∧
  (∀ st rid room pid p,
     reachable env st → rooms st !! rid = Some room →
     RoomState.players (Room.state room) !! pid = Some p →
     coord_in_world (PlayerState.x p) ∧ coord_in_world (PlayerState.y p)) ∧
  (∀ v, in_world v →
        feq (clamp_world v) v = true ∧ (v ≠ S754_zero true → clamp_world v = v)) ∧
  (∀ v, in_world (clamp_world v) ∧ clamp_world (clamp_world v) = clamp_world v).
Proof.
  split; [apply player_reachable_in_world|].
  split.
  { intros st rid room pid p Hst Hr Hp.
    destruct (reachable_inv env st Hst rid room Hr) as [_ Hpl].
    destruct (Hpl pid p Hp) as (? & ? & _). done. }
  split.
  { intros v Hv. split; [by apply clamp_world_in_world|by apply clamp_world_fixed]. }
  intros v. split; [apply clamp_world_range|apply clamp_world_idem].
Qed.

Lemma world_bounds_invariant_witness :
  (RoomState.players
     (Room.state
        (apply_input default_env (paired_room "room-000000" 1%positive 2%positive) "p2"
           [("type", JStr "input"); ("dx", JNum (PyInt 9000)); ("dy", JNum (PyInt (-3)))]).1)
     !! "p2"
   = Some {| PlayerState.x := PyFloat (float_of_Z 628);
             PlayerState.y := PyFloat (float_of_Z 297);
             PlayerState.hp := 100; PlayerState.mana := 100 |} ∧
   coord_in_world (PyFloat (float_of_Z 628)) ∧ coord_in_world (PyFloat (float_of_Z 297))) ∧
  run default_env wall_run initial = Some (tt, wall_state, wall_run_sends) ∧
  coord_in_world (PyFloat f0) ∧ coord_in_world (PyFloat f484).
Proof.
  split.
  - assert (RoomState.players
     (Room.state
        (apply_input default_env (paired_room "room-000000" 1%positive 2%positive) "p2"
           [("type", JStr "input"); ("dx", JNum (PyInt 9000)); ("dy", JNum (PyInt (-3)))]).1)
     !! "p2"
     = Some {| PlayerState.x := PyFloat (float_of_Z 628);
               PlayerState.y := PyFloat (float_of_Z 297);
               PlayerState.hp := 100; PlayerState.mana := 100 |}) as Hp
      by (vm_compute; reflexivity).
    split; [exact Hp|].
    apply (proj1 (world_bounds_invariant default_env)
             {| PlayerState.x := PyFloat (float_of_Z 628);
                PlayerState.y := PyFloat (float_of_Z 297);
                PlayerState.hp := 100; PlayerState.mana := 100 |}).
    apply (reach_input default_env (spawn 620) _
             (paired_room "room-000000" 1%positive 2%positive) "p2"
             [("type", JStr "input"); ("dx", JNum (PyInt 9000)); ("dy", JNum (PyInt (-3)))]).
    + apply reach_spawn. by right.
    + reflexivity.
    + exact Hp.
  - assert (run default_env wall_run initial = Some (tt, wall_state, wall_run_sends)) as Hrun
      by (vm_compute; reflexivity).
    split; [exact Hrun|].
    apply (proj1 (proj2 (world_bounds_invariant default_env)) wall_state "room-000000"
             (room_with_p1 (PyFloat f0) (PyFloat f484)) "p1"
             {| PlayerState.x := PyFloat f0; PlayerState.y := PyFloat f484;
                PlayerState.hp := 100; PlayerState.mana := 100 |}).
    + exists wall_run, wall_run_sends. exact Hrun.
    + reflexivity.
    + reflexivity.
Defined.

(** ** What [apply_input] leaves alone *)

Lemma apply_input_frame env room pid msg :
  let room' := (apply_input env room pid msg).1 in
  Room.room_id room' = Room.room_id room ∧
  Room.players room' = Room.players room ∧
  RoomState.tick (Room.state room') = RoomState.tick (Room.state room) ∧
  (∀ pid', pid' ≠ pid →
     RoomState.players (Room.state room') !! pid'
     = RoomState.players (Room.state room) !! pid') ∧
  match RoomState.players (Room.state room) !! pid with
  | None => RoomState.players (Room.state room') !! pid = None
  | Some p =>
      ∃ p', RoomState.players (Room.state room') !! pid = Some p' ∧
            PlayerState.hp p' = PlayerState.hp p ∧
            PlayerState.mana p' = PlayerState.mana p
  end.
Proof.
  unfold apply_input.
  destruct (RoomState.players (Room.state room) !! pid) as [p|] eqn:Hp; [|done].
  destruct (read_delta env msg) as [dx dy].
  destruct (float_of_num (PlayerState.x p)) as [px|e]; cbn.
  - destruct (float_of_num (PlayerState.y p)) as [py|e]; cbn.
    + repeat split; try done.
      * intros pid' Hne. by rewrite !lookup_insert_ne.
      * eexists. by rewrite lookup_insert_eq.
    + repeat split; try done.
      * intros pid' Hne. by rewrite !lookup_insert_ne.
      * eexists. by rewrite lookup_insert_eq.
  - repeat split; try done. by exists p.
Qed.

(** ** C3: the tick counter *)










Lemma elem_of_concat {A} (x : A) (ls : list (list A)) :
  x ∈ concat ls ↔ ∃ l, l ∈ ls ∧ x ∈ l.
Proof.
  rewrite list_elem_of_In, in_concat. split.
  - intros (l & ? & ?). exists l. by rewrite !list_elem_of_In.
  - intros (l & ? & ?). exists l. by rewrite <- !list_elem_of_In.
Qed.

(** The sends of a broadcast are exactly one per member. *)
Lemma elem_of_broadcast_sends room pl s :
  s ∈ broadcast_sends room pl ↔
  ∃ pid pc, Room.players room !! pid = Some pc ∧ s = Send (PlayerConn.ws pc) pl.
Proof.
  unfold broadcast_sends. rewrite list_elem_of_fmap. split.
  - intros ([pid pc] & -> & H%elem_of_map_to_list). by exists pid, pc.
  - intros (pid & pc & H & ->). exists (pid, pc). split; [done|].
    by apply elem_of_map_to_list.
Qed.



(** ** Matchmaking *)

Lemma broadcast_sends_paired rid a b pl :
  broadcast_sends (paired_room rid a b) pl = [Send a pl; Send b pl].
Proof. reflexivity. Qed.

Lemma try_matchmaking_idle o st :
  (size (queue st) < 2)%nat → try_matchmaking o st = Some (tt, st, []).
Proof.
  intros H. unfold try_matchmaking. run_M. cbn -[Nat.ltb].
  apply Nat.ltb_lt in H. by rewrite H.
Qed.

Lemma try_matchmaking_pair o st :
  (2 ≤ size (queue st))%nat → pop1 o ∈ queue st → pop2 o ∈ queue st → pop1 o ≠ pop2 o →
  try_matchmaking o st = Some (tt, matched o st, matched_sends o).
Proof.
  intros H Ha Hb Hab. unfold try_matchmaking, create_room_with_pair. run_M. cbn -[Nat.ltb].
  apply Nat.ltb_ge in H. rewrite H. cbn.
  rewrite decide_True by done. cbn.
  rewrite decide_True by set_solver. cbn. reflexivity.
Qed.

(** The oracle can only name what the set holds. *)
Lemma try_matchmaking_feasible o st st' out :
  (2 ≤ size (queue st))%nat → try_matchmaking o st = Some (tt, st', out) →
  pop1 o ∈ queue st ∧ pop2 o ∈ queue st ∧ pop1 o ≠ pop2 o.
Proof.
  intros H. unfold try_matchmaking, create_room_with_pair. run_M. cbn -[Nat.ltb].
  apply Nat.ltb_ge in H. rewrite H. cbn.
  case_decide as Ha; [|done]. cbn. case_decide as Hb; [|done]. intros _.
  set_solver.
Qed.

Lemma matched_queue_size o st :
  pop1 o ∈ queue st → pop2 o ∈ queue st → pop1 o ≠ pop2 o →
  size (queue (matched o st)) = (size (queue st) - 2)%nat.
Proof.
  intros Ha Hb Hab. cbn.
  rewrite !size_difference by set_solver. rewrite !size_singleton. lia.
Qed.

(** Arrivals are matched as they come: the queue never holds two. *)
Lemma step_queue env ev st st' out :
  step env ev st = Some (tt, st', out) →
  (size (queue st) ≤ 1)%nat → (size (queue st') ≤ 1)%nat.
Proof.
  destruct ev as [ws o|ws raw|ws|]; cbn [step].
  - unfold ws_handler_open. run_M. cbn.
    set (st1 := set_queue (λ q, {[ws]} ∪ q) st).
    destruct (try_matchmaking o st1) as [[[[] st2] out2]|] eqn:E; [|done].
    intros [= <- <-] Hq.
    destruct (Nat.lt_ge_cases (size (queue st1)) 2) as [Hlt|Hge].
    + rewrite try_matchmaking_idle in E by done. injection E as <- <-. lia.
    + destruct (try_matchmaking_feasible o st1 _ _ Hge E) as (Ha & Hb & Hab).
      rewrite try_matchmaking_pair in E by done. injection E as <- <-.
      rewrite matched_queue_size by done.
      assert (size (queue st1) ≤ 2)%nat; [|lia].
      cbn. rewrite size_union_alt, size_singleton.
      pose proof (subseteq_size (queue st ∖ {[ws]}) (queue st) ltac:(set_solver)). lia.
  - unfold mbind, M_bind.
    destruct (ws_handler_recv env ws raw st) as [[[e st1] out1]|] eqn:E; [|done].
    assert (queue st1 = queue st) as Hq1.
    { revert E. unfold ws_handler_recv.
      destruct raw as [[| | | | |msg]|]; run_M; cbn; try (by intros [= <- <- <-]).
      destruct (is_type (dict_get msg "type") "ping"); cbn; [by intros [= <- <- <-]|].
      destruct (player_index st !! ws) as [c|]; cbn; [|by intros [= <- <- <-]].
      destruct (rooms st !! PlayerConn.room_id c) as [room|]; cbn;
        [|by intros [= <- <- <-]].
      destruct (is_type (dict_get msg "type") "input"); cbn; [|by intros [= <- <- <-]].
      destruct (apply_input env room (PlayerConn.player_id c) msg) as [room' e'].
      cbn. by intros [= <- <- <-]. }
    destruct e as [e|].
    + unfold ws_handler_close, remove_client. run_M. cbn.
      destruct (player_index st1 !! ws) as [c|]; cbn;
        [destruct (rooms st1 !! PlayerConn.room_id c) as [room|]; cbn;
         [case_decide; cbn|]|];
        intros [= <- <-] Hq; cbn; rewrite Hq1;
        pose proof (subseteq_size (queue st ∖ {[ws]}) (queue st) ltac:(set_solver)); lia.
    + unfold mret, M_ret. intros [= <- <-]. by rewrite Hq1.
  - unfold ws_handler_close, remove_client. run_M. cbn.
    destruct (player_index st !! ws) as [c|]; cbn;
      [destruct (rooms st !! PlayerConn.room_id c) as [room|]; cbn;
       [case_decide; cbn|]|];
      intros [= <- <-] Hq; cbn;
      pose proof (subseteq_size (queue st ∖ {[ws]}) (queue st) ltac:(set_solver)); lia.
  - unfold snapshot_loop_iteration. run_M. cbn. by intros [= <- <-].
Qed.

Lemma reachable_queue env st : reachable env st → (size (queue st) ≤ 1)%nat.
Proof.
  intros (evs & out & H).
  assert (size (queue initial) ≤ 1)%nat as H0.
  { unfold initial. cbn. rewrite size_empty. lia. }
  revert H H0. generalize initial. revert out.
  induction evs as [|ev evs IH]; intros out st0; cbn [run].
  - unfold mret, M_ret. by intros [= <- <-].
  - unfold mbind, M_bind.
    destruct (step env ev st0) as [[[[] st1] out1]|] eqn:E; [|done].
    destruct (run env evs st1) as [[[[] st2] out2]|] eqn:E2; [|done].
    intros [= <- <-] Hq. eapply IH; [exact E2|]. by eapply step_queue.
Qed.

(** ** C4: one pairing per call *)

(** C4, as the specification states it, fails: [try_matchmaking] has no
    loop.  On a queue of four it removes two connections and forms one
    room; two connections stay queued. *)
Lemma C4_counterexample :
  ¬ (∀ o st st' out,
       (2 ≤ size (queue st))%nat → try_matchmaking o st = Some (tt, st', out) →
       (size (queue st') ≤ 1)%nat ∧
       size (rooms st') = (size (rooms st) + size (queue st) / 2)%nat).
Proof.
  intros H.
  destruct (H {| new_room_id := "room-000000"; pop1 := 1%positive; pop2 := 2%positive |}
              queue_of_four _ _ ltac:(vm_compute; lia) eq_refl) as [Hq _].
  vm_compute in Hq. lia.
Qed.

Lemma two_elements (q : gset conn) :
  (2 ≤ size q)%nat → ∃ a b, a ∈ q ∧ b ∈ q ∧ a ≠ b.
Proof.
  unfold size, set_size. cbn. intros H.
  pose proof (NoDup_elements q) as Hnd.
  destruct (elements q) as [|a [|b l]] eqn:E; cbn in H; try lia.
  exists a, b.
  assert (a ∈ elements q ∧ b ∈ elements q) as [Ha Hb].
  { rewrite E. split; [apply elem_of_cons; by left|].
    apply elem_of_cons; right. apply elem_of_cons; by left. }
  apply elem_of_elements in Ha, Hb. split; [done|]. split; [done|].
  apply NoDup_cons in Hnd as [Hn _]. intros ->. apply Hn. apply elem_of_cons. by left.
Qed.

(** C4, amended: one call of [try_matchmaking] makes at most one pair.
    With fewer than two queued connections it does nothing; with two or
    more it removes exactly the two connections the set pops, which are
    distinct, registers one room whose members "p1" and "p2" are those two,
    and leaves every other room and the rest of the queue as they were.
    Two such connections always exist, and because the call runs on every
    arrival, the queue of a reachable state never holds more than one
    connection. *)
Theorem try_matchmaking_pairs_once (env : Env) (o : match_oracle) (st : Server) :
  ((size (queue st) < 2)%nat → try_matchmaking o st = Some (tt, st, [])) ∧
  ((2 ≤ size (queue st))%nat →
   (∃ a b, a ∈ queue st ∧ b ∈ queue st ∧ a ≠ b) ∧
   (∀ st' out, try_matchmaking o st = Some (tt, st', out) →
      pop1 o ∈ queue st ∧ pop2 o ∈ queue st ∧ pop1 o ≠ pop2 o) ∧
   (pop1 o ∈ queue st → pop2 o ∈ queue st → pop1 o ≠ pop2 o →
      try_matchmaking o st = Some (tt, matched o st, matched_sends o) ∧
      queue (matched o st) = queue st ∖ {[pop1 o; pop2 o]} ∧
      size (queue (matched o st)) = (size (queue st) - 2)%nat ∧
      (∀ rid, rooms (matched o st) !! rid =
              if decide (rid = new_room_id o)
              then Some (paired_room (new_room_id o) (pop1 o) (pop2 o))
              else rooms st !! rid) ∧
      size (Room.players (paired_room (new_room_id o) (pop1 o) (pop2 o))) = 2%nat ∧
      PlayerConn.ws <$> Room.players (paired_room (new_room_id o) (pop1 o) (pop2 o)) !! "p1"
        = Some (pop1 o) ∧
      PlayerConn.ws <$> Room.players (paired_room (new_room_id o) (pop1 o) (pop2 o)) !! "p2"
        = Some (pop2 o))) ∧
  (reachable env st → (size (queue st) ≤ 1)%nat).
Proof.
  split; [apply try_matchmaking_idle|]. split; [|apply reachable_queue].
  intros Hsz. split; [by apply two_elements|].
  split; [intros st' out; by apply try_matchmaking_feasible|].
  intros Ha Hb Hab.
  split; [by apply try_matchmaking_pair|].
  split; [cbn; set_solver|].
  split; [by apply matched_queue_size|].
  split; [|done].
  intros rid. cbn. rewrite lookup_insert. by repeat case_decide.
Qed.

Lemma try_matchmaking_pairs_once_witness :
  try_matchmaking {| new_room_id := "room-000000"; pop1 := 3%positive; pop2 := 1%positive |}
    queue_of_four
  = Some (tt, matched {| new_room_id := "room-000000"; pop1 := 3%positive; pop2 := 1%positive |}
                queue_of_four,
          matched_sends {| new_room_id := "room-000000"; pop1 := 3%positive; pop2 := 1%positive |}).
Proof.
  apply (try_matchmaking_pairs_once default_env
           {| new_room_id := "room-000000"; pop1 := 3%positive; pop2 := 1%positive |}
           queue_of_four).
  - vm_compute. lia.
  - by vm_compute.
  - by vm_compute.
  - by vm_compute.
Defined.

(** ** C6: who becomes "p1" *)

Lemma ws_handler_open_eq ws o st :
  ws_handler_open ws o st =
  match try_matchmaking o (set_queue (λ q, {[ws]} ∪ q) st) with
  | Some (_, st', out) => Some (tt, st', Send ws (QueueJoined PUBLIC_QUEUE) :: out)
  | None => None
  end.
Proof.
  unfold ws_handler_open. run_M. cbn -[try_matchmaking].
  by destruct (try_matchmaking o _) as [[[[] st'] out]|].
Qed.

Lemma run_two_arrivals env A B o1 o2 :
  run env [EvConnect A o1; EvConnect B o2] initial =
  match try_matchmaking o2 (set_queue (λ _, {[B]} ∪ ({[A]} ∪ ∅)) initial) with
  | Some (_, st', out) =>
      Some (tt, st', [Send A (QueueJoined PUBLIC_QUEUE);
                      Send B (QueueJoined PUBLIC_QUEUE)] ++ out)
  | None => None
  end.
Proof.
  cbn [run step]. unfold mbind, M_bind, mret, M_ret.
  rewrite (ws_handler_open_eq A), try_matchmaking_idle.
  2:{ change (size ({[A]} ∪ ∅ : gset conn) < 2)%nat.
      rewrite union_empty_r_L, size_singleton. lia. }
  rewrite (ws_handler_open_eq B).
  change (set_queue (λ q, {[B]} ∪ q) (set_queue (λ q, {[A]} ∪ q) initial))
    with (set_queue (λ _ : gset conn, {[B]} ∪ ({[A]} ∪ ∅)) initial).
  destruct (try_matchmaking o2 _) as [[[[] st2] out2]|]; [|done].
  cbn. by rewrite app_nil_r.
Qed.

Lemma size_two (A B : conn) : A ≠ B → size ({[B]} ∪ ({[A]} ∪ ∅) : gset conn) = 2%nat.
Proof.
  intros Hne. rewrite union_empty_r_L, size_union by set_solver.
  by rewrite !size_singleton.
Qed.

(** C6, as the specification states it, fails: the queue is a set, and the
    set may pop the second arrival first.  Connection 1 arrives, then
    connection 2; the set pops 2 first; connection 1, the first arrival,
    is "p2". *)
Lemma C6_counterexample :
  ¬ (∀ A B o1 o2 st' out,
       A ≠ B →
       run default_env [EvConnect A o1; EvConnect B o2] initial = Some (tt, st', out) →
       PlayerConn.player_id <$> player_index st' !! A = Some "p1").
Proof.
  intros H.
  specialize (H 1%positive 2%positive
    {| new_room_id := "room-000000"; pop1 := 2%positive; pop2 := 1%positive |}
    {| new_room_id := "room-000000"; pop1 := 2%positive; pop2 := 1%positive |}
    _ _ ltac:(done) eq_refl).
  vm_compute in H. discriminate H.
Qed.

(** C6, amended: when two connections arrive in sequence into an empty
    queue, the connection the set pops first becomes "p1" and spawns at
    x = 180, the one popped second becomes "p2" and spawns at x = 620;
    which of the two arrivals is popped first is not fixed by the order of
    arrival, and both orders are runs of the server.  Each connection is
    sent [queue_joined] on arrival, then each is sent a [welcome] with its
    own player id and the shared room id, then both are sent [match_found]
    listing ["p1", "p2"]. *)
Theorem first_popped_is_p1 (env : Env) (A B : conn) (o1 o2 : match_oracle) :
  A ≠ B →
  (∀ st' out,
     run env [EvConnect A o1; EvConnect B o2] initial = Some (tt, st', out) →
     ((pop1 o2 = A ∧ pop2 o2 = B) ∨ (pop1 o2 = B ∧ pop2 o2 = A)) ∧
     queue st' = ∅ ∧
     player_index st' !! pop1 o2 = Some (PlayerConn.mk (pop1 o2) "p1" (new_room_id o2)) ∧
     player_index st' !! pop2 o2 = Some (PlayerConn.mk (pop2 o2) "p2" (new_room_id o2)) ∧
     rooms st' !! new_room_id o2
       = Some (paired_room (new_room_id o2) (pop1 o2) (pop2 o2)) ∧
     position (paired_room (new_room_id o2) (pop1 o2) (pop2 o2)) "p1"
       = Some (PyInt 180, PyInt 300) ∧
     position (paired_room (new_room_id o2) (pop1 o2) (pop2 o2)) "p2"
       = Some (PyInt 620, PyInt 300) ∧
     out = [Send A (QueueJoined PUBLIC_QUEUE);
            Send B (QueueJoined PUBLIC_QUEUE);
            Send (pop1 o2) (Welcome "p1" (new_room_id o2));
            Send (pop2 o2) (Welcome "p2" (new_room_id o2));
            Send (pop1 o2) (MatchFound (new_room_id o2) ["p1"; "p2"]);
            Send (pop2 o2) (MatchFound (new_room_id o2) ["p1"; "p2"])]) ∧
  ((pop1 o2 = A ∧ pop2 o2 = B) ∨ (pop1 o2 = B ∧ pop2 o2 = A) →
   ∃ st' out, run env [EvConnect A o1; EvConnect B o2] initial = Some (tt, st', out)).
Proof.
  intros Hne.
  set (st1 := set_queue (λ _ : gset conn, {[B]} ∪ ({[A]} ∪ ∅)) initial).
  assert (2 ≤ size (queue st1))%nat as Hsz by (cbn; rewrite size_two by done; lia).
  split.
  - intros st' out. rewrite run_two_arrivals. fold st1.
    destruct (try_matchmaking o2 st1) as [[[[] st2] out2]|] eqn:E; [|done].
    intros [= <- <-].
    destruct (try_matchmaking_feasible o2 st1 _ _ Hsz E) as (Ha & Hb & Hab).
    rewrite try_matchmaking_pair in E by done. injection E as <- <-.
    cbn in Ha, Hb.
    split; [set_solver|]. split; [cbn; set_solver|].
    split; [cbn; by rewrite lookup_insert_ne, lookup_insert_eq|].
    split; [cbn; by rewrite lookup_insert_eq|].
    split; [cbn; by rewrite lookup_insert_eq|].
    done.
  - intros Hpop. rewrite run_two_arrivals. fold st1.
    rewrite try_matchmaking_pair; [by eexists _, _|done|cbn; set_solver..|].
    destruct Hpop as [[-> ->]|[-> ->]]; done.
Qed.

Lemma first_popped_is_p1_witness :
  ∃ st' out,
    run default_env
      [EvConnect 1%positive
         {| new_room_id := "room-000000"; pop1 := 2%positive; pop2 := 1%positive |};
       EvConnect 2%positive
         {| new_room_id := "room-000000"; pop1 := 2%positive; pop2 := 1%positive |}]
      initial = Some (tt, st', out).
Proof.
  apply (first_popped_is_p1 default_env 1%positive 2%positive).
  - discriminate.
  - right. split; reflexivity.
Defined.

(** ** C7: matching key sets *)

Lemma apply_input_keys env room pid msg :
  keys_match room → keys_match (apply_input env room pid msg).1.
Proof.
  unfold keys_match. intros Hk.
  pose proof (apply_input_frame env room pid msg) as (_ & Hpl & _ & Hother & Hpid).
  cbn zeta in *. rewrite Hpl, Hk. apply set_eq. intros k. rewrite !elem_of_dom.
  destruct (decide (k = pid)) as [->|Hne].
  - destruct (RoomState.players (Room.state room) !! pid) as [p|].
    + destruct Hpid as (p' & -> & _). split; intros _; by eexists.
    + by rewrite Hpid.
  - by rewrite Hother.
Qed.

Lemma leave_keys room pid :
  keys_match room →
  keys_match (Room.set_state_players (delete pid) (Room.set_players (delete pid) room)).
Proof. unfold keys_match. cbn. intros H. by rewrite !dom_delete_L, H. Qed.

(** The rooms [remove_client] leaves are rooms it found, the room of the
    departed player having lost that player. *)
Lemma remove_client_rooms ws st st' out rid room' :
  remove_client ws st = Some (tt, st', out) → rooms st' !! rid = Some room' →
  rooms st !! rid = Some room' ∨
  ∃ room pid, rooms st !! rid = Some room ∧
    room' = Room.set_state_players (delete pid) (Room.set_players (delete pid) room).
Proof.
  unfold remove_client. run_M. cbn.
  destruct (player_index st !! ws) as [c|]; cbn; [|intros [= <- <-]; by left].
  destruct (rooms st !! PlayerConn.room_id c) as [room|] eqn:Hr; cbn;
    [|intros [= <- <-]; by left].
  assert (
    (<[PlayerConn.room_id c :=
        Room.set_state_players (delete (PlayerConn.player_id c))
          (Room.set_players (delete (PlayerConn.player_id c)) room)]> (rooms st)) !! rid
      = Some room' →
    rooms st !! rid = Some room' ∨
    ∃ room0 pid, rooms st !! rid = Some room0 ∧
      room' = Room.set_state_players (delete pid) (Room.set_players (delete pid) room0)) as Hins.
  { rewrite lookup_insert. case_decide as Hk.
    - intros [= <-]. right. subst rid. by exists room, (PlayerConn.player_id c).
    - by left. }
  case_decide; cbn; intros [= <- <-]; cbn.
  - intros [_ Hl]%lookup_delete_Some. by apply Hins.
  - by apply Hins.
Qed.

(** C7: in every state the server reaches, each room's mapping from player
    id to connection and its mapping from player id to player state have
    the same key set; and each of the three operations that touch a room
    keeps it so: the room [create_room_with_pair] registers has the keys
    "p1" and "p2" in both, [apply_input] changes no key set, and
    [remove_client] removes the departing id from both. *)
Theorem room_key_sets_match (env : Env) :
  (∀ st rid room, reachable env st → rooms st !! rid = Some room → keys_match room) ∧
  (∀ rid a b st,
     ∃ room st',
       create_room_with_pair rid a b st = Some (room, st', []) ∧
       rooms st' !! rid = Some room ∧
       dom (Room.players room) = {["p1"; "p2"]} ∧
       dom (RoomState.players (Room.state room)) = {["p1"; "p2"]} ∧
       keys_match room) ∧
  (∀ room pid msg, keys_match room → keys_match (apply_input env room pid msg).1) ∧
  (∀ ws st st' out,
     remove_client ws st = Some (tt, st', out) →
     (∀ rid room, rooms st !! rid = Some room → keys_match room) →
     (∀ rid room, rooms st' !! rid = Some room → keys_match room)).
Proof.
  split.
  { intros st rid room Hst Hr. by destruct (reachable_inv env st Hst rid room Hr). }
  split.
  { intros rid a b st. eexists _, _. split; [reflexivity|].
    split; [cbn; by rewrite lookup_insert_eq|].
    assert (∀ V (u v : V), dom (<["p2" := u]> (<["p1" := v]> (∅ : gmap string V)))
                           = ({["p1"; "p2"]} : gset string)) as Hd.
    { intros V u v. rewrite !dom_insert_L, dom_empty_L. set_solver. }
    cbn. unfold keys_match. cbn. by rewrite !Hd. }
  split; [apply apply_input_keys|].
  intros ws st st' out Hrm Hinv rid room' Hr'.
  destruct (remove_client_rooms ws st st' out rid room' Hrm Hr')
    as [Hr|(room & pid & Hr & ->)].
  - by eapply Hinv.
  - apply leave_keys. by eapply Hinv.
Qed.

Lemma room_key_sets_match_witness :
  keys_match (apply_input default_env (paired_room "room-000000" 1%positive 2%positive) "p1"
                [("type", JStr "input"); ("dx", JNum (PyInt 3))]).1.
Proof.
  apply (room_key_sets_match default_env). reflexivity.
Defined.

(** ** The registries in lockstep *)

Lemma registry_consistent_initial : registry_consistent initial.
Proof.
  split.
  - intros rid room. unfold initial. cbn. by rewrite lookup_empty.
  - intros ws. unfold initial. cbn. set_solver.
Qed.

Lemma matched_consistent o st :
  registry_consistent st → pop1 o ∈ queue st → pop2 o ∈ queue st → pop1 o ≠ pop2 o →
  registry_consistent (matched o st).
Proof.
  intros [Hr Hq] Ha Hb Hab. split.
  - intros rid room. cbn. rewrite lookup_insert. case_decide as Hk.
    + intros [= <-]. subst rid. split; [done|]. intros pid pc. cbn.
      rewrite !lookup_insert. repeat case_decide; try done;
        intros [= <-]; cbn in *; by subst.
    + intros Hroom. destruct (Hr rid room Hroom) as [Hid Hmem]. split; [done|].
      intros pid pc Hpc. destruct (Hmem pid pc Hpc) as (Hi & ? & ?).
      split; [|done]. rewrite !lookup_insert_ne; [done|..].
      * intros E. rewrite <- E, (Hq _ Ha) in Hi. done.
      * intros E. rewrite <- E, (Hq _ Hb) in Hi. done.
  - intros ws. cbn. intros Hws.
    rewrite !lookup_insert_ne by set_solver. apply Hq. set_solver.
Qed.

Lemma ws_handler_open_consistent ws o st st' out :
  ws_handler_open ws o st = Some (tt, st', out) →
  arrival_fresh st (EvConnect ws o) → registry_consistent st → registry_consistent st'.
Proof.
  rewrite ws_handler_open_eq. intros H [Hfq Hfi] [Hr Hq].
  set (st1 := set_queue (λ q, {[ws]} ∪ q) st) in *.
  assert (registry_consistent st1) as H1.
  { split; [exact Hr|]. intros ws'. cbn. intros [->%elem_of_singleton|?]%elem_of_union;
      [done|by apply Hq]. }
  destruct (try_matchmaking o st1) as [[[[] st2] out2]|] eqn:E; [|done].
  injection H as <- <-.
  destruct (Nat.lt_ge_cases (size (queue st1)) 2) as [Hlt|Hge].
  - rewrite try_matchmaking_idle in E by done. by injection E as <- <-.
  - destruct (try_matchmaking_feasible o st1 _ _ Hge E) as (Ha & Hb & Hab).
    rewrite try_matchmaking_pair in E by done. injection E as <- <-.
    by apply matched_consistent.
Qed.

Lemma remove_client_consistent ws st st' out :
  remove_client ws st = Some (tt, st', out) →
  registry_consistent st → registry_consistent st'.
Proof.
  intros Hrm [Hr Hq].
  assert (player_index st' = delete ws (player_index st) ∧ queue st' = queue st ∖ {[ws]})
    as [Hi' Hq'].
  { revert Hrm. unfold remove_client. run_M. cbn.
    destruct (player_index st !! ws) as [c|]; cbn;
      [destruct (rooms st !! PlayerConn.room_id c) as [room|]; cbn;
       [case_decide; cbn|]|]; by intros [= <- <-]. }
  split.
  - intros rid room' Hroom'.
    assert (∀ room pid pc,
      rooms st !! rid = Some room → Room.players room !! pid = Some pc →
      PlayerConn.ws pc = ws → player_index st !! ws = Some pc ∧
      PlayerConn.room_id pc = rid ∧ PlayerConn.player_id pc = pid) as Hsame.
    { intros room pid pc Hroom Hpc <-. by destruct (Hr rid room Hroom) as [_ Hmem];
        apply Hmem. }
    revert Hrm Hroom'. unfold remove_client. run_M. cbn.
    destruct (player_index st !! ws) as [c|] eqn:Hc; cbn.
    + destruct (rooms st !! PlayerConn.room_id c) as [room|] eqn:Hrc; cbn.
      * assert (∀ room',
          (<[PlayerConn.room_id c :=
               Room.set_state_players (delete (PlayerConn.player_id c))
                 (Room.set_players (delete (PlayerConn.player_id c)) room)]> (rooms st)) !! rid
            = Some room' →
          Room.room_id room' = rid ∧
          ∀ pid pc, Room.players room' !! pid = Some pc →
            delete ws (player_index st) !! PlayerConn.ws pc = Some pc ∧
            PlayerConn.room_id pc = rid ∧ PlayerConn.player_id pc = pid) as Hins.
        { intros r'. rewrite lookup_insert. case_decide as Hk.
          - intros [= <-]. subst rid. destruct (Hr _ _ Hrc) as [Hid Hmem].
            split; [done|]. intros pid pc. cbn. intros [Hne Hpc]%lookup_delete_Some.
            destruct (Hmem pid pc Hpc) as (Hi & ? & ?). split; [|done].
            rewrite lookup_delete_ne; [done|]. intros E.
            destruct (Hsame room pid pc Hrc Hpc (eq_sym E)) as (Hi2 & _ & Hp2).
            try rewrite Hc in Hi2. injection Hi2 as ->. congruence.
          - intros Hroom. destruct (Hr _ _ Hroom) as [Hid Hmem]. split; [done|].
            intros pid pc Hpc. destruct (Hmem pid pc Hpc) as (Hi & ? & ?).
            split; [|done]. rewrite lookup_delete_ne; [done|]. intros E.
            destruct (Hsame r' pid pc Hroom Hpc (eq_sym E)) as (Hi2 & Hr2 & _).
            try rewrite Hc in Hi2. injection Hi2 as ->. congruence. }
        case_decide; cbn; intros [= <- <-]; cbn.
        -- intros [_ Hl]%lookup_delete_Some. by apply Hins.
        -- apply Hins.
      * intros [= <- <-]. cbn. intros Hroom. destruct (Hr _ _ Hroom) as [Hid Hmem].
        split; [done|]. intros pid pc Hpc. destruct (Hmem pid pc Hpc) as (Hi & ? & ?).
        split; [|done]. rewrite lookup_delete_ne; [done|]. intros E.
        destruct (Hsame room' pid pc Hroom Hpc (eq_sym E)) as (Hi2 & Hr2 & _).
        try rewrite Hc in Hi2. injection Hi2 as ->. congruence.
    + intros [= <- <-]. cbn. intros Hroom. destruct (Hr _ _ Hroom) as [Hid Hmem].
      split; [done|]. intros pid pc Hpc. destruct (Hmem pid pc Hpc) as (Hi & ? & ?).
      split; [|done]. rewrite lookup_delete_ne; [done|]. intros E.
      rewrite E, Hi in Hc. done.
  - intros ws'. rewrite Hi', Hq'. intros [Hin Hne]%elem_of_difference.
    rewrite lookup_delete_ne by set_solver. by apply Hq.
Qed.

Lemma ws_handler_recv_consistent env ws raw st e st' out :
  ws_handler_recv env ws raw st = Some (e, st', out) →
  registry_consistent st → registry_consistent st'.
Proof.
  unfold ws_handler_recv.
  destruct raw as [[| | | | |msg]|]; run_M; cbn; try (by intros [= <- <- <-]).
  destruct (is_type (dict_get msg "type") "ping"); cbn; [by intros [= <- <- <-]|].
  destruct (player_index st !! ws) as [c|]; cbn; [|by intros [= <- <- <-]].
  destruct (rooms st !! PlayerConn.room_id c) as [room|] eqn:Hrc; cbn;
    [|by intros [= <- <- <-]].
  destruct (is_type (dict_get msg "type") "input"); cbn; [|by intros [= <- <- <-]].
  pose proof (apply_input_frame env room (PlayerConn.player_id c) msg) as (Hid & Hpl & _).
  destruct (apply_input env room (PlayerConn.player_id c) msg) as [room' e'].
  cbn in *. intros [= <- <- <-] [Hr Hq]. split; [|exact Hq].
  intros rid r. cbn. rewrite lookup_insert. case_decide as Hk.
  - intros [= <-]. subst rid. rewrite Hid, Hpl. by apply Hr.
  - apply Hr.
Qed.

Lemma snapshot_loop_iteration_consistent st st' out :
  snapshot_loop_iteration st = Some (tt, st', out) →
  registry_consistent st → registry_consistent st'.
Proof.
  unfold snapshot_loop_iteration. run_M. cbn. intros [= <- <-] [Hr Hq].
  split; [|exact Hq]. intros rid r. cbn. rewrite lookup_fmap.
  destruct (rooms st !! rid) as [room|] eqn:Hroom; [|done]. intros [= <-]. cbn.
  by apply Hr.
Qed.

Lemma step_consistent env ev st st' out :
  step env ev st = Some (tt, st', out) → arrival_fresh st ev →
  registry_consistent st → registry_consistent st'.
Proof.
  destruct ev as [ws o|ws raw|ws|]; cbn [step].
  - apply ws_handler_open_consistent.
  - unfold mbind, M_bind.
    destruct (ws_handler_recv env ws raw st) as [[[e st1] out1]|] eqn:E; [|done].
    intros H _ Hst. pose proof (ws_handler_recv_consistent _ _ _ _ _ _ _ E Hst) as H1.
    destruct e as [e|].
    + unfold ws_handler_close in H.
      destruct (remove_client ws st1) as [[[[] st2] out2]|] eqn:E2; [|done].
      injection H as <- <-. by eapply remove_client_consistent.
    + unfold mret, M_ret in H. by injection H as <- <-.
  - intros H _. by eapply remove_client_consistent.
  - intros H _. by eapply snapshot_loop_iteration_consistent.
Qed.

(** Along a run in which every connection object arrives once, the three
    registries stay in lockstep: every member of every registered room is a
    connection that [remove_client] finds in the index, pointing at that
    room. *)
Lemma run_consistent env evs st st' out :
  run env evs st = Some (tt, st', out) → arrivals_fresh env evs st →
  registry_consistent st → registry_consistent st'.
Proof.
  revert st out. induction evs as [|ev evs IH]; intros st out; cbn [run arrivals_fresh].
  - unfold mret, M_ret. by intros [= <- <-].
  - unfold mbind, M_bind.
    destruct (step env ev st) as [[[[] st1] out1]|] eqn:E; [|done].
    destruct (run env evs st1) as [[[[] st2] out2]|] eqn:E2; [|done].
    intros [= <- <-] [Hf Hfs] Hst. eapply IH; [exact E2|exact Hfs|].
    by eapply step_consistent.
Qed.

(** ** C5: departure from a room *)

Lemma map_size_1_list {V} (m : gmap string V) :
  size m = 1%nat → ∃ k v, map_to_list m = [(k, v)] ∧ m !! k = Some v.
Proof.
  rewrite <- length_map_to_list. intros H.
  destruct (map_to_list m) as [|[k v] [|? ?]] eqn:E; try done.
  exists k, v. split; [done|]. apply elem_of_map_to_list. rewrite E. by left.
Qed.

(** What [remove_client] does for a connection that the index maps to a
    member of a registered room. *)
Lemma remove_client_member (ws : conn) (st : Server) (c : PlayerConn.t)
    (room : Room.t) :
  player_index st !! ws = Some c →
  rooms st !! PlayerConn.room_id c = Some room →
  Room.room_id room = PlayerConn.room_id c →
  is_Some (Room.players room !! PlayerConn.player_id c) →
  let pid := PlayerConn.player_id c in
  let rid := PlayerConn.room_id c in
  let room' := Room.set_state_players (delete pid) (Room.set_players (delete pid) room) in
  ∃ st',
    remove_client ws st = Some (tt, st', broadcast_sends room' (PlayerLeft pid rid)) ∧
    player_index st' !! ws = None ∧ (ws ∉ queue st') ∧
    (size (Room.players room) = 2%nat →
       rooms st' !! rid = Some room' ∧ size (Room.players room') = 1%nat ∧
       ∃ pid' pc,
         pid' ≠ pid ∧ Room.players room !! pid' = Some pc ∧
         Room.players room' !! pid' = Some pc ∧
         broadcast_sends room' (PlayerLeft pid rid)
           = [Send (PlayerConn.ws pc) (PlayerLeft pid rid)]) ∧
    (size (Room.players room) = 1%nat →
       rooms st' !! rid = None ∧ broadcast_sends room' (PlayerLeft pid rid) = []).
Proof.
  intros Hc Hr Hid Hmem pid rid room'.
  assert (size (Room.players room') = pred (size (Room.players room))) as Hsize.
  { cbn. by apply map_size_delete_Some. }
  unfold remove_client. run_M. cbn. rewrite Hc. cbn. rewrite Hr. cbn.
  fold pid rid room'. rewrite Hid. fold rid.
  change (Room.set_state_players (delete pid) (Room.set_players (delete pid) room))
    with room'.
  destruct (decide (delete pid (Room.players room) = ∅)) as [He|Hne]; cbn.
  - eexists. split; [by rewrite app_nil_r|].
    split; [cbn; by rewrite lookup_delete_eq|]. split; [cbn; set_solver|].
    split.
    + intros H2. exfalso. rewrite H2 in Hsize. cbn in Hsize.
      change (Room.players room') with (delete pid (Room.players room)) in Hsize.
      rewrite He, map_size_empty in Hsize. done.
    + intros _. split; [cbn; by rewrite lookup_delete_eq|].
      unfold broadcast_sends.
      change (Room.players room') with (delete pid (Room.players room)).
      by rewrite He, map_to_list_empty.
  - eexists. split; [by rewrite app_nil_r|].
    split; [cbn; by rewrite lookup_delete_eq|]. split; [cbn; set_solver|].
    split.
    + intros H2. rewrite H2 in Hsize. cbn [pred] in Hsize.
      split; [cbn; by rewrite lookup_insert_eq|]. split; [done|].
      destruct (map_size_1_list _ Hsize) as (pid' & pc & Hl & Hpc).
      exists pid', pc.
      change (Room.players room') with (delete pid (Room.players room)) in Hpc.
      apply lookup_delete_Some in Hpc as Hpc'. destruct Hpc' as [Hne' Hpc'].
      split; [done|]. split; [done|]. split; [done|].
      unfold broadcast_sends. by rewrite Hl.
    + intros H1. exfalso. apply Hne. apply map_size_empty_inv.
      change (delete pid (Room.players room)) with (Room.players room').
      rewrite Hsize, H1. done.
Qed.

(** C5: in a state whose registries are in lockstep (as they are along
    every run in which each connection arrives once), when the connection
    of a room member terminates, [remove_client] drops the connection from
    the index and the member from both mappings of its room, and
    broadcasts [player_left], with the departed player's id and the room
    id, to whoever is left.  If the room had two members it stays
    registered with exactly one, and that one is the single recipient; if
    the departing member was the last, nothing is sent and the room is
    removed from the registry. *)
Theorem remove_client_room_lifecycle (st : Server) (rid : string) (room : Room.t)
    (pid : string) (pc : PlayerConn.t) :
  registry_consistent st →
  rooms st !! rid = Some room →
  Room.players room !! pid = Some pc →
  let room' := Room.set_state_players (delete pid) (Room.set_players (delete pid) room) in
  ∃ st',
    remove_client (PlayerConn.ws pc) st
      = Some (tt, st', broadcast_sends room' (PlayerLeft pid rid)) ∧
    player_index st' !! PlayerConn.ws pc = None ∧
    (size (Room.players room) = 2%nat →
       rooms st' !! rid = Some room' ∧ size (Room.players room') = 1%nat ∧
       ∃ pid' pc',
         pid' ≠ pid ∧ Room.players room !! pid' = Some pc' ∧
         Room.players room' !! pid' = Some pc' ∧
         broadcast_sends room' (PlayerLeft pid rid)
           = [Send (PlayerConn.ws pc') (PlayerLeft pid rid)]) ∧
    (size (Room.players room) = 1%nat →
       rooms st' !! rid = None ∧ broadcast_sends room' (PlayerLeft pid rid) = []).
Proof.
  intros [Hr _] Hroom Hpc room'.
  destruct (Hr rid room Hroom) as [Hid Hmem].
  destruct (Hmem pid pc Hpc) as (Hi & Hrid & Hpid).
  rewrite <- Hrid in Hroom, Hid.
  destruct (remove_client_member (PlayerConn.ws pc) st pc room Hi Hroom Hid)
    as (st' & E & Hi' & _ & H2 & H1).
  { rewrite Hpid. by eexists. }
  rewrite Hpid, Hrid in *. by exists st'.
Qed.

Lemma remove_client_room_lifecycle_witness :
  ∃ st',
    remove_client 2%positive
      (matched {| new_room_id := "room-000000"; pop1 := 1%positive; pop2 := 2%positive |}
         (set_queue (λ _, {[1%positive; 2%positive]}) initial))
    = Some (tt, st', [Send 1%positive (PlayerLeft "p2" "room-000000")]).
Proof.
  destruct (remove_client_room_lifecycle
    (matched {| new_room_id := "room-000000"; pop1 := 1%positive; pop2 := 2%positive |}
       (set_queue (λ _, {[1%positive; 2%positive]}) initial))
    "room-000000" (paired_room "room-000000" 1%positive 2%positive)
    "p2" (PlayerConn.mk 2%positive "p2" "room-000000"))
    as (st' & E & _).
  - apply matched_consistent.
    + split.
      * intros rid room. unfold initial. cbn. intros H. by rewrite lookup_empty in H.
      * intros ws _. reflexivity.
    + by vm_compute.
    + by vm_compute.
    + discriminate.
  - reflexivity.
  - reflexivity.
  - exists st'. exact E.
Defined.

(** ** C8: deltas that are missing or do not convert *)

Lemma read_delta_cases env msg :
  let dx := py_float env (field msg "dx") in
  let dy := py_float env (field msg "dy") in
  match dx, dy with
  | Ok a, Ok b => read_delta env msg = (a, b)
  | _, _ => read_delta env msg = (f0, f0)
  end.
Proof.
  unfold read_delta. fold (field msg "dx") (field msg "dy").
  destruct (py_float env (field msg "dx")), (py_float env (field msg "dy")); done.
Qed.

Lemma read_delta_missing env msg :
  (dict_get msg "dx" = None → (read_delta env msg).1 = f0) ∧
  (dict_get msg "dy" = None → (read_delta env msg).2 = f0).
Proof.
  pose proof (read_delta_cases env msg) as H. cbn zeta in H.
  unfold field in H. split; intros E; rewrite E in H; cbn in H.
  - destruct (py_float env _); by rewrite H.
  - destruct (py_float env _); by rewrite H.
Qed.

(** C8, as the specification states it, fails: a missing field is not a
    failed coercion.  Right after two connections are matched, a message
    that carries only dy = 5 has no dx, yet it moves player "p1" from
    (180, 300) to (180, 305). *)
Lemma C8_counterexample :
  ¬ (∀ st rid room pid msg p,
       reachable default_env st → rooms st !! rid = Some room →
       RoomState.players (Room.state room) !! pid = Some p →
       coord_ok (PlayerState.x p) = true → coord_ok (PlayerState.y p) = true →
       dict_get msg "dx" = None ∨ dict_get msg "dy" = None ∨
       (∃ e, py_float default_env (field msg "dx") = Raise e) ∨
       (∃ e, py_float default_env (field msg "dy") = Raise e) →
       ∃ p',
         RoomState.players (Room.state (apply_input default_env room pid msg).1) !! pid
           = Some p' ∧
         num_units (PlayerState.x p') = num_units (PlayerState.x p) ∧
         num_units (PlayerState.y p') = num_units (PlayerState.y p)).
Proof.
  intros H.
  set (o := {| new_room_id := "room-000000"; pop1 := 1%positive; pop2 := 2%positive |}).
  assert (∃ st, reachable default_env st ∧
                rooms st !! "room-000000"
                = Some (paired_room "room-000000" 1%positive 2%positive)) as (st & Hst & Hr).
  { eexists. split; [exists [EvConnect 1%positive o; EvConnect 2%positive o]; eexists;
                     vm_compute; reflexivity|].
    by vm_compute. }
  destruct (H st "room-000000" _ "p1"
              [("type", JStr "input"); ("dy", JNum (PyInt 5))] (spawn 180)
              Hst Hr eq_refl eq_refl eq_refl (or_introl eq_refl)) as (p' & Hp' & _ & Hy).
  vm_compute in Hp'. injection Hp' as <-. vm_compute in Hy. discriminate Hy.
Qed.

(** What [read_delta] returns when one field is missing and the other
    converts: zero for the missing one, the other field's own value. *)
Lemma read_delta_one_missing env msg d :
  (dict_get msg "dx" = None → py_float env (field msg "dy") = Ok d →
   read_delta env msg = (f0, d)) ∧
  (dict_get msg "dy" = None → py_float env (field msg "dx") = Ok d →
   read_delta env msg = (d, f0)).
Proof.
  pose proof (read_delta_cases env msg) as H. cbn zeta in H.
  split; intros E Hd.
  - rewrite Hd in H. unfold field in H. rewrite E in H. exact H.
  - rewrite Hd in H. unfold field in H. rewrite E in H. exact H.
Qed.

(** C8, amended: for a player inside the world, and a cap that is a finite
    non-negative number, no message makes [apply_input] raise.  If the dx
    or the dy field cannot be coerced to a float, both deltas are taken as
    zero and the player keeps its position, hp and mana.  A missing field
    is not a failure: it is a zero delta on its own axis only, and the
    other axis still moves by its own field, that is, by the value of the
    field cut to the cap and with the result cut to the world. *)
Theorem apply_input_bad_delta (env : Env) (room : Room.t) (pid : string)
    (msg : list (string * jvalue)) (p : PlayerState.t) :
  cap_ok (MAX_MOVE_PER_INPUT env) = true →
  RoomState.players (Room.state room) !! pid = Some p →
  coord_ok (PlayerState.x p) = true → coord_ok (PlayerState.y p) = true →
  ∃ p' px py,
    apply_input env room pid msg = (Room.set_state_players (insert pid p') room, None) ∧
    PlayerState.hp p' = PlayerState.hp p ∧ PlayerState.mana p' = PlayerState.mana p ∧
    float_of_num (PlayerState.x p) = Ok px ∧ float_of_num (PlayerState.y p) = Ok py ∧
    ((∃ e, py_float env (field msg "dx") = Raise e) ∨
     (∃ e, py_float env (field msg "dy") = Raise e) →
     read_delta env msg = (f0, f0) ∧
     num_units (PlayerState.x p') = num_units (PlayerState.x p) ∧
     num_units (PlayerState.y p') = num_units (PlayerState.y p)) ∧
    (dict_get msg "dx" = None →
     num_units (PlayerState.x p') = num_units (PlayerState.x p) ∧
     ∀ d, py_float env (field msg "dy") = Ok d →
       read_delta env msg = (f0, d) ∧
       PlayerState.y p' =
         PyFloat (clamp_world (fadd py (clamp_delta (MAX_MOVE_PER_INPUT env) d)))) ∧
    (dict_get msg "dy" = None →
     num_units (PlayerState.y p') = num_units (PlayerState.y p) ∧
     ∀ d, py_float env (field msg "dx") = Ok d →
       read_delta env msg = (d, f0) ∧
       PlayerState.x p' =
         PyFloat (clamp_world (fadd px (clamp_delta (MAX_MOVE_PER_INPUT env) d)))).
Proof.
  intros Hcap Hp Hx Hy.
  destruct (float_of_num_ok _ Hx) as (px & Ex & Vx & Wx & Ux).
  destruct (float_of_num_ok _ Hy) as (py & Ey & Vy & Wy & Uy).
  exists (moved env msg p px py), px, py.
  split; [by apply apply_input_moved|]. split; [done|]. split; [done|].
  split; [done|]. split; [done|].
  cbn [moved PlayerState.x PlayerState.y num_units]. rewrite <- Ux, <- Uy.
  destruct (read_delta_missing env msg) as [Mx My].
  split; [|split].
  - intros Hfail. assert (read_delta env msg = (f0, f0)) as E.
    { pose proof (read_delta_cases env msg) as H. cbn zeta in H.
      destruct Hfail as [[e He]|[e He]]; rewrite He in H;
        [done|by destruct (py_float env (field msg "dx"))]. }
    rewrite E. cbn [fst snd]. split; [done|]. split; by apply move_axis_zero.
  - intros E. split.
    + rewrite (Mx E). by apply move_axis_zero.
    + intros d Hd. destruct (read_delta_one_missing env msg d) as [H _].
      rewrite (H E Hd). done.
  - intros E. split.
    + rewrite (My E). by apply move_axis_zero.
    + intros d Hd. destruct (read_delta_one_missing env msg d) as [_ H].
      rewrite (H E Hd). done.
Qed.

Lemma apply_input_bad_delta_witness :
  (∃ p',
     apply_input default_env (paired_room "room-000000" 1%positive 2%positive) "p1"
       [("type", JStr "input"); ("dx", JStr "fast"); ("dy", JNum (PyInt 5))]
     = (Room.set_state_players (insert "p1" p')
          (paired_room "room-000000" 1%positive 2%positive), None) ∧
     num_units (PlayerState.x p') = 180 * unit_scale ∧
     num_units (PlayerState.y p') = 300 * unit_scale) ∧
  (∃ p',
     apply_input default_env (paired_room "room-000000" 1%positive 2%positive) "p1"
       [("type", JStr "input"); ("dy", JNum (PyInt 5))]
     = (Room.set_state_players (insert "p1" p')
          (paired_room "room-000000" 1%positive 2%positive), None) ∧
     num_units (PlayerState.x p') = 180 * unit_scale ∧
     PlayerState.y p' = PyFloat (float_of_Z 305)).
Proof.
  split.
  - destruct (apply_input_bad_delta default_env
                (paired_room "room-000000" 1%positive 2%positive) "p1"
                [("type", JStr "input"); ("dx", JStr "fast"); ("dy", JNum (PyInt 5))]
                (spawn 180))
      as (p' & px & py & E & _ & _ & _ & _ & H & _).
    + reflexivity.
    + reflexivity.
    + reflexivity.
    + reflexivity.
    + exists p'. split; [exact E|]. apply H. left. exists ValueError. reflexivity.
  - destruct (apply_input_bad_delta default_env
                (paired_room "room-000000" 1%positive 2%positive) "p1"
                [("type", JStr "input"); ("dy", JNum (PyInt 5))]
                (spawn 180))
      as (p' & px & py & E & _ & _ & _ & Ey & _ & H & _).
    + reflexivity.
    + reflexivity.
    + reflexivity.
    + reflexivity.
    + exists p'. split; [exact E|].
      destruct (H eq_refl) as [Hx Hmove]. split; [exact Hx|].
      destruct (Hmove (float_of_Z 5) eq_refl) as [_ ->].
      vm_compute in Ey. injection Ey as <-. vm_compute. reflexivity.
Defined.

(** ** C9: the period of the broadcaster *)

(** C9, as the specification states it, fails: the rate is floored at 1.
    Configured with 0.5 Hz the broadcaster sleeps 1 second, not 2. *)
Lemma C9_counterexample :
  ¬ (∀ env, tick_dt env = fdiv f1 (SNAPSHOT_RATE env)).
Proof.
  intros H.
  specialize (H {| str_to_float := λ _, None; SNAPSHOT_RATE := f0_5;
                   MAX_MOVE_PER_INPUT := f8 |}).
  vm_compute in H. discriminate H.
Qed.

(** C9, amended: the period is one second divided by the larger of 1 and
    the configured rate.  It is 1/rate for every rate of at least 1 Hz,
    and one second for every smaller rate (and for a rate that is not a
    number); at the default 20 Hz it is the double 0.05. *)
Theorem tick_dt_period (env : Env) :
  (fle f1 (SNAPSHOT_RATE env) = true → tick_dt env = fdiv f1 (SNAPSHOT_RATE env)) ∧
  (fle f1 (SNAPSHOT_RATE env) = false → tick_dt env = f1) ∧
  (SNAPSHOT_RATE env = f20 → tick_dt env = f0_05) ∧
  tick_dt default_env = f0_05.
Proof.
  unfold tick_dt, py_max. split; [|split; [|split]].
  - intros H. destruct (flt f1 (SNAPSHOT_RATE env)) eqn:Hlt; [done|].
    unfold fle, SFleb, flt, SFltb in *.
    destruct (SFcompare f1 (SNAPSHOT_RATE env)) as [[]|] eqn:E; try done.
    apply SFcompare_Eq_finite_l in E. by rewrite E.
  - intros H. assert (flt f1 (SNAPSHOT_RATE env) = false) as ->; [|done].
    destruct (flt f1 (SNAPSHOT_RATE env)) eqn:Hlt; [|done].
    apply flt_fle in Hlt. congruence.
  - intros ->. by vm_compute.
  - by vm_compute.
Qed.

Lemma tick_dt_period_witness :
  tick_dt {| str_to_float := λ _, None; SNAPSHOT_RATE := f2; MAX_MOVE_PER_INPUT := f8 |}
  = f0_5.
Proof.
  apply (tick_dt_period
           {| str_to_float := λ _, None; SNAPSHOT_RATE := f2; MAX_MOVE_PER_INPUT := f8 |}).
  reflexivity.
Defined.

(** ** C10: hp and mana *)

Lemma Forall_broadcast_sends room pl :
  (∀ c, snapshot_ok (Send c pl)) → Forall snapshot_ok (broadcast_sends room pl).
Proof.
  intros H. apply Forall_forall. intros s (pid & pc & _ & ->)%elem_of_broadcast_sends.
  apply H.
Qed.

Lemma remove_client_sends ws st st' out :
  remove_client ws st = Some (tt, st', out) → Forall snapshot_ok out.
Proof.
  unfold remove_client. run_M. cbn.
  destruct (player_index st !! ws) as [c|]; cbn; [|intros [= <- <-]; constructor].
  destruct (rooms st !! PlayerConn.room_id c) as [room|]; cbn;
    [|intros [= <- <-]; constructor].
  case_decide; cbn; intros [= <- <-]; rewrite app_nil_r;
    by apply Forall_broadcast_sends.
Qed.

Lemma ws_handler_open_sends ws o st st' out :
  ws_handler_open ws o st = Some (tt, st', out) → Forall snapshot_ok out.
Proof.
  rewrite ws_handler_open_eq.
  set (st1 := set_queue _ st).
  destruct (try_matchmaking o st1) as [[[[] st2] out2]|] eqn:E; [|done].
  intros [= <- <-]. constructor; [done|].
  destruct (Nat.lt_ge_cases (size (queue st1)) 2) as [Hlt|Hge].
  - rewrite try_matchmaking_idle in E by done. injection E as <- <-. constructor.
  - destruct (try_matchmaking_feasible o st1 _ _ Hge E) as (Ha & Hb & Hab).
    rewrite try_matchmaking_pair in E by done. injection E as <- <-.
    repeat constructor.
Qed.

Lemma ws_handler_recv_sends env ws raw st e st' out :
  ws_handler_recv env ws raw st = Some (e, st', out) → Forall snapshot_ok out.
Proof.
  unfold ws_handler_recv.
  destruct raw as [[| | | | |msg]|]; run_M; cbn; try (intros [= <- <- <-]; by constructor).
  destruct (is_type (dict_get msg "type") "ping"); cbn;
    [intros [= <- <- <-]; by repeat constructor|].
  destruct (player_index st !! ws) as [c|]; cbn; [|intros [= <- <- <-]; by constructor].
  destruct (rooms st !! PlayerConn.room_id c) as [room|]; cbn;
    [|intros [= <- <- <-]; by constructor].
  destruct (is_type (dict_get msg "type") "input"); cbn;
    [|intros [= <- <- <-]; by constructor].
  destruct (apply_input env room (PlayerConn.player_id c) msg) as [room' e'].
  cbn. intros [= <- <- <-]. constructor.
Qed.

Lemma snapshot_loop_iteration_sends st st' out :
  snapshot_loop_iteration st = Some (tt, st', out) → server_inv st →
  Forall snapshot_ok out.
Proof.
  unfold snapshot_loop_iteration. run_M. cbn. intros [= <- <-] Hst.
  apply Forall_forall. intros s (l & Hl & Hs)%elem_of_concat.
  apply list_elem_of_fmap in Hl as ([rid room] & -> & Hr%elem_of_map_to_list).
  cbn in Hs. apply elem_of_broadcast_sends in Hs as (pid & pc & Hpc & ->).
  unfold snapshot_ok. cbn. destruct (Hst rid room Hr) as [Hdom Hpl]. split.
  - cbn in Hpc. assert (pid ∈ dom (RoomState.players (Room.state room))) as Hin
      by (rewrite <- Hdom; by eapply elem_of_dom_2).
    apply elem_of_dom in Hin as [p Hp]. by exists pid, p.
  - intros pid' p Hp. by destruct (Hpl pid' p Hp) as (_ & _ & ? & ?).
Qed.

(** One iteration of the broadcaster sends every member of every room the
    state of its room, and that state holds the member's own record. *)
Lemma snapshot_loop_iteration_carries st st' out rid room pid pc :
  server_inv st → snapshot_loop_iteration st = Some (tt, st', out) →
  rooms st' !! rid = Some room → Room.players room !! pid = Some pc →
  Send (PlayerConn.ws pc) (Snapshot (Room.room_id room) (Room.state room)) ∈ out ∧
  ∃ p, RoomState.players (Room.state room) !! pid = Some p ∧
       PlayerState.hp p = 100 ∧ PlayerState.mana p = 100.
Proof.
  intros Hst. unfold snapshot_loop_iteration. run_M. cbn. intros [= <- <-].
  cbn. rewrite lookup_fmap.
  destruct (rooms st !! rid) as [r|] eqn:Hr; [|done]. intros [= <-] Hpc. split.
  - apply elem_of_concat. eexists. split.
    + apply list_elem_of_fmap. exists (rid, r). split; [reflexivity|].
      by apply elem_of_map_to_list.
    + cbn. apply elem_of_broadcast_sends. by exists pid, pc.
  - destruct (Hst rid r Hr) as [Hdom Hpl]. cbn in Hpc.
    assert (pid ∈ dom (RoomState.players (Room.state r))) as Hin
      by (rewrite <- Hdom; by eapply elem_of_dom_2).
    apply elem_of_dom in Hin as [p Hp]. exists p. split; [exact Hp|].
    by destruct (Hpl pid p Hp) as (_ & _ & ? & ?).
Qed.

Lemma step_sends env ev st st' out :
  step env ev st = Some (tt, st', out) → server_inv st → Forall snapshot_ok out.
Proof.
  destruct ev as [ws o|ws raw|ws|]; cbn [step].
  - intros H _. by eapply ws_handler_open_sends.
  - unfold mbind, M_bind.
    destruct (ws_handler_recv env ws raw st) as [[[e st1] out1]|] eqn:E; [|done].
    pose proof (ws_handler_recv_sends _ _ _ _ _ _ _ E) as H1.
    destruct e as [e|].
    + unfold ws_handler_close.
      destruct (remove_client ws st1) as [[[[] st2] out2]|] eqn:E2; [|done].
      intros [= <- <-] _. apply Forall_app. split; [done|].
      by eapply remove_client_sends.
    + unfold mret, M_ret. intros [= <- <-] _. by rewrite app_nil_r.
  - intros H _. by eapply remove_client_sends.
  - apply snapshot_loop_iteration_sends.
Qed.

Lemma run_sends env evs st st' out :
  run env evs st = Some (tt, st', out) → server_inv st → Forall snapshot_ok out.
Proof.
  revert st out. induction evs as [|ev evs IH]; intros st out; cbn [run].
  - unfold mret, M_ret. intros [= <- <-] _. constructor.
  - unfold mbind, M_bind.
    destruct (step env ev st) as [[[[] st1] out1]|] eqn:E; [|done].
    destruct (run env evs st1) as [[[[] st2] out2]|] eqn:E2; [|done].
    intros [= <- <-] Hst. apply Forall_app. split.
    + by eapply step_sends.
    + eapply IH; [exact E2|]. by eapply step_inv.
Qed.

(** C10: [apply_input] changes nothing but the x and y of the player it
    addresses: the room id, the connections, the tick and the records of
    all other players are as before, and the addressed player keeps its hp
    and mana.  No operation of the server writes hp or mana: in every state
    the server reaches, every player record has the hp and mana it was
    created with (100 and 100).  Every snapshot the server sends carries
    player records, each with that hp and mana; and an iteration of the
    broadcaster sends every member of every room the state of its room,
    in which the member's own record is found with hp and mana 100. *)
Theorem hp_mana_untouched (env : Env) :
  (∀ room pid msg,
     let room' := (apply_input env room pid msg).1 in
     Room.room_id room' = Room.room_id room ∧
     Room.players room' = Room.players room ∧
     RoomState.tick (Room.state room') = RoomState.tick (Room.state room) ∧
     (∀ pid', pid' ≠ pid →
        RoomState.players (Room.state room') !! pid'
        = RoomState.players (Room.state room) !! pid') ∧
     match RoomState.players (Room.state room) !! pid with
     | None => RoomState.players (Room.state room') !! pid = None
     | Some p =>
         ∃ p', RoomState.players (Room.state room') !! pid = Some p' ∧
               PlayerState.hp p' = PlayerState.hp p ∧
               PlayerState.mana p' = PlayerState.mana p
     end) ∧
  (∀ st rid room pid p,
     reachable env st → rooms st !! rid = Some room →
     RoomState.players (Room.state room) !! pid = Some p →
     PlayerState.hp p = 100 ∧ PlayerState.mana p = 100) ∧
  (∀ evs st out c rid rs,
     run env evs initial = Some (tt, st, out) →
     Send c (Snapshot rid rs) ∈ out →
     (∃ pid p, RoomState.players rs !! pid = Some p) ∧
     ∀ pid p, RoomState.players rs !! pid = Some p →
              PlayerState.hp p = 100 ∧ PlayerState.mana p = 100) ∧
  (∀ st st' out rid room pid pc,
     reachable env st → snapshot_loop_iteration st = Some (tt, st', out) →
     rooms st' !! rid = Some room → Room.players room !! pid = Some pc →
     Send (PlayerConn.ws pc) (Snapshot (Room.room_id room) (Room.state room)) ∈ out ∧
     ∃ p, RoomState.players (Room.state room) !! pid = Some p ∧
          PlayerState.hp p = 100 ∧ PlayerState.mana p = 100).
Proof.
  split; [apply apply_input_frame|]. split; [|split].
  - intros st rid room pid p Hst Hr Hp.
    destruct (reachable_inv env st Hst rid room Hr) as [_ Hpl].
    by destruct (Hpl pid p Hp) as (_ & _ & ? & ?).
  - intros evs st out c rid rs Hrun Hin.
    pose proof (run_sends env evs initial st out Hrun server_inv_initial) as Hall.
    rewrite Forall_forall in Hall. exact (Hall _ Hin).
  - intros st st' out rid room pid pc Hst%reachable_inv Hit Hr Hpc.
    by eapply snapshot_loop_iteration_carries.
Qed.

Lemma hp_mana_untouched_witness :
  run default_env played_run initial
    = Some (tt, playing played_room, wall_run_sends) ∧
  snapshot_loop_iteration (playing played_room)
    = Some (tt, playing (Room.set_tick 1 played_room),
            [Send 1%positive (Snapshot "room-000000" (Room.state (Room.set_tick 1 played_room)));
             Send 2%positive (Snapshot "room-000000" (Room.state (Room.set_tick 1 played_room)))]) ∧
  Send 1%positive (Snapshot "room-000000" (Room.state (Room.set_tick 1 played_room)))
    ∈ [Send 1%positive (Snapshot "room-000000" (Room.state (Room.set_tick 1 played_room)));
       Send 2%positive (Snapshot "room-000000" (Room.state (Room.set_tick 1 played_room)))] ∧
  ∃ p, RoomState.players (Room.state (Room.set_tick 1 played_room)) !! "p1" = Some p ∧
       PlayerState.hp p = 100 ∧ PlayerState.mana p = 100.
Proof.
  assert (run default_env played_run initial
          = Some (tt, playing played_room, wall_run_sends)) as Hrun
    by (vm_compute; reflexivity).
  assert (snapshot_loop_iteration (playing played_room)
    = Some (tt, playing (Room.set_tick 1 played_room),
            [Send 1%positive (Snapshot "room-000000" (Room.state (Room.set_tick 1 played_room)));
             Send 2%positive (Snapshot "room-000000" (Room.state (Room.set_tick 1 played_room)))]))
    as Hit by (vm_compute; reflexivity).
  split; [exact Hrun|]. split; [exact Hit|].
  apply (proj2 (proj2 (proj2 (hp_mana_untouched default_env)))
           (playing played_room) (playing (Room.set_tick 1 played_room)) _
           "room-000000" (Room.set_tick 1 played_room) "p1"
           (PlayerConn.mk 1%positive "p1" "room-000000")).
  - by exists played_run, wall_run_sends.
  - exact Hit.
  - reflexivity.
  - reflexivity.
Defined.

(* ===================================================================== *)
(** * Part IV: further properties of the code                             *)
(* ===================================================================== *)

(** ** Sums that need no rounding *)

(** Rounding is exact on a value that is a multiple of 2^g and below
    2^(g+53): its 53 leading bits are all it has. *)
Lemma binary_round_exact (s : bool) (M : positive) (e g : Z) :
  -1074 ≤ e → 0 ≤ g → g ≤ 2044 →
  (2 ^ g | Zpos M * 2 ^ (e + 1074)) →
  Zpos M * 2 ^ (e + 1074) < 2 ^ (g + 53) →
  let r := binary_round prec emax s M e in
  is_finite r = true ∧ units r = cond_Zopp s (Zpos M * 2 ^ (e + 1074)).
Proof.
  intros He Hg0 Hg Hdiv HN r.
  pose proof (digits_le_of_lt M e (g + 53) He HN) as Hd.
  destruct (binary_round_spec s M e He) as (m' & e' & Er & Hcan & He' & _ & Hex).
  set (d := Zpos (digits2_pos M)) in *.
  assert ((e' <=? 971) = true) as Hle by (apply Z.leb_le; lia).
  rewrite Hle in Er. subst r. rewrite Er. split; [done|].
  cbn [units]. f_equal. apply Hex.
  destruct (Z.le_gt_cases d 53) as [?|Hbig]; [by left|right].
  set (t := e + 1074) in *.
  assert (2 ^ g = 2 ^ (g - t) * 2 ^ t) as Hsplit.
  { rewrite <- Z.pow_add_r by lia. f_equal. lia. }
  rewrite Hsplit in Hdiv.
  apply Z.mul_divide_cancel_r in Hdiv; [|pose proof (pow2_pos t); lia].
  assert (2 ^ (d - 53) | 2 ^ (g - t)) as Hpow.
  { exists (2 ^ (g - t - (d - 53))). rewrite <- Z.pow_add_r by lia. f_equal. lia. }
  apply Z.mod_divide; [pose proof (pow2_pos (d - 53)); lia|].
  by etrans.
Qed.

(** The sum of two doubles that are multiples of 2^g (in units of
    2^-1074) is exact when it stays below 2^(g+53). *)
Lemma fadd_exact (a b : float) (g : Z) :
  is_binary64 a = true → is_binary64 b = true →
  is_finite a = true → is_finite b = true →
  0 ≤ g → g ≤ 2044 →
  (2 ^ g | units a) → (2 ^ g | units b) →
  Z.abs (units a + units b) < 2 ^ (g + 53) →
  is_finite (fadd a b) = true ∧ units (fadd a b) = units a + units b.
Proof.
  intros Va Vb Fa Fb Hg0 Hg Da Db HN.
  destruct a as [sa|sa| |sa ma ea], b as [sb|sb| |sb mb eb]; try done.
  - by destruct sa, sb.
  - split; [done|]. change (units (S754_zero sb)) with 0. by rewrite Z.add_0_r.
  - rewrite fadd_finite_eq.
    apply bounded_inv in Va as (Ha & _), Vb as (Hb & _).
    set (ez := Z.min ea eb) in *.
    assert ((cond_Zopp sa (Zpos (shl_align ma ea ez).1) +
             cond_Zopp sb (Zpos (shl_align mb eb ez).1)) * 2 ^ (ez + 1074)
            = units (S754_finite sa ma ea) + units (S754_finite sb mb eb)) as HS.
    { cbn [units]. rewrite <- (shl_align_units ma ea ez), <- (shl_align_units mb eb ez) by lia.
      destruct sa, sb; simpl; lia. }
    pose proof (Z.divide_add_r _ _ _ Da Db) as Dsum.
    rewrite <- HS in *. clear HS.
    destruct (_ + _) as [|p|p].
    + done.
    + destruct (binary_round_exact false p ez g ltac:(lia) Hg0 Hg Dsum ltac:(lia))
        as (Hf & Hu).
      split; [exact Hf|exact Hu].
    + assert (Zneg p * 2 ^ (ez + 1074) = - (Zpos p * 2 ^ (ez + 1074))) as E by lia.
      rewrite E in Dsum, HN. apply Z.divide_opp_r in Dsum. rewrite Z.opp_involutive in Dsum.
      destruct (binary_round_exact true p ez g ltac:(lia) Hg0 Hg Dsum ltac:(lia))
        as (Hf & Hu).
      split; [exact Hf|]. rewrite E. exact Hu.
Qed.

(** ** The clamp of a request, as a number *)

Lemma clamp_delta_value (cap d : float) :
  cap_ok cap = true → is_binary64 d = true → is_finite d = true →
  is_binary64 (clamp_delta cap d) = true ∧
  is_finite (clamp_delta cap d) = true ∧
  units (clamp_delta cap d) = clamp_Z (- units cap) (units cap) (units d).
Proof.
  intros Hcap Vd Fd. pose proof (cap_ok_inv cap Hcap) as (V & F & Hc).
  destruct (clamp_delta_units cap Hcap d Vd) as (V' & F' & _).
  split; [done|]. split; [done|]. unfold clamp_Z.
  destruct (clamp_delta_cases cap d) as [(-> & H0 & H1)|[(-> & H1 & H0)|(-> & H)]].
  - rewrite flt_units in H0, H1 by (by rewrite ?fneg_valid, ?fneg_finite).
    rewrite units_fneg in H0. apply Z.ltb_lt in H0, H1. lia.
  - rewrite flt_units in H0, H1 by (by rewrite ?fneg_valid, ?fneg_finite).
    rewrite units_fneg in H0. apply Z.ltb_lt in H0. apply Z.ltb_ge in H1. lia.
  - rewrite units_fneg. unfold py_min in H.
    destruct (flt d cap) eqn:H1; rewrite flt_units in H1 by done;
      rewrite flt_units in H by (by rewrite ?fneg_valid, ?fneg_finite);
      rewrite units_fneg in H; apply Z.ltb_ge in H.
    + apply Z.ltb_lt in H1. lia.
    + apply Z.ltb_ge in H1. lia.
Qed.

(** A request that is not a finite number: a NaN and the positive infinity
    are clamped to the cap, the negative infinity to its opposite. *)
Lemma clamp_delta_non_finite (cap : float) :
  flt f0 cap = true →
  clamp_delta cap S754_nan = cap ∧
  clamp_delta cap (S754_infinity false) = cap ∧
  clamp_delta cap (S754_infinity true) = fneg cap.
Proof.
  intros H. unfold clamp_delta, py_max, py_min.
  destruct cap as [[]|[]| |[] m e]; try done; cbn in *;
    rewrite ?Pos.compare_refl; done.
Qed.

(** ** One axis, on integers *)

Lemma clamp_Z_scale (lo hi v u : Z) :
  0 ≤ u → clamp_Z (lo * u) (hi * u) (v * u) = clamp_Z lo hi v * u.
Proof.
  intros Hu. unfold clamp_Z.
  by rewrite Z.mul_min_distr_nonneg_r, Z.mul_max_distr_nonneg_r.
Qed.

Lemma move_axis_integer (cap x d : float) (c n z : Z) :
  cap_ok cap = true → units cap = c * unit_scale → c ≤ 2 ^ 52 →
  is_binary64 x = true → in_world x → units x = n * unit_scale →
  is_binary64 d = true → is_finite d = true → units d = z * unit_scale →
  let x' := clamp_world (fadd x (clamp_delta cap d)) in
  is_binary64 x' = true ∧ in_world x' ∧
  units x' = clamp_Z 0 5000 (n + clamp_Z (- c) c z) * unit_scale.
Proof.
  intros Hcap Hc Hc52 Vx Wx Hn Vd Fd Hz x'.
  destruct (move_axis_bound cap Hcap x d Vx Wx Vd) as (Vx' & Wx' & _).
  split; [exact Vx'|]. split; [exact Wx'|].
  destruct (clamp_delta_value cap d Hcap Vd Fd) as (Vd' & Fd' & Hd').
  destruct (in_world_units x Vx Wx) as (Fx & Hx).
  pose proof (cap_ok_inv cap Hcap) as (_ & _ & Hc0).
  assert (0 < unit_scale) as HU by done.
  assert (0 ≤ c) as Hc1 by nia.
  assert (0 ≤ n ≤ 5000) as Hn1 by nia.
  set (d' := clamp_delta cap d) in *.
  assert (units d' = clamp_Z (- c) c z * unit_scale) as Hdz.
  { rewrite Hd', Hc, Hz.
    replace (- (c * unit_scale)) with (- c * unit_scale) by lia.
    apply clamp_Z_scale. lia. }
  assert (- c ≤ clamp_Z (- c) c z ≤ c) as Hcl by (unfold clamp_Z; lia).
  destruct (fadd_exact x d' 1074 Vx Vd' Fx Fd' ltac:(lia) ltac:(lia)) as (Fs & Hs).
  - rewrite Hn. by apply Z.divide_factor_r.
  - rewrite Hdz. by apply Z.divide_factor_r.
  - rewrite Hn, Hdz, <- Z.mul_add_distr_r.
    change (2 ^ (1074 + 53)) with (2 ^ 53 * unit_scale).
    rewrite Z.abs_mul, (Z.abs_eq unit_scale) by lia.
    apply Z.mul_lt_mono_pos_r; [done|].
    change (2 ^ 53) with (2 ^ 52 + 2 ^ 52). change (2 ^ 52) with 4503599627370496 in *.
    lia.
  - destruct (clamp_world_units (fadd x d') (fadd_valid x d' Vx Vd')) as (_ & _ & Hu).
    unfold x'. rewrite (Hu Fs), Hs, Hn, Hdz, <- Z.mul_add_distr_r.
    rewrite <- clamp_Z_scale by lia. done.
Qed.

(** A JSON integer below 2^53 in magnitude reads as itself; a field that
    is missing reads as zero. *)
Lemma reads_integer_int (env : Env) (z : Z) :
  Z.abs z < 2 ^ 53 → reads_integer env (JNum (PyInt z)) z.
Proof.
  intros Hz. destruct (float_of_Z_exact z Hz) as (Hf & Hu).
  exists (float_of_Z z). cbn. split.
  - by destruct (float_of_Z z).
  - split; [apply float_of_Z_valid|]. split; done.
Qed.

Lemma reads_integer_missing (env : Env) (msg : list (string * jvalue)) (k : string) :
  dict_get msg k = None → reads_integer env (field msg k) 0.
Proof. intros H. unfold field. rewrite H. by exists f0. Qed.

(** X1: on integers the input processor computes exactly.  When the
    player stands on integer coordinates of the world, the cap is an
    integer [c] (up to 2^52) and the two deltas read as integers, then
    [apply_input] raises nothing and leaves the player on the integer
    coordinates obtained by clamping each delta to [-c, c], adding it, and
    clamping the sum to [0, 5000]: no rounding takes place, a move into a
    wall stops at the wall, and the new coordinates are again integers of
    the world. *)
Theorem apply_input_exact_on_integers (env : Env) (room : Room.t) (pid : string)
    (msg : list (string * jvalue)) (p : PlayerState.t) (c nx ny zx zy : Z) :
  cap_ok (MAX_MOVE_PER_INPUT env) = true →
  units (MAX_MOVE_PER_INPUT env) = c * unit_scale → c ≤ 2 ^ 52 →
  RoomState.players (Room.state room) !! pid = Some p →
  holds_integer (PlayerState.x p) nx → holds_integer (PlayerState.y p) ny →
  reads_integer env (field msg "dx") zx → reads_integer env (field msg "dy") zy →
  ∃ p',
    apply_input env room pid msg = (Room.set_state_players (insert pid p') room, None) ∧
    holds_integer (PlayerState.x p') (clamp_Z 0 5000 (nx + clamp_Z (- c) c zx)) ∧
    holds_integer (PlayerState.y p') (clamp_Z 0 5000 (ny + clamp_Z (- c) c zy)) ∧
    PlayerState.hp p' = PlayerState.hp p ∧ PlayerState.mana p' = PlayerState.mana p.
Proof.
  intros Hcap Hc Hc52 Hp [Cx Nx] [Cy Ny] (dx & Ex & Vdx & Fdx & Hzx) (dy & Ey & Vdy & Fdy & Hzy).
  destruct (float_of_num_ok _ Cx) as (px & Epx & Vx & Wx & Ux).
  destruct (float_of_num_ok _ Cy) as (py & Epy & Vy & Wy & Uy).
  exists (moved env msg p px py).
  split; [by apply apply_input_moved|].
  pose proof (read_delta_cases env msg) as Hrd. cbn zeta in Hrd.
  rewrite Ex, Ey in Hrd.
  rewrite Nx in Ux. rewrite Ny in Uy.
  destruct (move_axis_integer _ px dx c nx zx Hcap Hc Hc52 Vx Wx Ux Vdx Fdx Hzx)
    as (Vx' & [Wx0 Wx1] & Hx').
  destruct (move_axis_integer _ py dy c ny zy Hcap Hc Hc52 Vy Wy Uy Vdy Fdy Hzy)
    as (Vy' & [Wy0 Wy1] & Hy').
  unfold holds_integer, moved. rewrite Hrd. cbn [PlayerState.x PlayerState.y
    PlayerState.hp PlayerState.mana fst snd coord_ok num_units].
  rewrite Vx', Wx0, Wx1, Vy', Wy0, Wy1. done.
Qed.

Lemma apply_input_exact_on_integers_witness :
  ∃ p',
    apply_input default_env (room_with_p1 (PyInt 4998) (PyInt 300)) "p1"
      [("type", JStr "input"); ("dx", JNum (PyInt 7)); ("dy", JNum (PyInt (-20)))]
    = (Room.set_state_players (insert "p1" p') (room_with_p1 (PyInt 4998) (PyInt 300)), None) ∧
    holds_integer (PlayerState.x p') 5000 ∧ holds_integer (PlayerState.y p') 292 ∧
    PlayerState.hp p' = 100 ∧ PlayerState.mana p' = 100.
Proof.
  apply (apply_input_exact_on_integers default_env
           (room_with_p1 (PyInt 4998) (PyInt 300)) "p1"
           [("type", JStr "input"); ("dx", JNum (PyInt 7)); ("dy", JNum (PyInt (-20)))]
           {| PlayerState.x := PyInt 4998; PlayerState.y := PyInt 300;
              PlayerState.hp := 100; PlayerState.mana := 100 |}
           8 4998 300 7 (-20)).
  - reflexivity.
  - reflexivity.
  - lia.
  - reflexivity.
  - split; reflexivity.
  - split; reflexivity.
  - exists (float_of_Z 7). repeat split; reflexivity.
  - exists (float_of_Z (-20)). repeat split; reflexivity.
Defined.

(** X2: a delta that is not a finite number is not rejected.  Under a
    positive cap, a dx (or dy) that [float()] turns into NaN or into the
    positive infinity moves the player exactly as a request of the full
    cap would, and one that is the negative infinity as a request of the
    opposite of the cap would. *)
Theorem apply_input_non_finite_delta (env : Env) (room : Room.t) (pid : string)
    (msg : list (string * jvalue)) (p : PlayerState.t) (px py dx dy : float) :
  flt f0 (MAX_MOVE_PER_INPUT env) = true →
  RoomState.players (Room.state room) !! pid = Some p →
  float_of_num (PlayerState.x p) = Ok px → float_of_num (PlayerState.y p) = Ok py →
  py_float env (field msg "dx") = Ok dx → py_float env (field msg "dy") = Ok dy →
  let cap := MAX_MOVE_PER_INPUT env in
  ∃ p',
    apply_input env room pid msg = (Room.set_state_players (insert pid p') room, None) ∧
    (dx = S754_nan ∨ dx = S754_infinity false →
     PlayerState.x p' = PyFloat (clamp_world (fadd px cap))) ∧
    (dx = S754_infinity true →
     PlayerState.x p' = PyFloat (clamp_world (fadd px (fneg cap)))) ∧
    (dy = S754_nan ∨ dy = S754_infinity false →
     PlayerState.y p' = PyFloat (clamp_world (fadd py cap))) ∧
    (dy = S754_infinity true →
     PlayerState.y p' = PyFloat (clamp_world (fadd py (fneg cap)))).
Proof.
  intros Hcap Hp Epx Epy Ex Ey cap.
  exists (moved env msg p px py).
  split; [by apply apply_input_moved|].
  pose proof (read_delta_cases env msg) as Hrd. cbn zeta in Hrd.
  rewrite Ex, Ey in Hrd.
  destruct (clamp_delta_non_finite cap Hcap) as (Hnan & Hpinf & Hninf).
  unfold moved. rewrite Hrd. cbn [PlayerState.x PlayerState.y fst snd]. fold cap.
  repeat split.
  - intros [-> | ->]; by rewrite ?Hnan, ?Hpinf.
  - intros ->. by rewrite Hninf.
  - intros [-> | ->]; by rewrite ?Hnan, ?Hpinf.
  - intros ->. by rewrite Hninf.
Qed.

Lemma apply_input_non_finite_delta_witness :
  ∃ p',
    apply_input default_env (room_with_p1 (PyInt 180) (PyInt 300)) "p1"
      [("type", JStr "input"); ("dx", JNum (PyFloat S754_nan));
       ("dy", JNum (PyFloat (S754_infinity true)))]
    = (Room.set_state_players (insert "p1" p') (room_with_p1 (PyInt 180) (PyInt 300)), None) ∧
    PlayerState.x p' = PyFloat (float_of_Z 188) ∧
    PlayerState.y p' = PyFloat (float_of_Z 292).
Proof.
  destruct (apply_input_non_finite_delta default_env
              (room_with_p1 (PyInt 180) (PyInt 300)) "p1"
              [("type", JStr "input"); ("dx", JNum (PyFloat S754_nan));
               ("dy", JNum (PyFloat (S754_infinity true)))]
              {| PlayerState.x := PyInt 180; PlayerState.y := PyInt 300;
                 PlayerState.hp := 100; PlayerState.mana := 100 |}
              (float_of_Z 180) (float_of_Z 300) S754_nan (S754_infinity true)
              eq_refl eq_refl eq_refl eq_refl eq_refl eq_refl)
    as (p' & E & Hx & _ & _ & Hy).
  exists p'. split; [exact E|]. split.
  - rewrite Hx by (by left). reflexivity.
  - rewrite Hy by done. reflexivity.
Defined.

(** ** The handlers, written out *)

Lemma server_eq (st st' : Server) :
  rooms st' = rooms st → queue st' = queue st → player_index st' = player_index st →
  st' = st.
Proof. destruct st, st'. cbn. by intros -> -> ->. Qed.

(** One turn of the receive loop on a JSON object. *)
Lemma ws_handler_recv_object env ws msg st :
  ws_handler_recv env ws (Some (JDict msg)) st =
  if is_type (dict_get msg "type") "ping"
  then Some (None, st, [Send ws (Pong (default JNull (dict_get msg "ts")))])
  else
    match player_index st !! ws with
    | None => Some (None, st, [])
    | Some c =>
        match rooms st !! PlayerConn.room_id c with
        | None => Some (None, st, [])
        | Some room =>
            if is_type (dict_get msg "type") "input"
            then Some ((apply_input env room (PlayerConn.player_id c) msg).2,
                       set_rooms (insert (PlayerConn.room_id c)
                                    (apply_input env room (PlayerConn.player_id c) msg).1) st,
                       [])
            else Some (None, st, [])
        end
    end.
Proof.
  unfold ws_handler_recv. run_M. cbn.
  destruct (is_type (dict_get msg "type") "ping"); [done|]. cbn.
  destruct (player_index st !! ws) as [c|]; [|done]. cbn.
  destruct (rooms st !! PlayerConn.room_id c) as [room|]; [|done]. cbn.
  destruct (is_type (dict_get msg "type") "input"); [|done].
  by destruct (apply_input env room (PlayerConn.player_id c) msg).
Qed.

(** A frame that decodes to something other than an object. *)
Lemma ws_handler_recv_other env ws v st :
  is_object v = false →
  ws_handler_recv env ws (Some v) st = Some (Some AttributeError, st, []).
Proof. by destruct v. Qed.

(** [remove_client], written out. *)
Lemma remove_client_eq ws st :
  remove_client ws st =
  let st1 := set_player_index (delete ws) (set_queue (λ q, q ∖ {[ws]}) st) in
  match player_index st !! ws with
  | None => Some (tt, st1, [])
  | Some c =>
      match rooms st !! PlayerConn.room_id c with
      | None => Some (tt, st1, [])
      | Some room =>
          let room' := leave (PlayerConn.player_id c) room in
          Some (tt,
                (if decide (Room.players room' = ∅)
                 then set_rooms (delete (Room.room_id room'))
                        (set_rooms (insert (PlayerConn.room_id c) room') st1)
                 else set_rooms (insert (PlayerConn.room_id c) room') st1),
                broadcast_sends room' (PlayerLeft (PlayerConn.player_id c) (Room.room_id room')))
      end
  end.
Proof.
  unfold remove_client, leave. run_M. cbn.
  destruct (player_index st !! ws) as [c|]; [|done]. cbn.
  destruct (rooms st !! PlayerConn.room_id c) as [room|]; [|done]. cbn.
  case_decide; cbn; by rewrite app_nil_r.
Qed.

(** [remove_client] always returns, and what it does to the queue and to
    the index does not depend on the rooms. *)
Lemma remove_client_total ws st :
  ∃ st' out, remove_client ws st = Some (tt, st', out) ∧
    queue st' = queue st ∖ {[ws]} ∧ player_index st' = delete ws (player_index st).
Proof.
  rewrite remove_client_eq. cbn zeta.
  destruct (player_index st !! ws) as [c|]; [|by eexists _, _].
  destruct (rooms st !! PlayerConn.room_id c) as [room|]; [|by eexists _, _].
  case_decide; by eexists _, _.
Qed.

(** ** Frames *)

(** X3: frames that change nothing.  In any state, a frame that is not
    JSON is skipped; a ping is answered with one pong to its sender,
    carrying the ping's [ts] (null when it has none), whether or not the
    sender has been matched; a message of any type other than ping and
    input, and any message other than a ping from a connection that holds
    no slot or whose room is gone, is dropped.  In all these cases the
    state of the server is left as it was and the session goes on. *)
Theorem frames_without_effect (env : Env) (ws : conn) (st : Server) :
  step env (EvFrame ws None) st = Some (tt, st, []) ∧
  (∀ msg, is_type (dict_get msg "type") "ping" = true →
     step env (EvFrame ws (Some (JDict msg))) st
     = Some (tt, st, [Send ws (Pong (default JNull (dict_get msg "ts")))])) ∧
  (∀ msg, is_type (dict_get msg "type") "ping" = false →
     is_type (dict_get msg "type") "input" = false ∨
     player_index st !! ws = None ∨
     (∃ c, player_index st !! ws = Some c ∧ rooms st !! PlayerConn.room_id c = None) →
     step env (EvFrame ws (Some (JDict msg))) st = Some (tt, st, [])).
Proof.
  split; [done|]. split.
  - intros msg Hp. cbn [step]. unfold mbind, M_bind.
    by rewrite ws_handler_recv_object, Hp.
  - intros msg Hp H. cbn [step]. unfold mbind, M_bind.
    rewrite ws_handler_recv_object, Hp.
    destruct H as [Hi|[Hn|(c & Hc & Hr)]].
    + destruct (player_index st !! ws) as [c|]; [|done].
      destruct (rooms st !! PlayerConn.room_id c) as [room|]; [|done].
      by rewrite Hi.
    + by rewrite Hn.
    + by rewrite Hc, Hr.
Qed.

(** X4: a frame that is JSON but not an object ends the session.  The
    [msg.get] of the handler raises on it, outside the inner [try], so the
    [finally] clause runs: the frame has exactly the effect of a
    disconnection, after which the connection is neither queued nor
    indexed. *)
Theorem non_object_frame_closes (env : Env) (ws : conn) (v : jvalue) (st : Server) :
  is_object v = false →
  step env (EvFrame ws (Some v)) st = step env (EvClose ws) st ∧
  ∃ st' out,
    step env (EvFrame ws (Some v)) st = Some (tt, st', out) ∧
    (ws ∉ queue st') ∧ player_index st' !! ws = None.
Proof.
  intros Hv.
  assert (step env (EvFrame ws (Some v)) st = step env (EvClose ws) st) as E.
  { cbn [step]. unfold mbind, M_bind. rewrite ws_handler_recv_other by done.
    unfold ws_handler_close. by destruct (remove_client ws st) as [[[[] ?] ?]|]. }
  split; [exact E|]. rewrite E. cbn [step]. unfold ws_handler_close.
  destruct (remove_client_total ws st) as (st' & out & -> & Hq & Hi).
  exists st', out. split; [done|]. rewrite Hq, Hi. split; [set_solver|].
  apply lookup_delete_eq.
Qed.

Lemma non_object_frame_closes_witness :
  ∃ st' out,
    step default_env (EvFrame 1%positive (Some (JList [JNum (PyInt 1)])))
      (matched {| new_room_id := "room-000000"; pop1 := 1%positive; pop2 := 2%positive |}
         (set_queue (λ _, {[1%positive; 2%positive]}) initial))
    = Some (tt, st', out) ∧
    (1%positive ∉ queue st') ∧ player_index st' !! 1%positive = None.
Proof.
  exact (proj2 (non_object_frame_closes default_env 1%positive (JList [JNum (PyInt 1)])
                  (matched {| new_room_id := "room-000000"; pop1 := 1%positive;
                              pop2 := 2%positive |}
                     (set_queue (λ _, {[1%positive; 2%positive]}) initial))
                  eq_refl)).
Defined.

(** X5: no JSON object ends a session.  In every state the server
    reaches, whatever fields a decoded object carries, the turn of the
    receive loop completes without an exception: the connection is not
    removed, the queue and the index are as before, and no room is
    registered or unregistered. *)
Theorem object_frame_keeps_session (env : Env) (st : Server) (ws : conn)
    (msg : list (string * jvalue)) :
  reachable env st →
  ∃ st' out,
    ws_handler_recv env ws (Some (JDict msg)) st = Some (None, st', out) ∧
    step env (EvFrame ws (Some (JDict msg))) st = Some (tt, st', out) ∧
    queue st' = queue st ∧ player_index st' = player_index st ∧
    dom (rooms st') = dom (rooms st).
Proof.
  intros Hst%reachable_inv.
  assert (∀ st' out,
    ws_handler_recv env ws (Some (JDict msg)) st = Some (None, st', out) →
    step env (EvFrame ws (Some (JDict msg))) st = Some (tt, st', out)) as Hstep.
  { intros st' out E. cbn [step]. unfold mbind, M_bind. rewrite E. cbn.
    by rewrite app_nil_r. }
  assert (∃ st' out,
    ws_handler_recv env ws (Some (JDict msg)) st = Some (None, st', out) ∧
    queue st' = queue st ∧ player_index st' = player_index st ∧
    dom (rooms st') = dom (rooms st)) as (st' & out & E & H).
  { rewrite ws_handler_recv_object.
    destruct (is_type (dict_get msg "type") "ping"); [by eexists _, _|].
    destruct (player_index st !! ws) as [c|]; [|by eexists _, _].
    destruct (rooms st !! PlayerConn.room_id c) as [room|] eqn:Hr; [|by eexists _, _].
    destruct (is_type (dict_get msg "type") "input"); [|by eexists _, _].
    destruct (apply_input_inv env room (PlayerConn.player_id c) msg) as [_ ->];
      [by eapply Hst|].
    eexists _, _. split; [done|]. cbn. split; [done|]. split; [done|].
    rewrite dom_insert_L. apply elem_of_dom_2 in Hr. set_solver. }
  exists st', out. split; [exact E|]. split; [by apply Hstep|exact H].
Qed.

Lemma object_frame_keeps_session_witness :
  ∃ st' out,
    ws_handler_recv default_env 1%positive
      (Some (JDict [("type", JStr "input"); ("dx", JList []); ("dy", JNum (PyInt 5))]))
      (playing played_room)
    = Some (None, st', out) ∧
    step default_env
      (EvFrame 1%positive
         (Some (JDict [("type", JStr "input"); ("dx", JList []); ("dy", JNum (PyInt 5))])))
      (playing played_room)
    = Some (tt, st', out) ∧
    queue st' = queue (playing played_room) ∧
    player_index st' = player_index (playing played_room) ∧
    dom (rooms st') = dom (rooms (playing played_room)).
Proof.
  apply (object_frame_keeps_session default_env (playing played_room) 1%positive
           [("type", JStr "input"); ("dx", JList []); ("dy", JNum (PyInt 5))]).
  exists played_run, wall_run_sends. vm_compute. reflexivity.
Defined.

(** [read_delta] reads the fields dx and dy and no other. *)
Lemma read_delta_ext env msg msg' :
  dict_get msg' "dx" = dict_get msg "dx" → dict_get msg' "dy" = dict_get msg "dy" →
  read_delta env msg' = read_delta env msg.
Proof. unfold read_delta. by intros -> ->. Qed.

Lemma apply_input_ext env room pid msg msg' :
  dict_get msg' "dx" = dict_get msg "dx" → dict_get msg' "dy" = dict_get msg "dy" →
  apply_input env room pid msg' = apply_input env room pid msg.
Proof.
  intros Hx Hy. unfold apply_input. by rewrite (read_delta_ext env msg msg' Hx Hy).
Qed.

Lemma ws_handler_recv_ext env ws msg msg' st :
  dict_get msg' "type" = dict_get msg "type" → dict_get msg' "ts" = dict_get msg "ts" →
  dict_get msg' "dx" = dict_get msg "dx" → dict_get msg' "dy" = dict_get msg "dy" →
  ws_handler_recv env ws (Some (JDict msg')) st
  = ws_handler_recv env ws (Some (JDict msg)) st.
Proof.
  intros Ht Hts Hx Hy. rewrite !ws_handler_recv_object, Ht, Hts.
  destruct (is_type (dict_get msg "type") "ping"); [done|].
  destruct (player_index st !! ws) as [c|]; [|done].
  destruct (rooms st !! PlayerConn.room_id c) as [room|]; [|done].
  by rewrite (apply_input_ext env room _ msg msg' Hx Hy).
Qed.

(** What one turn on an object can change: one player record of one room. *)
Lemma ws_handler_recv_frame env ws msg st :
  ∃ e st' out,
    ws_handler_recv env ws (Some (JDict msg)) st = Some (e, st', out) ∧
    queue st' = queue st ∧ player_index st' = player_index st ∧
    ∀ rid,
      match rooms st !! rid with
      | None => rooms st' !! rid = None
      | Some room =>
          ∃ room', rooms st' !! rid = Some room' ∧
            Room.room_id room' = Room.room_id room ∧
            Room.players room' = Room.players room ∧
            RoomState.tick (Room.state room') = RoomState.tick (Room.state room) ∧
            ∀ pid,
              (∀ c, player_index st !! ws = Some c →
                    ¬ (PlayerConn.room_id c = rid ∧ PlayerConn.player_id c = pid)) →
              RoomState.players (Room.state room') !! pid
              = RoomState.players (Room.state room) !! pid
      end.
Proof.
  assert (∀ rid,
    match rooms st !! rid with
    | None => rooms st !! rid = None
    | Some room =>
        ∃ room', rooms st !! rid = Some room' ∧
          Room.room_id room' = Room.room_id room ∧
          Room.players room' = Room.players room ∧
          RoomState.tick (Room.state room') = RoomState.tick (Room.state room) ∧
          ∀ pid,
            (∀ c, player_index st !! ws = Some c →
                  ¬ (PlayerConn.room_id c = rid ∧ PlayerConn.player_id c = pid)) →
            RoomState.players (Room.state room') !! pid
            = RoomState.players (Room.state room) !! pid
    end) as Hsame.
  { intros rid. destruct (rooms st !! rid) as [room|] eqn:Hr; [|done]. by exists room. }
  rewrite ws_handler_recv_object.
  destruct (is_type (dict_get msg "type") "ping"); [by eexists _, _, _|].
  destruct (player_index st !! ws) as [c|] eqn:Hc; [|by eexists _, _, _].
  destruct (rooms st !! PlayerConn.room_id c) as [room|] eqn:Hr; [|by eexists _, _, _].
  destruct (is_type (dict_get msg "type") "input"); [|by eexists _, _, _].
  eexists _, _, _. split; [done|]. cbn. split; [done|]. split; [done|].
  intros rid. rewrite lookup_insert. case_decide as Hk.
  - subst rid. rewrite Hr.
    pose proof (apply_input_frame env room (PlayerConn.player_id c) msg)
      as (Hid & Hpl & Htick & Hoth & _).
    eexists. split; [done|]. split; [done|]. split; [done|]. split; [done|].
    intros pid Hpid. apply Hoth. intros ->. by apply (Hpid c).
  - apply Hsame.
Qed.

(** X6: an input acts on the sender's own player and on nothing else.
    One turn of the receive loop on a JSON object always completes; it
    leaves the queue and the index as they were, registers and unregisters
    no room, and in every room keeps the id, the members and the tick; the
    only player record that can differ afterwards is the one filed under
    the sender's player id in the room the index gives for the sender.
    Which player moves is decided by the index alone: the turn depends on
    the message through its fields type, ts, dx and dy only. *)
Theorem input_moves_own_player_only (env : Env) (ws : conn)
    (msg : list (string * jvalue)) (st : Server) :
  ∃ e st' out,
    ws_handler_recv env ws (Some (JDict msg)) st = Some (e, st', out) ∧
    queue st' = queue st ∧ player_index st' = player_index st ∧
    (∀ rid,
       match rooms st !! rid with
       | None => rooms st' !! rid = None
       | Some room =>
           ∃ room', rooms st' !! rid = Some room' ∧
             Room.room_id room' = Room.room_id room ∧
             Room.players room' = Room.players room ∧
             RoomState.tick (Room.state room') = RoomState.tick (Room.state room) ∧
             ∀ pid,
               (∀ c, player_index st !! ws = Some c →
                     ¬ (PlayerConn.room_id c = rid ∧ PlayerConn.player_id c = pid)) →
               RoomState.players (Room.state room') !! pid
               = RoomState.players (Room.state room) !! pid
       end) ∧
    (∀ msg',
       dict_get msg' "type" = dict_get msg "type" → dict_get msg' "ts" = dict_get msg "ts" →
       dict_get msg' "dx" = dict_get msg "dx" → dict_get msg' "dy" = dict_get msg "dy" →
       ws_handler_recv env ws (Some (JDict msg')) st
       = ws_handler_recv env ws (Some (JDict msg)) st).
Proof.
  destruct (ws_handler_recv_frame env ws msg st) as (e & st' & out & E & Hq & Hi & Hr).
  exists e, st', out. repeat (split; [done|]).
  intros msg'. apply ws_handler_recv_ext.
Qed.

(** ** Arrivals *)




(** X8: arriving and leaving undoes itself.  When nobody waits, a
    connection that holds no slot, arrives and disconnects before anyone
    else arrives leaves the server in the state it found: the only trace is
    the [queue_joined] it was sent. *)
Theorem connect_then_close_restores (env : Env) (ws : conn) (o : match_oracle)
    (st : Server) :
  queue st = ∅ → player_index st !! ws = None →
  run env [EvConnect ws o; EvClose ws] st
  = Some (tt, st, [Send ws (QueueJoined PUBLIC_QUEUE)]).
Proof.
  intros Hq Hi. cbn [run step]. unfold mbind, M_bind.
  rewrite ws_handler_open_eq.
  set (st1 := set_queue (λ q, {[ws]} ∪ q) st).
  rewrite try_matchmaking_idle
    by (cbn; rewrite Hq, union_empty_r_L, size_singleton; lia).
  unfold ws_handler_close. rewrite remove_client_eq. cbn zeta.
  change (player_index st1) with (player_index st). rewrite Hi.
  unfold mret, M_ret. cbn.
  do 2 f_equal. f_equal. apply server_eq; cbn.
  - done.
  - rewrite Hq. set_solver.
  - by apply delete_id.
Qed.

Lemma connect_then_close_restores_witness :
  run default_env
    [EvConnect 1%positive
       {| new_room_id := "room-000000"; pop1 := 1%positive; pop2 := 2%positive |};
     EvClose 1%positive] initial
  = Some (tt, initial, [Send 1%positive (QueueJoined PUBLIC_QUEUE)]).
Proof.
  apply (connect_then_close_restores default_env 1%positive
           {| new_room_id := "room-000000"; pop1 := 1%positive; pop2 := 2%positive |}
           initial); reflexivity.
Defined.

(** ** Departures *)

(** X9: [remove_client] removes for good, and only once.  In any state
    the call returns; afterwards the connection is neither queued nor
    indexed; and calling it again for the same connection changes nothing
    and sends nothing. *)
Theorem remove_client_idempotent (ws : conn) (st : Server) :
  ∃ st' out,
    remove_client ws st = Some (tt, st', out) ∧
    (ws ∉ queue st') ∧ player_index st' !! ws = None ∧
    remove_client ws st' = Some (tt, st', []).
Proof.
  destruct (remove_client_total ws st) as (st' & out & E & Hq & Hi).
  exists st', out. split; [exact E|].
  assert (ws ∉ queue st') as Hq' by (rewrite Hq; set_solver).
  assert (player_index st' !! ws = None) as Hi' by (rewrite Hi; apply lookup_delete_eq).
  split; [exact Hq'|]. split; [exact Hi'|].
  rewrite remove_client_eq. cbn zeta. rewrite Hi'.
  do 2 f_equal. f_equal. apply server_eq; cbn.
  - done.
  - set_solver.
  - by apply delete_id.
Qed.

(** X10: a departure touches the leaver's slot and nothing else.  In a
    state where every room is registered under its own id, [remove_client]
    takes the connection, and no other, out of the queue and out of the
    index; it leaves every room other than the one the index gives for the
    leaver exactly as it was; a connection that holds no slot (one that is
    only queued, or unknown) changes no room and causes no message; and for
    a leaver with a slot the one room is left without that slot, or
    unregistered if that was its last, and [player_left] goes to the
    members that remain. *)
Theorem remove_client_frame (ws : conn) (st : Server) :
  (∀ rid room, rooms st !! rid = Some room → Room.room_id room = rid) →
  ∃ st' out,
    remove_client ws st = Some (tt, st', out) ∧
    queue st' = queue st ∖ {[ws]} ∧
    player_index st' = delete ws (player_index st) ∧
    (∀ rid, (∀ c, player_index st !! ws = Some c → PlayerConn.room_id c ≠ rid) →
            rooms st' !! rid = rooms st !! rid) ∧
    (player_index st !! ws = None → rooms st' = rooms st ∧ out = []) ∧
    (∀ c room,
       player_index st !! ws = Some c → rooms st !! PlayerConn.room_id c = Some room →
       let room' := leave (PlayerConn.player_id c) room in
       out = broadcast_sends room'
               (PlayerLeft (PlayerConn.player_id c) (PlayerConn.room_id c)) ∧
       rooms st' !! PlayerConn.room_id c
       = if decide (Room.players room' = ∅) then None else Some room').
Proof.
  intros Hid. rewrite remove_client_eq. cbn zeta.
  destruct (player_index st !! ws) as [c|] eqn:Hc.
  - destruct (rooms st !! PlayerConn.room_id c) as [room|] eqn:Hr.
    + assert (Room.room_id (leave (PlayerConn.player_id c) room) = PlayerConn.room_id c)
        as Hid'.
      { cbn. by apply Hid. }
      rewrite Hid'.
      eexists _, _. split; [done|].
      split; [by case_decide|]. split; [by case_decide|].
      split; [|split; [done|]].
      * intros rid Hrid. specialize (Hrid c eq_refl).
        case_decide; cbn; rewrite ?lookup_delete_ne, lookup_insert_ne by done; done.
      * intros c' room' [= <-] Hr'. rewrite Hr in Hr'. injection Hr' as <-.
        split; [done|].
        case_decide; cbn.
        -- apply lookup_delete_eq.
        -- apply lookup_insert_eq.
    + eexists _, _. split; [done|]. split; [done|]. split; [done|].
      split; [done|]. split; [done|].
      intros c' room' [= <-]. by rewrite Hr.
  - eexists _, _. split; [done|]. split; [done|]. split; [done|].
    split; [done|]. split; [done|]. done.
Qed.

Lemma remove_client_frame_witness :
  ∃ st' out,
    remove_client 2%positive
      (matched {| new_room_id := "room-000000"; pop1 := 1%positive; pop2 := 2%positive |}
         (set_queue (λ _, {[1%positive; 2%positive; 3%positive]}) initial))
    = Some (tt, st', out) ∧
    queue st' = {[3%positive]} ∧
    player_index st' !! 1%positive = Some (PlayerConn.mk 1%positive "p1" "room-000000") ∧
    out = [Send 1%positive (PlayerLeft "p2" "room-000000")].
Proof.
  destruct (remove_client_frame 2%positive
              (matched {| new_room_id := "room-000000"; pop1 := 1%positive; pop2 := 2%positive |}
                 (set_queue (λ _, {[1%positive; 2%positive; 3%positive]}) initial)))
    as (st' & out & E & Hq & Hi & _ & _ & Hm).
  - intros rid room. cbn. rewrite lookup_insert. case_decide.
    + by intros [= <-].
    + by rewrite lookup_empty.
  - exists st', out. split; [exact E|]. split.
    + rewrite Hq. by vm_compute.
    + split.
      * rewrite Hi. by vm_compute.
      * by destruct (Hm (PlayerConn.mk 2%positive "p2" "room-000000")
                       (paired_room "room-000000" 1%positive 2%positive) eq_refl eq_refl)
          as [-> _].
Defined.

(** ** Steps, case by case *)

(** What an arrival does: it waits, or the pairing succeeds. *)
Lemma ws_handler_open_cases ws o st st' out :
  ws_handler_open ws o st = Some (tt, st', out) →
  let st1 := set_queue (λ q, {[ws]} ∪ q) st in
  (st' = st1 ∧ out = [Send ws (QueueJoined PUBLIC_QUEUE)]) ∨
  (pop1 o ∈ queue st1 ∧ pop2 o ∈ queue st1 ∧ pop1 o ≠ pop2 o ∧
   (2 ≤ size (queue st1))%nat ∧
   st' = matched o st1 ∧ out = Send ws (QueueJoined PUBLIC_QUEUE) :: matched_sends o).
Proof.
  rewrite ws_handler_open_eq. intros H st1. fold st1 in H.
  destruct (try_matchmaking o st1) as [[[[] st2] out2]|] eqn:E; [|done].
  injection H as <- <-.
  destruct (Nat.lt_ge_cases (size (queue st1)) 2) as [Hlt|Hge].
  - rewrite try_matchmaking_idle in E by done. injection E as <- <-. by left.
  - destruct (try_matchmaking_feasible o st1 _ _ Hge E) as (Ha & Hb & Hab).
    rewrite try_matchmaking_pair in E by done. injection E as <- <-. by right.
Qed.

(** What a turn of the receive loop does to the state and sends. *)
Lemma ws_handler_recv_cases env ws raw st e st' out :
  ws_handler_recv env ws raw st = Some (e, st', out) →
  (out = [] ∨ ∃ ts, out = [Send ws (Pong ts)]) ∧
  (st' = st ∨
   ∃ c room msg,
     player_index st !! ws = Some c ∧ rooms st !! PlayerConn.room_id c = Some room ∧
     st' = set_rooms (insert (PlayerConn.room_id c)
                        (apply_input env room (PlayerConn.player_id c) msg).1) st).
Proof.
  destruct raw as [v|]; [|intros [= <- <- <-]; by auto].
  destruct (is_object v) eqn:Hv.
  - destruct v as [| | | | |msg]; try done. rewrite ws_handler_recv_object.
    destruct (is_type (dict_get msg "type") "ping"); [intros [= <- <- <-]; by eauto|].
    destruct (player_index st !! ws) as [c|] eqn:Hc; [|intros [= <- <- <-]; by auto].
    destruct (rooms st !! PlayerConn.room_id c) as [room|] eqn:Hr;
      [|intros [= <- <- <-]; by auto].
    destruct (is_type (dict_get msg "type") "input"); [|intros [= <- <- <-]; by auto].
    intros [= <- <- <-]. split; [by left|]. right. by exists c, room, msg.
  - rewrite ws_handler_recv_other by done. intros [= <- <- <-]. by auto.
Qed.

(** A property of the state kept by the four handlers is kept by every
    step and along every run. *)
Lemma step_preserves (env : Env) (P : Server → Prop) :
  (∀ ws o st st' out, ws_handler_open ws o st = Some (tt, st', out) → P st → P st') →
  (∀ ws raw st e st' out,
     ws_handler_recv env ws raw st = Some (e, st', out) → P st → P st') →
  (∀ ws st st' out, remove_client ws st = Some (tt, st', out) → P st → P st') →
  (∀ st st' out, snapshot_loop_iteration st = Some (tt, st', out) → P st → P st') →
  ∀ ev st st' out, step env ev st = Some (tt, st', out) → P st → P st'.
Proof.
  intros Ho Hr Hc Ht ev st st' out.
  destruct ev as [ws o|ws raw|ws|]; cbn [step].
  - apply Ho.
  - unfold mbind, M_bind.
    destruct (ws_handler_recv env ws raw st) as [[[e st1] out1]|] eqn:E; [|done].
    intros H Hst. pose proof (Hr _ _ _ _ _ _ E Hst) as H1.
    destruct e as [e|].
    + unfold ws_handler_close in H.
      destruct (remove_client ws st1) as [[[[] st2] out2]|] eqn:E2; [|done].
      injection H as <- <-. by eapply Hc.
    + unfold mret, M_ret in H. by injection H as <- <-.
  - apply Hc.
  - apply Ht.
Qed.

Lemma run_preserves (env : Env) (P : Server → Prop) :
  (∀ ev st st' out, step env ev st = Some (tt, st', out) → P st → P st') →
  ∀ evs st st' out, run env evs st = Some (tt, st', out) → P st → P st'.
Proof.
  intros Hstep evs. induction evs as [|ev evs IH]; intros st st' out; cbn [run].
  - unfold mret, M_ret. by intros [= <- <-].
  - unfold mbind, M_bind.
    destruct (step env ev st) as [[[[] st1] out1]|] eqn:E; [|done].
    destruct (run env evs st1) as [[[[] st2] out2]|] eqn:E2; [|done].
    intros [= <- <-] Hst. eapply IH; [exact E2|]. by eapply Hstep.
Qed.

(** ** The size of a room *)

Lemma room_shape_paired rid a b : room_shape rid (paired_room rid a b).
Proof.
  split; [done|]. split.
  - unfold paired_room. cbn [Room.players].
    rewrite !map_size_insert_None, map_size_empty by done. lia.
  - unfold paired_room. cbn [Room.players]. rewrite !dom_insert_L, dom_empty_L. set_solver.
Qed.

Lemma room_shape_leave rid pid room :
  room_shape rid room → Room.players (leave pid room) ≠ ∅ →
  room_shape rid (leave pid room).
Proof.
  intros (Hid & [_ Hs] & Hd) Hne. split; [done|]. cbn in *. split.
  - split.
    + apply map_size_non_empty_iff in Hne. lia.
    + pose proof (map_size_delete pid (Room.players room)) as Hdel.
      destruct (Room.players room !! pid); unfold id in Hdel; lia.
  - rewrite dom_delete_L. set_solver.
Qed.

Lemma room_shape_same rid room room' :
  Room.room_id room' = Room.room_id room → Room.players room' = Room.players room →
  room_shape rid room → room_shape rid room'.
Proof. unfold room_shape. by intros -> ->. Qed.

Lemma rooms_shaped_insert st rid room :
  rooms_shaped st → room_shape rid room → rooms_shaped (set_rooms (insert rid room) st).
Proof.
  intros Hst Hr rid' room'. cbn. rewrite lookup_insert. case_decide.
  - intros [= <-]. by subst.
  - apply Hst.
Qed.

Lemma ws_handler_open_shaped ws o st st' out :
  ws_handler_open ws o st = Some (tt, st', out) → rooms_shaped st → rooms_shaped st'.
Proof.
  intros [[-> _]|(_ & _ & _ & _ & -> & _)]%ws_handler_open_cases Hst; [done|].
  intros rid room. cbn. rewrite lookup_insert. case_decide.
  - intros [= <-]. subst. apply room_shape_paired.
  - apply Hst.
Qed.

Lemma ws_handler_recv_shaped env ws raw st e st' out :
  ws_handler_recv env ws raw st = Some (e, st', out) → rooms_shaped st → rooms_shaped st'.
Proof.
  intros [_ [->|(c & room & msg & Hc & Hr & ->)]]%ws_handler_recv_cases Hst; [done|].
  apply rooms_shaped_insert; [done|].
  pose proof (apply_input_frame env room (PlayerConn.player_id c) msg) as (Hid & Hpl & _).
  eapply room_shape_same; [exact Hid|exact Hpl|]. by apply Hst.
Qed.

Lemma remove_client_shaped ws st st' out :
  remove_client ws st = Some (tt, st', out) → rooms_shaped st → rooms_shaped st'.
Proof.
  rewrite remove_client_eq. cbn zeta. intros H Hst.
  destruct (player_index st !! ws) as [c|]; [|by injection H as <- <-].
  destruct (rooms st !! PlayerConn.room_id c) as [room|] eqn:Hr; [|by injection H as <- <-].
  case_decide as Hemp; injection H as <- <-.
  - intros rid room'. cbn. intros [Hne Hl]%lookup_delete_Some.
    rewrite lookup_insert in Hl. case_decide as Hk.
    + injection Hl as <-. subst rid. destruct (Hst _ _ Hr) as [Hid _]. cbn in Hne. done.
    + by apply Hst.
  - apply (rooms_shaped_insert (set_player_index _ (set_queue _ st))); [done|].
    apply room_shape_leave; [by apply Hst|done].
Qed.

Lemma snapshot_loop_iteration_shaped st st' out :
  snapshot_loop_iteration st = Some (tt, st', out) → rooms_shaped st → rooms_shaped st'.
Proof.
  unfold snapshot_loop_iteration. run_M. cbn. intros [= <- <-] Hst rid room. cbn.
  rewrite lookup_fmap. destruct (rooms st !! rid) as [r|] eqn:Hr; [|done].
  intros [= <-]. by apply (Hst rid r).
Qed.

Lemma step_shaped env ev st st' out :
  step env ev st = Some (tt, st', out) → rooms_shaped st → rooms_shaped st'.
Proof.
  apply (step_preserves env rooms_shaped).
  - apply ws_handler_open_shaped.
  - apply ws_handler_recv_shaped.
  - apply remove_client_shaped.
  - apply snapshot_loop_iteration_shaped.
Qed.

Lemma reachable_shaped env st : reachable env st → rooms_shaped st.
Proof.
  intros (evs & out & H). eapply (run_preserves env rooms_shaped); [|exact H|].
  - apply step_shaped.
  - intros rid room. unfold initial. cbn. by rewrite lookup_empty.
Qed.

(** X11: a room holds one or two players.  In every state the server
    reaches, every registered room is filed under its own id and has at
    least one and at most two members (the MAX_ROOM_SIZE that the source
    declares and never reads), in the slots "p1" and "p2" only; a room that
    loses its last member does not stay registered. *)
Theorem rooms_hold_one_or_two (env : Env) (st : Server) (rid : string) (room : Room.t) :
  reachable env st → rooms st !! rid = Some room →
  Room.room_id room = rid ∧
  (1 ≤ size (Room.players room) ≤ 2)%nat ∧
  dom (Room.players room) ⊆ {["p1"; "p2"]}.
Proof. intros Hst Hr. by apply (reachable_shaped env st Hst). Qed.

Lemma rooms_hold_one_or_two_witness :
  Room.room_id (leave "p1" (paired_room "room-000000" 1%positive 2%positive)) = "room-000000" ∧
  (1 ≤ size (Room.players (leave "p1" (paired_room "room-000000" 1%positive 2%positive))) ≤ 2)%nat ∧
  dom (Room.players (leave "p1" (paired_room "room-000000" 1%positive 2%positive)))
    ⊆ {["p1"; "p2"]}.
Proof.
  apply (rooms_hold_one_or_two default_env
           {| rooms := {["room-000000" :=
                           leave "p1" (paired_room "room-000000" 1%positive 2%positive)]};
              queue := ∅;
              player_index := {[2%positive := PlayerConn.mk 2%positive "p2" "room-000000"]} |}).
  - exists [EvConnect 1%positive
              {| new_room_id := "room-000000"; pop1 := 1%positive; pop2 := 2%positive |};
            EvConnect 2%positive
              {| new_room_id := "room-000000"; pop1 := 1%positive; pop2 := 2%positive |};
            EvClose 1%positive].
    eexists. vm_compute. reflexivity.
  - reflexivity.
Defined.

(** ** The registries along a run *)

(** In lockstep, a connection holds at most one slot. *)
Lemma consistent_one_slot st rid1 room1 pid1 pc1 rid2 room2 pid2 pc2 :
  registry_consistent st →
  rooms st !! rid1 = Some room1 → Room.players room1 !! pid1 = Some pc1 →
  rooms st !! rid2 = Some room2 → Room.players room2 !! pid2 = Some pc2 →
  PlayerConn.ws pc1 = PlayerConn.ws pc2 → rid1 = rid2 ∧ pid1 = pid2 ∧ pc1 = pc2.
Proof.
  intros [Hr _] H1 Hp1 H2 Hp2 Hws.
  destruct (Hr _ _ H1) as [_ Hm1]. destruct (Hm1 _ _ Hp1) as (Hi1 & <- & <-).
  destruct (Hr _ _ H2) as [_ Hm2]. destruct (Hm2 _ _ Hp2) as (Hi2 & <- & <-).
  rewrite Hws, Hi2 in Hi1. by injection Hi1 as ->.
Qed.

Lemma consistent_queued_no_slot st ws rid room pid pc :
  registry_consistent st → ws ∈ queue st →
  rooms st !! rid = Some room → Room.players room !! pid = Some pc →
  PlayerConn.ws pc ≠ ws.
Proof.
  intros [Hr Hq] Hws H1 Hp1 E.
  destruct (Hr _ _ H1) as [_ Hm1]. destruct (Hm1 _ _ Hp1) as (Hi1 & _).
  rewrite E, (Hq _ Hws) in Hi1. done.
Qed.

(** X12: the three registries stay in lockstep.  Along every run from
    the empty server in which each connection object arrives once, every
    member of every registered room is filed in the index under its own
    connection, with the id of that room and of its slot, and no queued
    connection is indexed.  Hence no connection holds two slots, in one
    room or in two, the two members of a room are different connections,
    and no connection is at once waiting and playing. *)
Theorem registries_in_lockstep (env : Env) (evs : list event) (st : Server)
    (out : list send) :
  arrivals_fresh env evs initial →
  run env evs initial = Some (tt, st, out) →
  registry_consistent st ∧
  (∀ rid1 room1 pid1 pc1 rid2 room2 pid2 pc2,
     rooms st !! rid1 = Some room1 → Room.players room1 !! pid1 = Some pc1 →
     rooms st !! rid2 = Some room2 → Room.players room2 !! pid2 = Some pc2 →
     PlayerConn.ws pc1 = PlayerConn.ws pc2 → rid1 = rid2 ∧ pid1 = pid2) ∧
  (∀ ws rid room pid pc,
     ws ∈ queue st → rooms st !! rid = Some room → Room.players room !! pid = Some pc →
     PlayerConn.ws pc ≠ ws).
Proof.
  intros Hf Hrun.
  assert (registry_consistent st) as Hc.
  { eapply run_consistent; [exact Hrun|exact Hf|apply registry_consistent_initial]. }
  split; [exact Hc|]. split.
  - intros rid1 room1 pid1 pc1 rid2 room2 pid2 pc2 H1 Hp1 H2 Hp2 Hws.
    by destruct (consistent_one_slot st _ _ _ _ _ _ _ _ Hc H1 Hp1 H2 Hp2 Hws) as (? & ? & _).
  - intros ws rid room pid pc. by apply consistent_queued_no_slot.
Qed.

Lemma registries_in_lockstep_witness :
  registry_consistent
    (matched {| new_room_id := "room-000000"; pop1 := 2%positive; pop2 := 1%positive |}
       (set_queue (λ _, {[1%positive; 2%positive]}) initial)).
Proof.
  apply (registries_in_lockstep default_env
           [EvConnect 1%positive
              {| new_room_id := "room-000000"; pop1 := 2%positive; pop2 := 1%positive |};
            EvConnect 2%positive
              {| new_room_id := "room-000000"; pop1 := 2%positive; pop2 := 1%positive |}]
           (matched {| new_room_id := "room-000000"; pop1 := 2%positive; pop2 := 1%positive |}
              (set_queue (λ _, {[1%positive; 2%positive]}) initial))
           [Send 1%positive (QueueJoined PUBLIC_QUEUE);
            Send 2%positive (QueueJoined PUBLIC_QUEUE);
            Send 2%positive (Welcome "p1" "room-000000");
            Send 1%positive (Welcome "p2" "room-000000");
            Send 2%positive (MatchFound "room-000000" ["p1"; "p2"]);
            Send 1%positive (MatchFound "room-000000" ["p1"; "p2"])]).
  - vm_compute. repeat split; try done; by intros [].
  - vm_compute. reflexivity.
Defined.

(** ** The index, read backwards *)


Lemma matched_index_sound o st :
  index_sound st → rooms st !! new_room_id o = None → index_sound (matched o st).
Proof.
  intros Hs Hfresh ws pc. cbn.
  rewrite lookup_insert. case_decide as H2.
  { intros [= <-]. subst ws. split; [done|].
    exists (paired_room (new_room_id o) (pop1 o) (pop2 o)).
    split; [cbn; apply lookup_insert_eq|]. cbn. apply lookup_insert_eq. }
  rewrite lookup_insert. case_decide as H1.
  { intros [= <-]. subst ws. split; [done|].
    exists (paired_room (new_room_id o) (pop1 o) (pop2 o)).
    split; [cbn; apply lookup_insert_eq|]. cbn.
    rewrite lookup_insert_ne by done. apply lookup_insert_eq. }
  intros Hpc. destruct (Hs ws pc Hpc) as (Hws & room & Hr & Hm).
  split; [done|]. exists room. split; [|done].
  rewrite lookup_insert_ne; [done|]. intros E. rewrite E, Hr in Hfresh. done.
Qed.









(** X14: a room id that is handed out twice.  [create_room_with_pair]
    does not look whether the id is taken.  When the lockstep holds and the
    pairing is given the id of a room that is still registered, the new
    pair's room replaces it in the registry, while every member of the
    replaced room stays in the index under that id and its old slot, a
    slot that now belongs to someone else: from then on the index no longer
    points at members. *)
Theorem room_id_collision_replaces_room (o : match_oracle) (st : Server)
    (old : Room.t) (pid : string) (pc : PlayerConn.t) :
  registry_consistent st →
  rooms st !! new_room_id o = Some old → Room.players old !! pid = Some pc →
  pop1 o ∈ queue st → pop2 o ∈ queue st → pop1 o ≠ pop2 o →
  ∃ st',
    try_matchmaking o st = Some (tt, st', matched_sends o) ∧
    rooms st' !! new_room_id o = Some (paired_room (new_room_id o) (pop1 o) (pop2 o)) ∧
    player_index st' !! PlayerConn.ws pc = Some pc ∧
    PlayerConn.room_id pc = new_room_id o ∧ PlayerConn.player_id pc = pid ∧
    Room.players (paired_room (new_room_id o) (pop1 o) (pop2 o)) !! pid ≠ Some pc ∧
    ¬ index_sound st'.
Proof.
  intros Hc Hold Hpc Ha Hb Hab.
  assert (2 ≤ size (queue st))%nat as Hsz.
  { pose proof (subseteq_size {[pop1 o; pop2 o]} (queue st) ltac:(set_solver)) as Hle.
    rewrite size_union, !size_singleton in Hle by set_solver. lia. }
  exists (matched o st). split; [by apply try_matchmaking_pair|].
  pose proof Hc as [Hr Hq].
  destruct (Hr _ _ Hold) as [_ Hm]. destruct (Hm _ _ Hpc) as (Hi & Hrid & Hpid).
  assert (PlayerConn.ws pc ≠ pop1 o) as Hn1.
  { intros E. rewrite E, (Hq _ Ha) in Hi. done. }
  assert (PlayerConn.ws pc ≠ pop2 o) as Hn2.
  { intros E. rewrite E, (Hq _ Hb) in Hi. done. }
  assert (player_index (matched o st) !! PlayerConn.ws pc = Some pc) as Hi'.
  { cbn. by rewrite !lookup_insert_ne. }
  assert (Room.players (paired_room (new_room_id o) (pop1 o) (pop2 o)) !! pid ≠ Some pc)
    as Hslot.
  { unfold paired_room. cbn [Room.players]. rewrite !lookup_insert.
    repeat case_decide; try (rewrite lookup_empty; done);
      intros [= <-]; cbn in *; done. }
  split; [cbn; apply lookup_insert_eq|]. split; [exact Hi'|].
  split; [done|]. split; [done|]. split; [exact Hslot|].
  intros Hs. destruct (Hs _ _ Hi') as (_ & room & Hroom & Hmem).
  rewrite Hrid in Hroom. cbn in Hroom. rewrite lookup_insert_eq in Hroom.
  injection Hroom as <-. rewrite Hpid in Hmem. done.
Qed.

Lemma room_id_collision_replaces_room_witness :
  ∃ st',
    try_matchmaking {| new_room_id := "room-000000"; pop1 := 3%positive; pop2 := 4%positive |}
      (matched {| new_room_id := "room-000000"; pop1 := 1%positive; pop2 := 2%positive |}
         (set_queue (λ _, {[1%positive; 2%positive; 3%positive; 4%positive]}) initial))
    = Some (tt, st',
            matched_sends
              {| new_room_id := "room-000000"; pop1 := 3%positive; pop2 := 4%positive |}) ∧
    rooms st' !! "room-000000" = Some (paired_room "room-000000" 3%positive 4%positive) ∧
    player_index st' !! 1%positive = Some (PlayerConn.mk 1%positive "p1" "room-000000") ∧
    ¬ index_sound st'.
Proof.
  destruct (room_id_collision_replaces_room
              {| new_room_id := "room-000000"; pop1 := 3%positive; pop2 := 4%positive |}
              (matched {| new_room_id := "room-000000"; pop1 := 1%positive; pop2 := 2%positive |}
                 (set_queue (λ _, {[1%positive; 2%positive; 3%positive; 4%positive]}) initial))
              (paired_room "room-000000" 1%positive 2%positive) "p1"
              (PlayerConn.mk 1%positive "p1" "room-000000"))
    as (st' & E & Hr & Hi & _ & _ & _ & Hs).
  - apply matched_consistent.
    + split.
      * intros rid room. cbn. by rewrite lookup_empty.
      * intros ws _. cbn. apply lookup_empty.
    + by vm_compute.
    + by vm_compute.
    + done.
  - reflexivity.
  - reflexivity.
  - by vm_compute.
  - by vm_compute.
  - done.
  - exists st'. by repeat split.
Defined.

(** ** Who is sent to *)

(** The rooms [remove_client] leaves hold members that were there before. *)
Lemma remove_client_members ws st st' out rid room' pid pc :
  remove_client ws st = Some (tt, st', out) →
  rooms st' !! rid = Some room' → Room.players room' !! pid = Some pc →
  ∃ room, rooms st !! rid = Some room ∧ Room.players room !! pid = Some pc.
Proof.
  intros Hrm Hr' Hpc.
  destruct (remove_client_rooms _ _ _ _ _ _ Hrm Hr') as [Hr|(room & pid' & Hr & ->)].
  - by exists room'.
  - exists room. split; [done|]. cbn in Hpc. by apply lookup_delete_Some in Hpc as [_ ?].
Qed.

Lemma remove_client_sends_members ws st st' out s :
  remove_client ws st = Some (tt, st', out) → s ∈ out →
  ∃ c room pid pc,
    player_index st !! ws = Some c ∧ rooms st !! PlayerConn.room_id c = Some room ∧
    pid ≠ PlayerConn.player_id c ∧ Room.players room !! pid = Some pc ∧
    send_to s = PlayerConn.ws pc.
Proof.
  rewrite remove_client_eq. cbn zeta.
  destruct (player_index st !! ws) as [c|] eqn:Hc;
    [|intros [= <- <-]; by intros ?%elem_of_nil].
  destruct (rooms st !! PlayerConn.room_id c) as [room|] eqn:Hr;
    [|intros [= <- <-]; by intros ?%elem_of_nil].
  intros [= _ <-] (pid & pc & Hpc & ->)%elem_of_broadcast_sends.
  cbn in Hpc. apply lookup_delete_Some in Hpc as [Hne Hpc].
  by exists c, room, pid, pc.
Qed.

(** After its own departure a connection in lockstep is held nowhere, and
    the [player_left] of the departure does not go to it. *)
Lemma remove_client_absent ws st st' out :
  remove_client ws st = Some (tt, st', out) → registry_consistent st →
  absent ws st' ∧ not_sent_to ws out.
Proof.
  intros Hrm Hc. pose proof Hc as [Hr Hq].
  assert (∀ rid room pid pc,
    rooms st !! rid = Some room → Room.players room !! pid = Some pc →
    PlayerConn.ws pc = ws →
    player_index st !! ws = Some pc ∧ PlayerConn.room_id pc = rid ∧
    PlayerConn.player_id pc = pid) as Hmine.
  { intros rid room pid pc H1 Hp <-. destruct (Hr _ _ H1) as [_ Hm]. by apply Hm. }
  split.
  - split.
    + destruct (remove_client_total ws st) as (st2 & out2 & E & Hq2 & _).
      rewrite Hrm in E. injection E as <- <-. rewrite Hq2. set_solver.
    + intros rid room' pid pc Hr' Hpc Hws.
      destruct (remove_client_members _ _ _ _ _ _ _ _ Hrm Hr' Hpc) as (room & Hroom & Hp).
      destruct (Hmine _ _ _ _ Hroom Hp Hws) as (Hi & Hrid & Hpid).
      revert Hrm Hr' Hpc. rewrite remove_client_eq. cbn zeta. rewrite Hi, Hrid, Hroom, Hpid.
      destruct (Hr _ _ Hroom) as [Hid _].
      case_decide as Hemp; intros [= <- <-]; cbn.
      * rewrite Hid. by rewrite lookup_delete_eq.
      * rewrite lookup_insert_eq. intros [= <-]. cbn. by rewrite lookup_delete_eq.
  - apply Forall_forall. intros s Hs.
    destruct (remove_client_sends_members _ _ _ _ _ Hrm Hs)
      as (c & room & pid & pc & Hi & Hroom & Hne & Hp & ->).
    intros Hws. destruct (Hmine _ _ _ _ Hroom Hp Hws) as (Hi2 & _ & Hpid).
    rewrite Hi in Hi2. injection Hi2 as ->. done.
Qed.

(** ** Broadcasts *)

(** X16: a broadcast reaches the members, each once, and nobody else.
    [broadcast] leaves the state of the server alone; it attempts as many
    sends as the room has members, one to the connection of every slot, all
    with the same payload; to an empty room it sends nothing. *)
Theorem broadcast_reaches_members (room : Room.t) (pl : payload) (st : Server) :
  broadcast room pl st = Some (tt, st, broadcast_sends room pl) ∧
  length (broadcast_sends room pl) = size (Room.players room) ∧
  (∀ s, s ∈ broadcast_sends room pl ↔
        ∃ pid pc, Room.players room !! pid = Some pc ∧ s = Send (PlayerConn.ws pc) pl) ∧
  (broadcast_sends room pl = [] ↔ Room.players room = ∅).
Proof.
  split; [done|]. split.
  { unfold broadcast_sends. by rewrite length_fmap, length_map_to_list. }
  split; [apply elem_of_broadcast_sends|].
  unfold broadcast_sends. split.
  - intros H%fmap_nil_inv. by apply map_to_list_empty_iff.
  - intros ->. by rewrite map_to_list_empty.
Qed.

(** ** Who receives which snapshot *)

Lemma filter_concat {A} (P : A → Prop) `{∀ x, Decision (P x)} (ls : list (list A)) :
  filter P (concat ls) = concat (filter P <$> ls).
Proof.
  induction ls as [|l ls IH]; [done|]. cbn. by rewrite filter_app, IH.
Qed.

Lemma filter_fmap_concat {A B} (P : B → Prop) `{∀ x, Decision (P x)} (h : A → B)
    (l : list A) :
  filter P (h <$> l) = concat ((λ y, filter P [h y]) <$> l).
Proof.
  induction l as [|y l IH]; [done|]. cbn [fmap list_fmap concat].
  change (h y :: (h <$> l)) with ([h y] ++ (h <$> l)). by rewrite filter_app, IH.
Qed.

(** In a list without duplicates, if one element only contributes, the
    concatenation is its contribution. *)
Lemma concat_fmap_unique {A B} (g : A → list B) (l : list A) (x : A) :
  NoDup l → x ∈ l → (∀ y, y ∈ l → y ≠ x → g y = []) → concat (g <$> l) = g x.
Proof.
  intros Hnd. induction Hnd as [|y l Hy Hnd IH]; [by intros ?%elem_of_nil|].
  intros [->|Hx]%elem_of_cons Hg; cbn [fmap list_fmap concat].
  - assert (concat (g <$> l) = []) as ->; [|apply app_nil_r].
    clear IH. induction l as [|z l IHl]; [done|]. cbn.
    rewrite (Hg z); [|set_solver|set_solver]. cbn. apply IHl.
    + set_solver.
    + by apply NoDup_cons in Hnd as [_ ?].
    + intros w Hw Hne. apply Hg; [set_solver|done].
  - rewrite (Hg y); [|set_solver|set_solver]. cbn. apply IH; [done|].
    intros w Hw Hne. apply Hg; [set_solver|done].
Qed.

Lemma concat_fmap_none {A B} (g : A → list B) (l : list A) :
  (∀ y, y ∈ l → g y = []) → concat (g <$> l) = [].
Proof.
  induction l as [|y l IH]; [done|]. intros Hg. cbn.
  rewrite (Hg y) by set_solver. cbn. apply IH. intros w Hw. apply Hg. set_solver.
Qed.

(** The sends of a broadcast that are addressed to one connection, when
    that connection holds exactly one slot of the room, or none. *)
Lemma filter_broadcast_member ws room pl pid pc :
  Room.players room !! pid = Some pc → PlayerConn.ws pc = ws →
  (∀ pid' pc', Room.players room !! pid' = Some pc' → PlayerConn.ws pc' = ws →
               pid' = pid) →
  filter (λ s, send_to s = ws) (broadcast_sends room pl) = [Send ws pl].
Proof.
  intros Hpc Hws Huniq. unfold broadcast_sends.
  rewrite filter_fmap_concat.
  rewrite (concat_fmap_unique _ _ (pid, pc)).
  - cbn. rewrite Hws. by rewrite decide_True.
  - apply NoDup_map_to_list.
  - by apply elem_of_map_to_list.
  - intros [pid' pc'] Hin%elem_of_map_to_list Hne. cbn in *.
    case_decide as Hd; [|done].
    pose proof (Huniq _ _ Hin Hd) as ->. rewrite Hpc in Hin. by injection Hin as <-.
Qed.

Lemma filter_broadcast_stranger ws room pl :
  (∀ pid pc, Room.players room !! pid = Some pc → PlayerConn.ws pc ≠ ws) →
  filter (λ s, send_to s = ws) (broadcast_sends room pl) = [].
Proof.
  intros H. unfold broadcast_sends. rewrite filter_fmap_concat.
  apply concat_fmap_none. intros [pid pc] Hin%elem_of_map_to_list. cbn in *.
  case_decide as Hd; [|done].
  by destruct (H _ _ Hin).
Qed.

Lemma snapshot_loop_iteration_eq st :
  snapshot_loop_iteration st =
  Some (tt, set_rooms (fmap (λ r, (snapshot_room r).1)) st,
        concat ((λ kv, (snapshot_room kv.2).2) <$> map_to_list (rooms st))).
Proof. reflexivity. Qed.

Lemma snapshot_loop_iteration_rooms st st' out rid :
  snapshot_loop_iteration st = Some (tt, st', out) →
  rooms st' !! rid = (λ r, (snapshot_room r).1) <$> rooms st !! rid.
Proof. rewrite snapshot_loop_iteration_eq. intros [= <- _]. cbn. apply lookup_fmap. Qed.

(** X17: every player is sent its own room's snapshot, once per tick.
    When the registries are in lockstep and the index points at members,
    one iteration of the snapshot broadcaster sends to every indexed
    connection exactly one message: the snapshot that carries the id of the
    room the connection is indexed to and that room's state as registered
    after the iteration.  A connection that is not indexed (one that is
    waiting, or unknown) is sent nothing. *)
Theorem snapshot_reaches_each_player (st : Server) (ws : conn) :
  registry_consistent st → index_sound st →
  ∃ st' out,
    snapshot_loop_iteration st = Some (tt, st', out) ∧
    match player_index st !! ws with
    | None => filter (λ s, send_to s = ws) out = []
    | Some pc =>
        ∃ room', rooms st' !! PlayerConn.room_id pc = Some room' ∧
          filter (λ s, send_to s = ws) out
          = [Send ws (Snapshot (PlayerConn.room_id pc) (Room.state room'))]
    end.
Proof.
  intros Hc Hs. pose proof Hc as [Hr Hq].
  eexists _, _. split; [apply snapshot_loop_iteration_eq|].
  rewrite filter_concat, <- list_fmap_compose.
  destruct (player_index st !! ws) as [pc|] eqn:Hi.
  - destruct (Hs _ _ Hi) as (Hws & room & Hroom & Hm).
    destruct (Hr _ _ Hroom) as [Hid _].
    exists (snapshot_room room).1. split.
    { cbn. by rewrite lookup_fmap, Hroom. }
    rewrite (concat_fmap_unique _ _ (PlayerConn.room_id pc, room)).
    + cbn. rewrite Hid. apply (filter_broadcast_member _ _ _ (PlayerConn.player_id pc) pc).
      * done.
      * done.
      * intros pid' pc' Hpc' Hws'. cbn in Hpc'.
        destruct (consistent_one_slot st _ _ _ _ _ _ _ _ Hc Hroom Hpc' Hroom Hm
                    ltac:(congruence)) as (_ & ? & _). done.
    + apply NoDup_map_to_list.
    + by apply elem_of_map_to_list.
    + intros [rid r] Hin%elem_of_map_to_list Hne. cbn in *.
      apply filter_broadcast_stranger. intros pid' pc' Hpc' Hws'. cbn in Hpc'.
      destruct (consistent_one_slot st _ _ _ _ _ _ _ _ Hc Hin Hpc' Hroom Hm
                  ltac:(congruence)) as (-> & _ & _).
      rewrite Hroom in Hin. by injection Hin as <-.
  - apply concat_fmap_none. intros [rid r] Hin%elem_of_map_to_list. cbn in *.
    apply filter_broadcast_stranger. intros pid' pc' Hpc' Hws'. cbn in Hpc'.
    destruct (Hr _ _ Hin) as [_ Hm]. destruct (Hm _ _ Hpc') as (Hi' & _).
    rewrite Hws', Hi in Hi'. done.
Qed.

Lemma snapshot_reaches_each_player_witness :
  ∃ st' out room',
    snapshot_loop_iteration
      (matched {| new_room_id := "room-000000"; pop1 := 1%positive; pop2 := 2%positive |}
         (set_queue (λ _, {[1%positive; 2%positive; 3%positive]}) initial))
    = Some (tt, st', out) ∧
    rooms st' !! "room-000000" = Some room' ∧
    RoomState.tick (Room.state room') = 1 ∧
    filter (λ s, send_to s = 1%positive) out
    = [Send 1%positive (Snapshot "room-000000" (Room.state room'))].
Proof.
  destruct (snapshot_reaches_each_player
              (matched {| new_room_id := "room-000000"; pop1 := 1%positive; pop2 := 2%positive |}
                 (set_queue (λ _, {[1%positive; 2%positive; 3%positive]}) initial))
              1%positive) as (st' & out & E & H).
  - apply matched_consistent.
    + split.
      * intros rid room. cbn. by rewrite lookup_empty.
      * intros ws _. cbn. apply lookup_empty.
    + by vm_compute.
    + by vm_compute.
    + done.
  - apply matched_index_sound; [|reflexivity].
    intros ws pc. cbn. by rewrite lookup_empty.
  - set (x := player_index _ !! _) in H.
    assert (x = Some (PlayerConn.mk 1%positive "p1" "room-000000")) as Hi by reflexivity.
    clearbody x.
    rewrite Hi in H. destruct H as (room' & Hroom & Hout). cbn [PlayerConn.room_id] in *.
    exists st', out, room'. split; [exact E|]. split; [exact Hroom|]. split; [|exact Hout].
    rewrite (snapshot_loop_iteration_rooms _ _ _ "room-000000" E) in Hroom.
    cbn [rooms matched new_room_id] in Hroom. rewrite lookup_insert_eq in Hroom.
    cbn [fmap option_fmap option_map] in Hroom. injection Hroom as <-. reflexivity.
Defined.

(** ** A whole session *)

Lemma run_app env evs1 evs2 st :
  run env (evs1 ++ evs2) st =
  match run env evs1 st with
  | Some (_, st1, out1) =>
      match run env evs2 st1 with
      | Some (_, st2, out2) => Some (tt, st2, out1 ++ out2)
      | None => None
      end
  | None => None
  end.
Proof.
  revert st. induction evs1 as [|ev evs1 IH]; intros st; cbn [app run].
  - unfold mret, M_ret. by destruct (run env evs2 st) as [[[[] ?] ?]|].
  - unfold mbind, M_bind. destruct (step env ev st) as [[[[] st1] out1]|]; [|done].
    rewrite IH. destruct (run env evs1 st1) as [[[[] st2] out2]|]; [|done].
    destruct (run env evs2 st2) as [[[[] st3] out3]|]; [|done].
    by rewrite app_assoc.
Qed.

(** [remove_client] for a connection whose slot the index and the registry
    agree on. *)
Lemma remove_client_slot ws st c room :
  player_index st !! ws = Some c → rooms st !! PlayerConn.room_id c = Some room →
  Room.room_id room = PlayerConn.room_id c →
  let room' := leave (PlayerConn.player_id c) room in
  remove_client ws st =
  Some (tt,
        {| rooms := if decide (Room.players room' = ∅)
                    then delete (PlayerConn.room_id c) (rooms st)
                    else <[PlayerConn.room_id c := room']> (rooms st);
           queue := queue st ∖ {[ws]};
           player_index := delete ws (player_index st) |},
        broadcast_sends room' (PlayerLeft (PlayerConn.player_id c) (PlayerConn.room_id c))).
Proof.
  intros Hc Hr Hid room'. rewrite remove_client_eq. cbn zeta. rewrite Hc, Hr.
  fold room'. assert (Room.room_id room' = PlayerConn.room_id c) as -> by done.
  case_decide; [|done]. unfold set_rooms. cbn. by rewrite delete_insert_eq.
Qed.

(** A frame from a player of the session keeps the session as it is. *)
Lemma frame_in_session env st rid P idx s w c msg :
  in_session st rid P idx s → idx !! w = Some c → PlayerConn.room_id c = rid →
  ∃ s' out, step env (EvFrame w (Some (JDict msg))) s = Some (tt, s', out) ∧
            in_session st rid P idx s'.
Proof.
  intros (Hq & Hi & R & Hr & Hid & HP & Hinv) Hc Hrid.
  cbn [step]. unfold mbind, M_bind. rewrite ws_handler_recv_object.
  destruct (is_type (dict_get msg "type") "ping").
  { eexists _, _. split; [done|]. split; [done|]. split; [done|]. by exists R. }
  rewrite Hi, Hc, Hrid, Hr, lookup_insert_eq.
  destruct (is_type (dict_get msg "type") "input").
  2:{ eexists _, _. split; [done|]. split; [done|]. split; [done|]. by exists R. }
  destruct (apply_input_inv env R (PlayerConn.player_id c) msg Hinv) as [Hinv' He].
  pose proof (apply_input_frame env R (PlayerConn.player_id c) msg) as (Hid' & Hpl' & _).
  cbn zeta in Hid', Hpl'. rewrite He. cbn.
  eexists _, _. split; [done|]. split; [done|]. split; [done|].
  eexists. cbn. rewrite Hr, insert_insert_eq. split; [done|].
  split; [by rewrite Hid'|]. split; [by rewrite Hpl'|done].
Qed.

Lemma frames_in_session env st rid P idx fs s :
  Forall (λ f, ∃ c, idx !! f.1 = Some c ∧ PlayerConn.room_id c = rid) fs →
  in_session st rid P idx s →
  ∃ s' out, run env (frames_of fs) s = Some (tt, s', out) ∧ in_session st rid P idx s'.
Proof.
  intros Hfs. revert s. induction Hfs as [|[w msg] fs (c & Hc & Hrid) _ IH]; intros s Hs.
  - by exists s, [].
  - destruct (frame_in_session env st rid P idx s w c msg Hs Hc Hrid)
      as (s1 & out1 & E1 & Hs1).
    destruct (IH s1 Hs1) as (s2 & out2 & E2 & Hs2).
    exists s2, (out1 ++ out2). split; [|done].
    cbn [frames_of fmap list_fmap run]. unfold mbind, M_bind.
    cbn [fst snd]. rewrite E1. fold (frames_of fs). by rewrite E2.
Qed.

(** The two players of a session leave one after the other. *)
Lemma close_both env st rid x y sx sy s :
  x ≠ y → sx ≠ sy →
  queue st = ∅ → rooms st !! rid = None →
  player_index st !! x = None → player_index st !! y = None →
  in_session st rid
    (<[sx := PlayerConn.mk x sx rid]> (<[sy := PlayerConn.mk y sy rid]> ∅))
    (<[x := PlayerConn.mk x sx rid]> (<[y := PlayerConn.mk y sy rid]> (player_index st)))
    s →
  ∃ out, run env [EvClose x; EvClose y] s = Some (tt, st, out).
Proof.
  intros Hxy Hs Hq0 Hfresh Hix Hiy (Hq & Hi & R & Hr & Hid & HP & _).
  set (cx := PlayerConn.mk x sx rid) in *. set (cy := PlayerConn.mk y sy rid) in *.
  cbn [run step]. unfold mbind, M_bind, ws_handler_close.
  assert (Room.players (leave sx R) = <[sy := cy]> ∅) as HP1.
  { cbn. rewrite HP. apply delete_insert_id. by rewrite lookup_insert_ne, lookup_empty. }
  rewrite (remove_client_slot x s cx R);
    [|by rewrite Hi, lookup_insert_eq|by rewrite Hr, lookup_insert_eq|done].
  change (PlayerConn.player_id cx) with sx. change (PlayerConn.room_id cx) with rid.
  rewrite decide_False by (rewrite HP1; apply insert_non_empty).
  set (s1 := {| rooms := <[rid := leave sx R]> (rooms s); queue := queue s ∖ {[x]};
                player_index := delete x (player_index s) |}).
  assert (player_index s1 = <[y := cy]> (player_index st)) as Hi1.
  { cbn. rewrite Hi. apply delete_insert_id. by rewrite lookup_insert_ne. }
  assert (Room.players (leave sy (leave sx R)) = ∅) as HP2.
  { change (Room.players (leave sy (leave sx R)))
      with (delete sy (Room.players (leave sx R))).
    rewrite HP1. apply delete_insert_id, lookup_empty. }
  rewrite (remove_client_slot y s1 cy (leave sx R));
    [|by rewrite Hi1, lookup_insert_eq|by cbn; rewrite lookup_insert_eq|done].
  change (PlayerConn.player_id cy) with sy. change (PlayerConn.room_id cy) with rid.
  rewrite decide_True by exact HP2.
  unfold mret, M_ret. eexists. do 2 f_equal. f_equal.
  symmetry. apply server_eq; cbn.
  - rewrite Hr, !delete_insert_eq. symmetry. by apply delete_id.
  - rewrite Hq, Hq0. set_solver.
  - rewrite Hi. rewrite (delete_insert_id _ x) by (by rewrite lookup_insert_ne).
    symmetry. by apply delete_insert_id.
Qed.

(** What two arrivals into an empty queue leave, for an oracle the set
    can follow. *)
Lemma two_arrivals env st a b oa ob :
  queue st = ∅ → a ≠ b →
  (pop1 ob = a ∧ pop2 ob = b) ∨ (pop1 ob = b ∧ pop2 ob = a) →
  ∃ out, run env [EvConnect a oa; EvConnect b ob] st
         = Some (tt, matched ob (set_queue (λ q, {[b]} ∪ q) (set_queue (λ q, {[a]} ∪ q) st)),
                 out).
Proof.
  intros Hq Hab Ho. cbn [run step]. unfold mbind, M_bind.
  rewrite ws_handler_open_eq.
  rewrite try_matchmaking_idle by (cbn; rewrite Hq, union_empty_r_L, size_singleton; lia).
  cbv beta iota. rewrite ws_handler_open_eq.
  set (st1 := set_queue (λ q, {[b]} ∪ q) (set_queue (λ q, {[a]} ∪ q) st)).
  assert (queue st1 = {[b; a]}) as Hq1 by (cbn; rewrite Hq; set_solver).
  rewrite try_matchmaking_pair; [by eexists| |..].
  - rewrite Hq1, size_union, !size_singleton by set_solver. done.
  - rewrite Hq1. destruct Ho as [[-> _]|[-> _]]; set_solver.
  - rewrite Hq1. destruct Ho as [[_ ->]|[_ ->]]; set_solver.
  - destruct Ho as [[-> ->]|[-> ->]]; done.
Qed.

Lemma two_arrivals_feasible env st a b oa ob st' out :
  queue st = ∅ → a ≠ b →
  run env [EvConnect a oa; EvConnect b ob] st = Some (tt, st', out) →
  (pop1 ob = a ∧ pop2 ob = b) ∨ (pop1 ob = b ∧ pop2 ob = a).
Proof.
  intros Hq Hab. cbn [run step]. unfold mbind, M_bind.
  rewrite ws_handler_open_eq.
  rewrite try_matchmaking_idle by (cbn; rewrite Hq, union_empty_r_L, size_singleton; lia).
  cbv beta iota. rewrite ws_handler_open_eq.
  set (st1 := set_queue (λ q, {[b]} ∪ q) (set_queue (λ q, {[a]} ∪ q) st)).
  assert (queue st1 = {[b; a]}) as Hq1 by (cbn; rewrite Hq; set_solver).
  destruct (try_matchmaking ob st1) as [[[[] st2] out2]|] eqn:E; [|done]. intros _.
  destruct (try_matchmaking_feasible ob st1 _ _
              ltac:(rewrite Hq1, size_union, !size_singleton by set_solver; done) E)
    as (Ha & Hb & Hne).
  rewrite Hq1 in Ha, Hb. set_solver.
Qed.

(** A session, for an oracle the set can follow, ends in the state it
    started from. *)
Lemma session_returns env st a b oa ob fs x y :
  queue st = ∅ → player_index st !! a = None → player_index st !! b = None → a ≠ b →
  rooms st !! new_room_id ob = None →
  Forall (λ f, f.1 = a ∨ f.1 = b) fs →
  (x = a ∧ y = b) ∨ (x = b ∧ y = a) →
  (pop1 ob = a ∧ pop2 ob = b) ∨ (pop1 ob = b ∧ pop2 ob = a) →
  ∃ out, run env (session a b oa ob fs x y) st = Some (tt, st, out).
Proof.
  intros Hq Hia Hib Hab Hfresh Hfs Hxy Ho.
  destruct (two_arrivals env st a b oa ob Hq Hab Ho) as (out1 & E1).
  set (st1 := set_queue (λ q, {[b]} ∪ q) (set_queue (λ q, {[a]} ∪ q) st)) in *.
  set (rid := new_room_id ob) in *.
  set (c1 := PlayerConn.mk (pop1 ob) "p1" rid). set (c2 := PlayerConn.mk (pop2 ob) "p2" rid).
  assert (pop1 ob ≠ pop2 ob) as Hpop by (destruct Ho as [[-> ->]|[-> ->]]; done).
  assert (in_session st rid (<["p2" := c2]> (<["p1" := c1]> ∅))
            (<[pop2 ob := c2]> (<[pop1 ob := c1]> (player_index st))) (matched ob st1))
    as Hses.
  { split.
    - cbn. rewrite Hq. destruct Ho as [[-> ->]|[-> ->]]; set_solver.
    - split; [done|]. exists (paired_room rid (pop1 ob) (pop2 ob)).
      split; [done|]. split; [done|]. split; [done|]. apply room_inv_new. }
  destruct (frames_in_session env st rid (<["p2" := c2]> (<["p1" := c1]> ∅))
              (<[pop2 ob := c2]> (<[pop1 ob := c1]> (player_index st))) fs (matched ob st1))
    as (s2 & out2 & E2 & Hs2); [|exact Hses|].
  { eapply Forall_impl; [exact Hfs|]. intros [w msg] Hw. cbn in *.
    destruct Ho as [[H1 H2]|[H1 H2]]; destruct Hw as [-> | ->]; rewrite ?H1, ?H2 in *.
    - exists c1. by rewrite lookup_insert_ne, <- H1, lookup_insert_eq.
    - exists c2. by rewrite <- H2, lookup_insert_eq.
    - exists c2. by rewrite <- H2, lookup_insert_eq.
    - exists c1. by rewrite lookup_insert_ne, <- H1, lookup_insert_eq. }
  assert (∃ out3, run env [EvClose x; EvClose y] s2 = Some (tt, st, out3)) as (out3 & E3).
  { assert (player_index st !! pop1 ob = None ∧ player_index st !! pop2 ob = None)
      as [Hi1 Hi2] by (destruct Ho as [[-> ->]|[-> ->]]; done).
    assert ((x = pop2 ob ∧ y = pop1 ob) ∨ (x = pop1 ob ∧ y = pop2 ob)) as [[-> ->]|[-> ->]]
      by (destruct Ho as [[-> ->]|[-> ->]]; destruct Hxy as [[-> ->]|[-> ->]]; auto).
    - by apply (close_both env st rid (pop2 ob) (pop1 ob) "p2" "p1" s2).
    - apply (close_both env st rid (pop1 ob) (pop2 ob) "p1" "p2" s2); try done.
      by rewrite (insert_insert_ne _ "p1" "p2"), (insert_insert_ne _ (pop1 ob) (pop2 ob)). }
  unfold session. rewrite run_app, E1, run_app, E2, E3. by eexists.
Qed.

(** X18: a session leaves no trace.  Start from any state with an empty
    queue; let two connections that hold no slot arrive one after the
    other, under a room id that is free; let the server receive any number
    of JSON objects from the two, in any order and with any contents; and
    let both disconnect, in either order.  Whichever of the two the set
    pops first, the run ends in exactly the state it started from: the room
    is unregistered, both index entries are gone, the queue is empty, and
    no other room has been touched. *)
Theorem session_leaves_no_trace (env : Env) (st : Server) (a b x y : conn)
    (oa ob : match_oracle) (fs : list (conn * list (string * jvalue))) :
  queue st = ∅ → player_index st !! a = None → player_index st !! b = None → a ≠ b →
  rooms st !! new_room_id ob = None →
  Forall (λ f, f.1 = a ∨ f.1 = b) fs →
  (x = a ∧ y = b) ∨ (x = b ∧ y = a) →
  (∀ st' out, run env (session a b oa ob fs x y) st = Some (tt, st', out) → st' = st) ∧
  ((pop1 ob = a ∧ pop2 ob = b) ∨ (pop1 ob = b ∧ pop2 ob = a) →
   ∃ out, run env (session a b oa ob fs x y) st = Some (tt, st, out)).
Proof.
  intros Hq Hia Hib Hab Hfresh Hfs Hxy. split; [|by apply session_returns].
  intros st' out Hrun.
  assert ((pop1 ob = a ∧ pop2 ob = b) ∨ (pop1 ob = b ∧ pop2 ob = a)) as Ho.
  { unfold session in Hrun. rewrite run_app in Hrun.
    destruct (run env [EvConnect a oa; EvConnect b ob] st) as [[[[] st1] out1]|] eqn:E1;
      [|done].
    by eapply two_arrivals_feasible. }
  destruct (session_returns env st a b oa ob fs x y Hq Hia Hib Hab Hfresh Hfs Hxy Ho)
    as (out' & E).
  rewrite E in Hrun. by injection Hrun as <- _.
Qed.

Lemma session_leaves_no_trace_witness :
  ∃ out,
    run default_env
      (session 1%positive 2%positive
         {| new_room_id := "room-000000"; pop1 := 2%positive; pop2 := 1%positive |}
         {| new_room_id := "room-000000"; pop1 := 2%positive; pop2 := 1%positive |}
         [(1%positive, [("type", JStr "input"); ("dx", JNum (PyInt 5))]);
          (2%positive, [("type", JStr "ping")])]
         2%positive 1%positive)
      initial
    = Some (tt, initial, out).
Proof.
  apply (session_leaves_no_trace default_env initial 1%positive 2%positive
           2%positive 1%positive
           {| new_room_id := "room-000000"; pop1 := 2%positive; pop2 := 1%positive |}
           {| new_room_id := "room-000000"; pop1 := 2%positive; pop2 := 1%positive |}
           [(1%positive, [("type", JStr "input"); ("dx", JNum (PyInt 5))]);
            (2%positive, [("type", JStr "ping")])]).
  - reflexivity.
  - reflexivity.
  - reflexivity.
  - done.
  - reflexivity.
  - apply Forall_cons_2; [by left|]. apply Forall_cons_2; [by right|]. apply Forall_nil_2.
  - by right.
  - by right.
Defined.

(** ** From an input to the next snapshot *)

Lemma is_type_input_not_ping (t : option jvalue) :
  is_type t "input" = true → is_type t "ping" = false.
Proof.
  destruct t as [[| | |s| |]|]; try done. cbn. intros ->%String.eqb_eq. done.
Qed.

(** X19: what a player sends is what everybody is shown.  In every
    state the server reaches, when an input arrives from a connection that
    the index maps to a registered room and the broadcaster runs next, the
    handler does not raise, the room is registered afterwards as
    [apply_input] left it with its tick advanced by one, and every member
    of the room is sent a snapshot carrying exactly that state. *)
Theorem input_shows_in_next_snapshot (env : Env) (st : Server) (ws : conn)
    (c : PlayerConn.t) (room : Room.t) (msg : list (string * jvalue)) :
  reachable env st →
  player_index st !! ws = Some c → rooms st !! PlayerConn.room_id c = Some room →
  is_type (dict_get msg "type") "input" = true →
  let room1 := (apply_input env room (PlayerConn.player_id c) msg).1 in
  let room2 := Room.set_tick (RoomState.tick (Room.state room) + 1) room1 in
  ∃ st' out,
    run env [EvFrame ws (Some (JDict msg)); EvTick] st = Some (tt, st', out) ∧
    rooms st' !! PlayerConn.room_id c = Some room2 ∧
    ∀ pid pc, Room.players room !! pid = Some pc →
      Send (PlayerConn.ws pc) (Snapshot (Room.room_id room) (Room.state room2)) ∈ out.
Proof.
  intros Hst%reachable_inv Hc Hr Hin room1 room2.
  pose proof (is_type_input_not_ping _ Hin) as Hping.
  destruct (apply_input_inv env room (PlayerConn.player_id c) msg (Hst _ _ Hr)) as [_ He].
  pose proof (apply_input_frame env room (PlayerConn.player_id c) msg)
    as (Hid & Hpl & Htick & _).
  cbn zeta in Hid, Hpl, Htick. fold room1 in Hid, Hpl, Htick, He.
  cbn [run step]. unfold mbind, M_bind.
  rewrite ws_handler_recv_object, Hping, Hc, Hr, Hin. fold room1. rewrite He.
  unfold mret, M_ret. cbv beta iota. rewrite snapshot_loop_iteration_eq.
  eexists _, _. split; [reflexivity|].
  assert ((snapshot_room room1).1 = room2) as E1.
  { unfold snapshot_room, room2. cbn. by rewrite Htick. }
  split.
  - cbn. by rewrite lookup_fmap, lookup_insert_eq, <- E1.
  - intros pid pc Hpc. rewrite !app_nil_l, app_nil_r.
    apply elem_of_concat. eexists. split.
    + apply list_elem_of_fmap. exists (PlayerConn.room_id c, room1). split; [done|].
      apply elem_of_map_to_list. cbn. apply lookup_insert_eq.
    + cbn [snd]. unfold snapshot_room. cbn [snd]. fold (snapshot_room room1).
      apply elem_of_broadcast_sends. exists pid, pc. split.
      * cbn. by rewrite Hpl.
      * cbn. rewrite Hid, Htick. done.
Qed.

Lemma input_shows_in_next_snapshot_witness :
  ∃ st' out,
    run default_env
      [EvFrame 1%positive (Some (JDict [("type", JStr "input"); ("dx", JNum (PyInt 5))]));
       EvTick]
      (matched {| new_room_id := "room-000000"; pop1 := 1%positive; pop2 := 2%positive |}
         (set_queue (λ _, {[1%positive; 2%positive]}) initial))
    = Some (tt, st', out) ∧
    Send 2%positive
      (Snapshot "room-000000"
         {| RoomState.tick := 1;
            RoomState.players :=
              <["p1" := {| PlayerState.x := PyFloat (float_of_Z 185);
                           PlayerState.y := PyFloat (float_of_Z 300);
                           PlayerState.hp := 100; PlayerState.mana := 100 |}]>
                (<["p2" := spawn 620]> (<["p1" := spawn 180]> ∅)) |}) ∈ out.
Proof.
  destruct (input_shows_in_next_snapshot default_env
              (matched {| new_room_id := "room-000000"; pop1 := 1%positive; pop2 := 2%positive |}
                 (set_queue (λ _, {[1%positive; 2%positive]}) initial))
              1%positive (PlayerConn.mk 1%positive "p1" "room-000000")
              (paired_room "room-000000" 1%positive 2%positive)
              [("type", JStr "input"); ("dx", JNum (PyInt 5))])
    as (st' & out & E & _ & Hout).
  - exists [EvConnect 1%positive
              {| new_room_id := "room-000000"; pop1 := 1%positive; pop2 := 2%positive |};
            EvConnect 2%positive
              {| new_room_id := "room-000000"; pop1 := 1%positive; pop2 := 2%positive |}].
    eexists. vm_compute. reflexivity.
  - reflexivity.
  - reflexivity.
  - reflexivity.
  - exists st', out. split; [exact E|].
    exact (Hout "p2" (PlayerConn.mk 2%positive "p2" "room-000000") eq_refl).
Defined.

(** ** Rooms do not refill *)

Lemma ws_handler_open_members ws o st st' out rid room' :
  ws_handler_open ws o st = Some (tt, st', out) → new_room_id o ≠ rid →
  rooms st' !! rid = Some room' → rooms st !! rid = Some room'.
Proof.
  intros [[-> _]|(_ & _ & _ & _ & -> & _)]%ws_handler_open_cases Hne; [done|].
  cbn. by rewrite lookup_insert_ne.
Qed.

Lemma ws_handler_recv_members env ws raw st e st' out rid room' :
  ws_handler_recv env ws raw st = Some (e, st', out) →
  rooms st' !! rid = Some room' →
  ∃ room, rooms st !! rid = Some room ∧ Room.players room' = Room.players room.
Proof.
  intros [_ [->|(c & room & msg & Hc & Hr & ->)]]%ws_handler_recv_cases.
  - intros H. by exists room'.
  - cbn. rewrite lookup_insert. case_decide as Hk.
    + intros [= <-]. subst rid. exists room. split; [done|].
      by pose proof (apply_input_frame env room (PlayerConn.player_id c) msg) as (_ & ? & _).
    + intros H. by exists room'.
Qed.

Lemma step_members env ev st st' out rid room' :
  step env ev st = Some (tt, st', out) → never_minted rid [ev] →
  rooms st' !! rid = Some room' →
  ∃ room, rooms st !! rid = Some room ∧ Room.players room' ⊆ Room.players room.
Proof.
  intros H Hmint Hr'. apply Forall_cons in Hmint as [Hmint _].
  destruct ev as [ws o|ws raw|ws|]; cbn [step] in H.
  - exists room'. split; [|done]. by eapply ws_handler_open_members.
  - unfold mbind, M_bind in H.
    destruct (ws_handler_recv env ws raw st) as [[[e st1] out1]|] eqn:E; [|done].
    assert (∃ room1, rooms st1 !! rid = Some room1 ∧ Room.players room' ⊆ Room.players room1)
      as (room1 & Hr1 & Hsub1).
    { destruct e as [e|].
      - unfold ws_handler_close in H.
        destruct (remove_client ws st1) as [[[[] st2] out2]|] eqn:E2; [|done].
        injection H as <- <-.
        destruct (remove_client_rooms _ _ _ _ _ _ E2 Hr') as [?|(room & pid & ? & ->)].
        + by exists room'.
        + exists room. split; [done|]. cbn. apply delete_subseteq.
      - unfold mret, M_ret in H. injection H as <- <-. by exists room'. }
    destruct (ws_handler_recv_members _ _ _ _ _ _ _ _ _ E Hr1) as (room & Hr & Hpl).
    exists room. split; [done|]. by rewrite <- Hpl.
  - unfold ws_handler_close in H.
    destruct (remove_client_rooms _ _ _ _ _ _ H Hr') as [?|(room & pid & ? & ->)].
    + by exists room'.
    + exists room. split; [done|]. cbn. apply delete_subseteq.
  - revert H Hr'. rewrite snapshot_loop_iteration_eq. intros [= <- <-]. cbn.
    rewrite lookup_fmap. destruct (rooms st !! rid) as [room|]; [|done].
    intros [= <-]. by exists room.
Qed.

(** X20: a room never gains a member.  Along any run in which the id of
    a room is not handed out again, a room found registered under that id
    at the end was registered under it at the start, and each of its
    members then was already a member, in the same slot: the player whose
    partner has left is not given a new partner, and an arrival never joins
    an existing room. *)
Theorem rooms_never_refill (env : Env) (evs : list event) (st st' : Server)
    (out : list send) (rid : string) (room' : Room.t) :
  run env evs st = Some (tt, st', out) → never_minted rid evs →
  rooms st' !! rid = Some room' →
  ∃ room, rooms st !! rid = Some room ∧ Room.players room' ⊆ Room.players room.
Proof.
  revert st out. induction evs as [|ev evs IH]; intros st out; cbn [run].
  - unfold mret, M_ret. intros [= <- <-] _ Hr. by exists room'.
  - unfold mbind, M_bind.
    destruct (step env ev st) as [[[[] st1] out1]|] eqn:E; [|done].
    destruct (run env evs st1) as [[[[] st2] out2]|] eqn:E2; [|done].
    intros [= <- <-] [Hev Hevs]%Forall_cons Hr'.
    destruct (IH _ _ E2 Hevs Hr') as (room1 & Hr1 & Hsub1).
    destruct (step_members env ev st st1 out1 rid room1 E) as (room & Hr & Hsub);
      [by apply Forall_singleton|done|].
    exists room. split; [done|]. by etrans.
Qed.

Lemma rooms_never_refill_witness :
  ∃ room,
    rooms (matched {| new_room_id := "room-000000"; pop1 := 1%positive; pop2 := 2%positive |}
             (set_queue (λ _, {[1%positive; 2%positive]}) initial)) !! "room-000000"
    = Some room ∧
    Room.players (leave "p2" (paired_room "room-000000" 1%positive 2%positive))
      ⊆ Room.players room.
Proof.
  apply (rooms_never_refill default_env
           [EvClose 2%positive;
            EvConnect 3%positive
              {| new_room_id := "room-000001"; pop1 := 3%positive; pop2 := 3%positive |}]
           (matched {| new_room_id := "room-000000"; pop1 := 1%positive; pop2 := 2%positive |}
              (set_queue (λ _, {[1%positive; 2%positive]}) initial))
           {| rooms := {["room-000000" :=
                           leave "p2" (paired_room "room-000000" 1%positive 2%positive)]};
              queue := {[3%positive]};
              player_index := {[1%positive := PlayerConn.mk 1%positive "p1" "room-000000"]} |}
           [Send 1%positive (PlayerLeft "p2" "room-000000");
            Send 3%positive (QueueJoined PUBLIC_QUEUE)]).
  - vm_compute. reflexivity.
  - repeat constructor. done.
  - reflexivity.
Defined.

(** ** The period of the broadcaster, as a number *)

Lemma loc_of_shr_record_of_loc (m : Z) (l : location) :
  loc_of_shr_record (shr_record_of_loc m l) = l.
Proof. by destruct l as [|[]]. Qed.

Lemma round_nearest_even_cases (m : Z) (l : location) :
  (round_nearest_even m l = m ∨ round_nearest_even m l = m + 1) ∧
  (l = loc_Exact → round_nearest_even m l = m).
Proof.
  destruct l as [|[]]; cbn; (split; [|done]); try destruct (Z.even m); auto.
Qed.

(** Rounding a quotient that already sits on its exponent: the mantissa
    stays or goes up by one, whatever the location of the remainder. *)
Lemma binary_round_aux_near (sg : bool) (q : positive) (e : Z) (l : location) :
  -1074 ≤ e → fexp prec emax (Zpos (digits2_pos q) + e) = e →
  ∃ m e2,
    binary_round_aux prec emax sg (Zpos q) e l =
      (if e2 <=? 971 then S754_finite sg m e2 else S754_infinity sg) ∧
    fexp prec emax (Zpos (digits2_pos m) + e2) = e2 ∧
    e ≤ e2 ≤ e + 1 ∧
    (Zpos m * 2 ^ (e2 - e) = Zpos q ∨ Zpos m * 2 ^ (e2 - e) = Zpos q + 1) ∧
    (l = loc_Exact → Zpos m * 2 ^ (e2 - e) = Zpos q).
Proof.
  intros He Hcan.
  unfold binary_round_aux, shr_fexp. cbn [Zdigits2]. rewrite Hcan, Z.sub_diag.
  cbn [shr shr_m]. rewrite loc_of_shr_record_of_loc.
  replace (shr_m (shr_record_of_loc (Zpos q) l)) with (Zpos q) by (by destruct l as [|[]]).
  destruct (round_nearest_even_cases (Zpos q) l) as [Hm2 Hex].
  set (m2 := round_nearest_even (Zpos q) l) in *.
  assert (0 < m2) as Hpos by lia. clearbody m2.
  destruct m2 as [|m2|m2]; try lia. cbn [Zdigits2 shr_record_of_loc].
  destruct (Z.eq_dec (fexp prec emax (Zpos (digits2_pos m2) + e)) e) as [Hcan2|Hncan].
  - exists m2, e. rewrite Hcan2, Z.sub_diag. cbn [shr shr_m].
    split; [done|]. split; [done|]. split; [lia|].
    rewrite ?Z.sub_diag. change (2 ^ 0) with 1. rewrite Z.mul_1_r.
    split; [lia|]. intros Hl. by apply Hex.
  - (* the rounding carried into a 54th bit *)
    assert (Zpos m2 = Zpos q + 1) as Hup.
    { destruct Hm2 as [E|E]; [|done]. injection E as ->. done. }
    pose proof (digits2_bounds q) as [Hlo Hhi].
    pose proof (digits2_bounds m2) as [Hlo2 Hhi2].
    set (d := Zpos (digits2_pos q)) in *. set (d2 := Zpos (digits2_pos m2)) in *.
    assert (1 ≤ d) by (unfold d; lia).
    rewrite fexp_eq in Hcan, Hncan.
    assert (d2 = d + 1) as Hd2.
    { destruct (Z.eq_dec d2 d) as [E|NE]; [rewrite E in Hncan; lia|].
      assert (d ≤ d2).
      { destruct (Z.le_gt_cases d d2); [done|].
        assert (2 ^ d2 ≤ 2 ^ (d - 1)) by (apply Z.pow_le_mono_r; lia). lia. }
      destruct (Z.le_gt_cases d2 (d + 1)); [lia|].
      assert (2 ^ (d + 1) ≤ 2 ^ (d2 - 1)) by (apply Z.pow_le_mono_r; lia).
      assert (2 ^ (d + 1) = 2 * 2 ^ d) by (rewrite Z.pow_add_r by lia; lia). lia. }
    assert (d = 53) as Hd by lia.
    assert (Zpos m2 = 2 ^ 53) as Etop.
    { rewrite Hd2, Hd in Hlo2. change (53 + 1 - 1) with 53 in Hlo2.
      rewrite Hd in Hhi. lia. }
    assert (m2 = (2 ^ 53)%positive) as -> by (apply Pos2Z.inj; exact Etop).
    exists (2 ^ 52)%positive, (e + 1).
    split; [|split; [|split; [lia|split]]].
    + rewrite ?fexp_eq. fold d2.
      assert (Z.max (d2 + e - 53) (-1074) - e = 1) as -> by lia.
      cbn -[Z.add Z.leb Z.sub]. done.
    + rewrite fexp_eq. change (Zpos (digits2_pos (2 ^ 52))) with 53. lia.
    + right. replace (e + 1 - e) with 1 by lia. rewrite <- Hup. done.
    + intros Hl. specialize (Hex Hl). lia.
Qed.

Lemma new_location_zero (n : Z) : new_location n 0 = loc_Exact.
Proof. unfold new_location. by destruct (Z.even n). Qed.

(** One divided by a double of at least one. *)
Lemma fdiv_one_over (my : positive) (ey : Z) :
  bounded prec emax my ey = true → 2 ^ 52 ≤ Zpos my → -52 ≤ ey →
  ∃ m e,
    fdiv f1 (S754_finite false my ey) = S754_finite false m e ∧
    bounded prec emax m e = true ∧ Zpos m * 2 ^ (e + 1074) ≤ 2 ^ 1074.
Proof.
  intros (He & Hm & _)%bounded_inv Hlo Hey.
  assert (Zpos (digits2_pos my) = 53) as Hd2.
  { apply (log2_digits_unique my 52); [lia|]. change (52 + 1) with 53. lia. }
  unfold fdiv, SFdiv, f1, SFdiv_core_binary. cbn [Zdigits2]. rewrite Hd2.
  change (Zpos (digits2_pos 4503599627370496)) with 53. rewrite fexp_eq.
  set (e' := Z.max (-105 - ey) (-1074)).
  assert (Z.min (Z.max (53 + -52 - (53 + ey) - 53) (-1074)) (-52 - ey) = e') as -> by lia.
  assert (51 ≤ -52 - ey - e' ≤ 53) as Hs by lia.
  set (s := -52 - ey - e') in *.
  assert (match s with
          | 0 => 4503599627370496
          | Zpos _ => Z.shiftl 4503599627370496 s
          | Zneg _ => 0
          end = 2 ^ 52 * 2 ^ s) as ->.
  { destruct s as [|p|p] eqn:Es; try lia. by rewrite Z.shiftl_mul_pow2. }
  pose proof (Z_div_mod (2 ^ 52 * 2 ^ s) (Zpos my) eq_refl) as Hdiv.
  destruct (Z.div_eucl (2 ^ 52 * 2 ^ s) (Zpos my)) as [q r].
  destruct Hdiv as [Hqr Hr]. cbn [xorb].
  assert (0 < 2 ^ s) as Hps by (apply pow2_pos; lia).
  assert (2 ^ s = 2 * 2 ^ (s - 1)) as Hhalf.
  { replace s with (1 + (s - 1)) at 1 by lia. rewrite Z.pow_add_r by lia. done. }
  assert (2 ^ (s - 1) ≤ q ≤ 2 ^ s) as Hq.
  { change (2 ^ 53) with (2 * 2 ^ 52) in Hm. change (2 ^ 52) with 4503599627370496 in *.
    generalize dependent (2 ^ s). generalize dependent (2 ^ (s - 1)). intros. nia. }
  assert (q = 2 ^ s → r = 0) as Htop.
  { change (2 ^ 52) with 4503599627370496 in *. intros ->.
    generalize dependent (2 ^ s). intros. nia. }
  assert (e' ≤ -53) as He' by lia.
  assert (-1074 ≤ e') as He'' by lia.
  assert (s < 53 → e' = -1074) as Hsub by lia.
  destruct q as [|q|q]; try lia.
  assert (∃ m e2,
    binary_round_aux prec emax false (Zpos q) e' (new_location (Zpos my) r) =
      (if e2 <=? 971 then S754_finite false m e2 else S754_infinity false) ∧
    fexp prec emax (Zpos (digits2_pos m) + e2) = e2 ∧
    e' ≤ e2 ≤ e' + 2 ∧ Zpos m * 2 ^ (e2 - e') ≤ 2 ^ s) as (m & e2 & -> & Hcan & He2 & Hval).
  { destruct (Z.eq_dec (Zpos q) (2 ^ s)) as [Etop|Ntop].
    - rewrite (Htop Etop), new_location_zero.
      assert (Zpos (digits2_pos q) = s + 1) as Hdq.
      { apply (log2_digits_unique q s); [lia|]. rewrite Etop.
        split; [lia|]. rewrite Z.pow_add_r by lia. lia. }
      destruct (Z.eq_dec s 53) as [Es|Ns].
      + destruct (binary_round_aux_shift false q e' ltac:(lia) He'')
          as (m & e2 & E & Hcan & He2 & _ & Hex).
        rewrite Hdq, Es in He2, Hex. change (53 + 1 - 53) with 1 in He2, Hex.
        exists m, e2. split; [exact E|]. split; [exact Hcan|]. split; [lia|].
        rewrite Hex; [lia|]. rewrite Etop, Es. done.
      + destruct (binary_round_aux_near false q e' loc_Exact He'')
          as (m & e2 & E & Hcan & He2 & _ & Hex).
        { rewrite fexp_eq, Hdq. lia. }
        exists m, e2. split; [exact E|]. split; [exact Hcan|]. split; [lia|].
        rewrite Hex by done. lia.
    - assert (Zpos (digits2_pos q) = s) as Hdq.
      { pose proof (log2_digits_unique q (s - 1) ltac:(lia)) as Hlog.
        replace (s - 1 + 1) with s in Hlog by lia. apply Hlog. lia. }
      destruct (binary_round_aux_near false q e' (new_location (Zpos my) r) He'')
        as (m & e2 & E & Hcan & He2 & Hnear & _).
      { rewrite fexp_eq, Hdq. lia. }
      exists m, e2. split; [exact E|]. split; [exact Hcan|]. split; [lia|]. lia. }
  assert ((e2 <=? 971) = true) as -> by (apply Z.leb_le; lia).
  exists m, e2. split; [done|]. split; [apply bounded_intro; [done|lia]|].
  replace (e2 + 1074) with ((e2 - e') + (e' + 1074)) by lia.
  rewrite Z.pow_add_r, Z.mul_assoc by lia.
  assert (2 ^ s * 2 ^ (e' + 1074) ≤ 2 ^ 1074).
  { rewrite <- Z.pow_add_r by lia. apply Z.pow_le_mono_r; lia. }
  assert (0 < 2 ^ (e' + 1074)) by (apply pow2_pos; lia).
  etrans; [|done]. by apply Z.mul_le_mono_nonneg_r; [lia|].
Qed.

(** X21.  Whatever number the setting [SNAPSHOT_RATE] holds (zero, negative,
    below one, huge, infinite or not a number), the sleep of
    [snapshot_loop] is a finite number of seconds between zero and one, never
    negative and never not-a-number; it is zero, which makes the loop spin
    without pause, exactly when the rate is plus infinity. *)
Theorem tick_dt_range (env : Env) :
  is_binary64 (SNAPSHOT_RATE env) = true →
  is_binary64 (tick_dt env) = true ∧ is_finite (tick_dt env) = true ∧
  0 ≤ units (tick_dt env) ≤ unit_scale ∧
  (units (tick_dt env) = 0 ↔ SNAPSHOT_RATE env = S754_infinity false).
Proof.
  unfold tick_dt, py_max. destruct (SNAPSHOT_RATE env) as [sg|sg| |sg my ey] eqn:Er; intros Hv.
  - vm_compute. repeat split; try done; try (by intros [=]).
  - destruct sg.
    + vm_compute. repeat split; try done; try (by intros [=]).
    + vm_compute. repeat split; try done; try (by intros [=]).
  - vm_compute. repeat split; try done; try (by intros [=]).
  - destruct sg.
    + change (flt f1 (S754_finite true my ey)) with false. cbv beta iota.
      vm_compute. repeat split; try done; try (by intros [=]).
    + rewrite flt_units by done.
      destruct (Z.ltb_spec (units f1) (units (S754_finite false my ey))) as [Hlt|Hge].
      * change (units f1) with (2 ^ 1074) in Hlt. cbn [units cond_Zopp] in Hlt.
        pose proof Hv as (He & Hm & Hnorm)%bounded_inv.
        assert (-52 ≤ ey) as Hey.
        { destruct (Z_lt_le_dec ey (-52)) as [Hsmall|]; [|done]. exfalso.
          assert (Zpos my * 2 ^ (ey + 1074) < 2 ^ 53 * 2 ^ (ey + 1074)) as Hup.
          { apply Z.mul_lt_mono_pos_r; [apply pow2_pos; lia|done]. }
          rewrite <- Z.pow_add_r in Hup by lia.
          assert (2 ^ (53 + (ey + 1074)) ≤ 2 ^ 1074) by (apply Z.pow_le_mono_r; lia).
          lia. }
        destruct (fdiv_one_over my ey Hv ltac:(apply Hnorm; lia) Hey)
          as (m & e & -> & Hb & Hle).
        cbn [units cond_Zopp is_finite is_binary64 valid_binary].
        pose proof Hb as (He2 & _)%bounded_inv.
        assert (0 < Zpos m * 2 ^ (e + 1074)).
        { apply Z.mul_pos_pos; [done|apply pow2_pos; lia]. }
        unfold unit_scale. repeat split; try done; try lia.
      * vm_compute. repeat split; try done; try (by intros [=]).
Qed.

Lemma tick_dt_range_witness :
  is_binary64 (tick_dt default_env) = true ∧ is_finite (tick_dt default_env) = true ∧
  0 ≤ units (tick_dt default_env) ≤ unit_scale ∧
  (units (tick_dt default_env) = 0 ↔ SNAPSHOT_RATE default_env = S754_infinity false).
Proof.
  apply (tick_dt_range default_env). reflexivity.
Defined.

(** ** Matchmaking suspended at its awaits *)

Lemma try_matchmaking_begin_idle o st :
  (size (queue st) < 2)%nat → try_matchmaking_begin o st = Some (None, st, []).
Proof.
  intros H. unfold try_matchmaking_begin. run_M. cbn -[Nat.ltb].
  apply Nat.ltb_lt in H. by rewrite H.
Qed.

Lemma try_matchmaking_begin_pair o st :
  (2 ≤ size (queue st))%nat → pop1 o ∈ queue st → pop2 o ∈ queue st → pop1 o ≠ pop2 o →
  try_matchmaking_begin o st =
  Some (Some {| hs_a := pop1 o; hs_b := pop2 o; hs_room_id := new_room_id o |},
        matched o st, [Send (pop1 o) (Welcome "p1" (new_room_id o))]).
Proof.
  intros H Ha Hb Hab. unfold try_matchmaking_begin, create_room_with_pair. run_M.
  cbn -[Nat.ltb]. apply Nat.ltb_ge in H. rewrite H. cbn.
  rewrite decide_True by done. cbn.
  rewrite decide_True by set_solver. cbn. reflexivity.
Qed.

(** Without a pair of elements to pop, the first piece is stuck as the
    whole function is. *)
Lemma try_matchmaking_begin_stuck o st :
  (2 ≤ size (queue st))%nat →
  ¬ (pop1 o ∈ queue st ∧ pop2 o ∈ queue st ∧ pop1 o ≠ pop2 o) →
  try_matchmaking_begin o st = None ∧ try_matchmaking o st = None.
Proof.
  intros H Hno. unfold try_matchmaking_begin, try_matchmaking, create_room_with_pair. run_M.
  cbn -[Nat.ltb]. apply Nat.ltb_ge in H. rewrite H. cbn.
  destruct (decide (pop1 o ∈ queue st)) as [Ha|Ha]; [|done]. cbn.
  destruct (decide (pop2 o ∈ queue st ∖ {[pop1 o]})) as [Hb|Hb]; [|done].
  exfalso. apply Hno. set_solver.
Qed.

Lemma ws_handler_open_to_second_eq env ws o evs st :
  ws_handler_open_to_second env ws o evs st =
  match try_matchmaking_begin o (set_queue (λ q, {[ws]} ∪ q) st) with
  | None => None
  | Some (None, st1, out1) => Some (None, st1, Send ws (QueueJoined PUBLIC_QUEUE) :: out1)
  | Some (Some h, st1, out1) =>
      match run env (event_of <$> evs) st1 with
      | None => None
      | Some (_, st2, out2) =>
          Some (Some h, st2, Send ws (QueueJoined PUBLIC_QUEUE) :: out1 ++ out2)
      end
  end.
Proof.
  unfold ws_handler_open_to_second. run_M. cbn -[try_matchmaking_begin run].
  destruct (try_matchmaking_begin o _) as [[[[h|] st1] out1]|]; [| |done].
  - destruct (run env _ st1) as [[[[] st2] out2]|]; [|done]. by rewrite app_nil_r.
  - by rewrite app_nil_r.
Qed.

Lemma ws_handler_open_interleaved_eq env ws o evs1 evs2 st :
  ws_handler_open_interleaved env ws o evs1 evs2 st =
  match ws_handler_open_to_second env ws o evs1 st with
  | None => None
  | Some (None, st1, out1) => Some (tt, st1, out1)
  | Some (Some h, st1, out1) =>
      match run env (event_of <$> evs2) st1 with
      | None => None
      | Some (_, st2, out2) =>
          Some (tt, st2,
                out1 ++ Send (hs_b h) (Welcome "p2" (hs_room_id h)) :: out2 ++
                match rooms st2 !! hs_room_id h with
                | Some room =>
                    broadcast_sends room (MatchFound (Room.room_id room) ["p1"; "p2"])
                | None => []
                end)
      end
  end.
Proof.
  unfold ws_handler_open_interleaved, try_matchmaking_second, try_matchmaking_third.
  unfold mbind at 1, M_bind at 1.
  destruct (ws_handler_open_to_second env ws o evs1 st) as [[[[h|] st1] out1]|]; [| |done].
  - run_M. cbn -[run].
    destruct (run env _ st1) as [[[[] st2] out2]|]; [|done].
    by destruct (rooms st2 !! hs_room_id h).
  - unfold mret, M_ret. by rewrite app_nil_r.
Qed.

(** With nothing run at the two awaits, the pieces make up the handler as
    [step] runs it. *)
Lemma ws_handler_open_uninterrupted env ws o st :
  ws_handler_open_interleaved env ws o [] [] st = ws_handler_open ws o st.
Proof.
  rewrite ws_handler_open_interleaved_eq, ws_handler_open_to_second_eq, ws_handler_open_eq.
  set (st0 := set_queue _ st). cbn [fmap list_fmap run]. unfold mret, M_ret.
  destruct (Nat.lt_ge_cases (size (queue st0)) 2) as [Hlt|Hge].
  - by rewrite try_matchmaking_begin_idle, try_matchmaking_idle.
  - destruct (decide (pop1 o ∈ queue st0 ∧ pop2 o ∈ queue st0 ∧ pop1 o ≠ pop2 o))
      as [(Ha & Hb & Hab)|Hno].
    + rewrite try_matchmaking_begin_pair, try_matchmaking_pair by done.
      cbn [hs_b hs_room_id matched rooms]. rewrite lookup_insert_eq.
      rewrite broadcast_sends_paired. reflexivity.
    + destruct (try_matchmaking_begin_stuck o st0 Hge Hno) as [-> ->]. done.
Qed.

(** X15: a connection can be sent to after it has gone.  [try_matchmaking]
    keeps the two connections it popped in local variables across its
    awaits.  Let [w] be waiting in the queue when [n] arrives, and let the
    set hand out [n] first.  If the handler of [w] runs its departure while
    the welcome to [n] is awaited, then [w] is taken out of the index and
    of the room, and [n] is told that "p2" left; after that, when [w] is
    held nowhere any more, [try_matchmaking] goes on and sends the welcome
    of "p2" to [w], and announces the match of "p1" and "p2" to [n] alone.
    [n] ends as the only member of the room. *)
Theorem welcome_sent_after_close (env : Env) (st : Server) (w n : conn) (o : match_oracle) :
  registry_consistent st → queue st = {[w]} → n ≠ w → pop1 o = n → pop2 o = w →
  ∃ h st1,
    ws_handler_open_to_second env n o [MwClose w] st
    = Some (Some h, st1,
            [Send n (QueueJoined PUBLIC_QUEUE);
             Send n (Welcome "p1" (new_room_id o));
             Send n (PlayerLeft "p2" (new_room_id o))]) ∧
    hs_b h = w ∧ absent w st1 ∧ player_index st1 !! w = None ∧
    ws_handler_open_interleaved env n o [MwClose w] [] st
    = Some (tt, st1,
            [Send n (QueueJoined PUBLIC_QUEUE);
             Send n (Welcome "p1" (new_room_id o));
             Send n (PlayerLeft "p2" (new_room_id o));
             Send w (Welcome "p2" (new_room_id o));
             Send n (MatchFound (new_room_id o) ["p1"; "p2"])]) ∧
    rooms st1
    = <[new_room_id o := leave "p2" (paired_room (new_room_id o) n w)]> (rooms st) ∧
    queue st1 = ∅ ∧
    player_index st1 = <[n := PlayerConn.mk n "p1" (new_room_id o)]> (player_index st).
Proof.
  intros Hc Hq Hne H1 H2. pose proof Hc as [Hrooms Hqueued].
  set (rid := new_room_id o).
  set (st0 := set_queue (λ q, {[n]} ∪ q) st).
  assert (player_index st !! w = None) as Hiw by (apply Hqueued; rewrite Hq; set_solver).
  assert (queue st0 = {[n]} ∪ {[w]}) as Hq0 by (cbn; by rewrite Hq).
  assert (try_matchmaking_begin o st0 =
          Some (Some {| hs_a := n; hs_b := w; hs_room_id := rid |}, matched o st0,
                [Send n (Welcome "p1" rid)])) as Hbegin.
  { rewrite try_matchmaking_begin_pair.
    - by rewrite H1, H2.
    - rewrite Hq0, size_union, !size_singleton by set_solver. lia.
    - rewrite Hq0, H1. set_solver.
    - rewrite Hq0, H2. set_solver.
    - by rewrite H1, H2. }
  set (st1 := {| rooms := <[rid := leave "p2" (paired_room rid n w)]> (rooms st);
                 queue := ∅;
                 player_index := <[n := PlayerConn.mk n "p1" rid]> (player_index st) |}).
  assert (remove_client w (matched o st0)
          = Some (tt, st1, [Send n (PlayerLeft "p2" rid)])) as Hrm.
  { rewrite (remove_client_slot w (matched o st0) (PlayerConn.mk w "p2" rid)
               (paired_room rid n w)).
    - cbn [PlayerConn.player_id PlayerConn.room_id]. rewrite decide_False.
      + apply (f_equal Some). apply (f_equal2 pair); [apply (f_equal (pair tt))|reflexivity].
        apply server_eq; unfold st1; cbn [rooms queue player_index].
        * unfold st0. cbn [rooms matched set_queue]. fold rid. rewrite H1, H2.
          apply insert_insert_eq.
        * cbn [queue matched]. rewrite Hq0, H1, H2. set_solver.
        * unfold st0. cbn [player_index matched set_queue]. rewrite H1, H2. fold rid.
          rewrite delete_insert_eq. apply delete_id.
          rewrite lookup_insert_ne by done. exact Hiw.
      + unfold leave, paired_room. cbn. intros Hemp.
        assert ((delete "p2" (<["p2" := PlayerConn.mk w "p2" rid]>
                   (<["p1" := PlayerConn.mk n "p1" rid]> ∅)) : gmap string PlayerConn.t)
                !! "p1" = Some (PlayerConn.mk n "p1" rid)) as Hl by reflexivity.
        rewrite Hemp in Hl. by rewrite lookup_empty in Hl.
    - cbn [player_index matched]. rewrite H2. fold rid. apply lookup_insert_eq.
    - cbn [PlayerConn.room_id rooms matched]. fold rid. rewrite H1, H2.
      apply lookup_insert_eq.
    - reflexivity. }
  assert (ws_handler_open_to_second env n o [MwClose w] st
          = Some (Some {| hs_a := n; hs_b := w; hs_room_id := rid |}, st1,
                  [Send n (QueueJoined PUBLIC_QUEUE); Send n (Welcome "p1" rid);
                   Send n (PlayerLeft "p2" rid)])) as Hfirst.
  { rewrite ws_handler_open_to_second_eq. fold st0. rewrite Hbegin.
    cbn [fmap list_fmap event_of run step]. unfold ws_handler_close.
    unfold mbind at 1, M_bind at 1. rewrite Hrm. unfold mret, M_ret. reflexivity. }
  exists {| hs_a := n; hs_b := w; hs_room_id := rid |}, st1.
  split; [exact Hfirst|]. split; [done|]. split.
  { split; [set_solver|]. intros rid' room pid pc. unfold st1. cbn [rooms].
    rewrite lookup_insert. case_decide as Hrid.
    - intros [= <-]. unfold leave, paired_room. cbn [Room.players Room.set_players
        Room.set_state_players].
      intros [Hp2 Hpc]%lookup_delete_Some.
      rewrite lookup_insert_ne in Hpc by done.
      apply lookup_insert_Some in Hpc as [[_ <-]|[_ Hemp]]; [done|].
      by rewrite lookup_empty in Hemp.
    - intros Hr Hpc. eapply consistent_queued_no_slot; [exact Hc| |exact Hr|exact Hpc].
      rewrite Hq. set_solver. }
  split.
  { unfold st1. cbn [player_index]. by rewrite lookup_insert_ne. }
  split; [|done].
  rewrite ws_handler_open_interleaved_eq, Hfirst.
  cbn [fmap list_fmap run hs_b hs_room_id]. unfold mret, M_ret.
  unfold st1 at 2. cbn [rooms]. rewrite lookup_insert_eq. reflexivity.
Qed.

Lemma welcome_sent_after_close_witness :
  ∃ h st1,
    ws_handler_open_to_second default_env 2%positive
      {| new_room_id := "room-000000"; pop1 := 2%positive; pop2 := 1%positive |}
      [MwClose 1%positive] (set_queue (λ _, {[1%positive]}) initial)
    = Some (Some h, st1,
            [Send 2%positive (QueueJoined PUBLIC_QUEUE);
             Send 2%positive (Welcome "p1" "room-000000");
             Send 2%positive (PlayerLeft "p2" "room-000000")]) ∧
    hs_b h = 1%positive ∧ absent 1%positive st1 ∧ player_index st1 !! 1%positive = None ∧
    ws_handler_open_interleaved default_env 2%positive
      {| new_room_id := "room-000000"; pop1 := 2%positive; pop2 := 1%positive |}
      [MwClose 1%positive] [] (set_queue (λ _, {[1%positive]}) initial)
    = Some (tt, st1,
            [Send 2%positive (QueueJoined PUBLIC_QUEUE);
             Send 2%positive (Welcome "p1" "room-000000");
             Send 2%positive (PlayerLeft "p2" "room-000000");
             Send 1%positive (Welcome "p2" "room-000000");
             Send 2%positive (MatchFound "room-000000" ["p1"; "p2"])]) ∧
    rooms st1
    = <["room-000000" := leave "p2" (paired_room "room-000000" 2%positive 1%positive)]>
        (rooms (set_queue (λ _, {[1%positive]}) initial)) ∧
    queue st1 = ∅ ∧
    player_index st1
    = <[2%positive := PlayerConn.mk 2%positive "p1" "room-000000"]>
        (player_index (set_queue (λ _, {[1%positive]}) initial)).
Proof.
  apply (welcome_sent_after_close default_env (set_queue (λ _, {[1%positive]}) initial)
           1%positive 2%positive
           {| new_room_id := "room-000000"; pop1 := 2%positive; pop2 := 1%positive |}).
  - split.
    + intros rid room. cbn. by rewrite lookup_empty.
    + intros ws _. cbn. apply lookup_empty.
  - reflexivity.
  - done.
  - reflexivity.
  - reflexivity.
Defined.
